(** * EasyNote (NoteMaster): the note store of the popup, the options page and
    the background service, embedded from [scripts/popup.js], [options.js]
    and [background.js]. *)

From Stdlib Require Import ZArith Ascii String List Lia Bool Permutation Sorted.
From stdpp Require Import base tactics option list strings pretty.

Set Warnings "-register-all".

Local Open Scope Z_scope.
Local Open Scope stdpp_scope.

(** ** JavaScript strings

    A JavaScript string is a sequence of UTF-16 code units.  The development
    covers the strings whose code units lie in the Latin-1 range 0..255: one
    [ascii] stands for one code unit. *)

Module JsString.

Definition code (c : ascii) : N := N_of_ascii c.

(** WhiteSpace and LineTerminator code units below 256, the ones
    [String.prototype.trim] and the regular expression class [\s] remove:
    TAB, LF, VT, FF, CR, SP and NBSP. *)
Definition is_white_space (c : ascii) : bool :=
  match code c with
  | 9 | 10 | 11 | 12 | 13 | 32 | 160 => true
  | _ => false
  end%N.

(** LineTerminator code units, the ones [.] of a regular expression
    refuses: LF and CR. *)
Definition is_line_terminator (c : ascii) : bool :=
  match code c with
  | 10 | 13 => true
  | _ => false
  end%N.

(** [toLowerCase] on one Latin-1 code unit: A..Z and the accented capitals
    U+00C0..U+00DE (U+00D7, the multiplication sign, apart) move up by 32. *)
Definition lower_char (c : ascii) : ascii :=
  let n := code c in
  if ((65 <=? n) && (n <=? 90))%N then ascii_of_N (n + 32)
  else if ((192 <=? n) && (n <=? 222) && negb (n =? 215))%N
       then ascii_of_N (n + 32)
  else c.

Fixpoint toLowerCase (s : string) : string :=
  match s with
  | EmptyString => EmptyString
  | String c s' => String (lower_char c) (toLowerCase s')
  end.

Fixpoint trimStart (s : string) : string :=
  match s with
  | EmptyString => EmptyString
  | String c s' => if is_white_space c then trimStart s' else s
  end.

Definition is_empty (s : string) : bool :=
  match s with EmptyString => true | String _ _ => false end.

Fixpoint trimEnd (s : string) : string :=
  match s with
  | EmptyString => EmptyString
  | String c s' =>
      let r := trimEnd s' in
      if is_white_space c && is_empty r then EmptyString else String c r
  end.

Definition trim (s : string) : string := trimEnd (trimStart s).

(** [p] read off the front of [s]: what follows it, when it is there. *)
Fixpoint strip_prefix (p s : string) : option string :=
  match p with
  | EmptyString => Some s
  | String a p' =>
      match s with
      | EmptyString => None
      | String b s' => if Ascii.eqb a b then strip_prefix p' s' else None
      end
  end.

Definition startsWith (s p : string) : bool :=
  match strip_prefix p s with Some _ => true | None => false end.

(** [s.includes(t)] *)
Fixpoint includes (s t : string) : bool :=
  startsWith s t ||
  match s with
  | EmptyString => false
  | String _ s' => includes s' t
  end.

(** [!s] for a string: only the empty string is falsy. *)
Definition falsy (s : string) : bool := is_empty s.

(** [a || b] on strings. *)
Definition or_else (a b : string) : string := if falsy a then b else a.

(** [ls.join] with the empty separator *)
Definition join (ls : list string) : string :=
  foldr String.append EmptyString ls.

(** [s.repeat(n)] *)
Fixpoint repeat (s : string) (n : nat) : string :=
  match n with
  | O => EmptyString
  | S k => s +:+ repeat s k
  end.

(** [s.split(sep)[0]] for a one-character separator: the part of [s]
    before the first [sep], all of [s] when there is none. *)
Fixpoint split_head (sep : ascii) (s : string) : string :=
  match s with
  | EmptyString => EmptyString
  | String c s' => if Ascii.eqb c sep then EmptyString
                   else String c (split_head sep s')
  end.

(** The specification side: every code unit of [s] is white space. *)
Fixpoint all_white_space (s : string) : Prop :=
  match s with
  | EmptyString => True
  | String c s' => is_white_space c = true /\ all_white_space s'
  end.

(** [t] occurs in [s] as a contiguous run of code units. *)
Definition substring_of (t s : string) : Prop :=
  exists pre post, s = pre +:+ t +:+ post.

End JsString.

Import JsString.

(** ** Notes *)

(** A timestamp is the ISO-8601 string [new Date().toISOString()] returns; it
    is kept as the instant it denotes, in milliseconds since the epoch, which
    is what [new Date(s)] reads back from it when two notes are compared. *)
Definition timestamp := Z.

(** The note objects.  [tags] and [category] are written by the background
    service only; a note of the popup has neither property. *)
Record Note := mkNote {
  id : string;
  title : string;
  content : string;
  tags : option (list string);
  category : option string;
  created : timestamp;
  modified : timestamp
}.

#[global] Instance Note_eq_dec : EqDecision Note.
Proof. solve_decision. Defined.

(** ** Settings *)

(** The settings object the scripts keep under the key [settings] of
    [chrome.storage.sync].  [backupFrequency] is written by the background
    service only. *)
Record Settings := mkSettings {
  theme : string;
  fontSize : Z;
  fontFamily : string;
  autoSave : bool;
  exportFormat : string;
  backupFrequency : option string
}.

(** ** The world the scripts run in *)

(** [Render ns]: the list of the popup shows the notes [ns], in this order,
    each by the markup [createNoteElement] makes of it; for no note at all
    the empty state is shown in place of the list. *)
Inductive Event :=
| ConsoleLog (msg : string)
| ConsoleError (msg : string)
| Alert (msg : string)
| SaveStatus (msg type : string)
| Render (notesToRender : list Note)
| Download (content filename : string)
| Notification (msg : string).

Record World := mkWorld {
  (** the [NoteMaster] object of the popup.  In the script [currentNote],
      once opened from the list or saved, is the very object [notes] holds
      under its id; here the record is kept in both places and
      [saveCurrentNote] writes both.  [settings] is [None] for the empty
      object the constructor starts with. *)
  notes : list Note;
  currentNote : option Note;
  isEditing : bool;
  settings : option Settings;
  (** the popup document: the value of [#noteTitle] and the [innerHTML] of
      [#noteEditor], [None] when the element is missing; whether
      [#notesList], [#emptyState] and [#noteModal] are there *)
  noteTitle : option string;
  noteEditor : option string;
  has_notesList : bool;
  has_emptyState : bool;
  has_noteModal : bool;
  (** what the browser makes of an assignment to a field: [value_of t] is
      the [value] that [#noteTitle] has after [t] was assigned to it, and
      [innerHTML_of m] the [innerHTML] that [#noteEditor] has after the
      markup [m] was assigned to it, parsed and written out again *)
  value_of : string -> string;
  innerHTML_of : string -> string;
  (** [chrome.storage.local]: what is stored under the key [notes], and
      whether the backend rejects reads or writes *)
  local_notes : option (list Note);
  get_fails : bool;
  set_fails : bool;
  (** [chrome.storage.sync]: what is stored under the key [settings], and
      whether the backend rejects reads or writes *)
  sync_settings : option Settings;
  sync_get_fails : bool;
  sync_set_fails : bool;
  (** the system clock: [clock k] is what the [k]-th [new Date()] or
      [Date.now()] reads *)
  clock : nat -> timestamp;
  ticks : nat;
  (** [random36 k] is what the [k]-th
      [Math.random().toString(36).substr(2)] yields *)
  random36 : nat -> string;
  draws : nat;
  (** the answers the user gives to the coming [confirm] dialogs, in order;
      a dialog raised after these is dismissed *)
  confirms : list bool;
  (** whether the background script runs where [document] is defined *)
  has_document : bool;
  (** what the scripts showed, logged or handed out, oldest first *)
  out : list Event
}.

(** [this.settings.exportFormat] of the popup *)
Definition settings_exportFormat (w : World) : option string :=
  exportFormat <$> settings w.

Definition with_notes (v : list Note) (w : World) : World :=
  mkWorld v (currentNote w) (isEditing w) (settings w) (noteTitle w)
    (noteEditor w) (has_notesList w) (has_emptyState w) (has_noteModal w)
    (value_of w) (innerHTML_of w) (local_notes w) (get_fails w) (set_fails w)
    (sync_settings w) (sync_get_fails w) (sync_set_fails w) (clock w) (ticks
    w) (random36 w) (draws w) (confirms w) (has_document w) (out w).
Definition with_currentNote (v : option Note) (w : World) : World :=
  mkWorld (notes w) v (isEditing w) (settings w) (noteTitle w) (noteEditor
    w) (has_notesList w) (has_emptyState w) (has_noteModal w) (value_of w)
    (innerHTML_of w) (local_notes w) (get_fails w) (set_fails w)
    (sync_settings w) (sync_get_fails w) (sync_set_fails w) (clock w) (ticks
    w) (random36 w) (draws w) (confirms w) (has_document w) (out w).
Definition with_isEditing (v : bool) (w : World) : World :=
  mkWorld (notes w) (currentNote w) v (settings w) (noteTitle w)
    (noteEditor w) (has_notesList w) (has_emptyState w) (has_noteModal w)
    (value_of w) (innerHTML_of w) (local_notes w) (get_fails w) (set_fails w)
    (sync_settings w) (sync_get_fails w) (sync_set_fails w) (clock w) (ticks
    w) (random36 w) (draws w) (confirms w) (has_document w) (out w).
Definition with_settings (v : option Settings) (w : World) : World :=
  mkWorld (notes w) (currentNote w) (isEditing w) v (noteTitle w)
    (noteEditor w) (has_notesList w) (has_emptyState w) (has_noteModal w)
    (value_of w) (innerHTML_of w) (local_notes w) (get_fails w) (set_fails w)
    (sync_settings w) (sync_get_fails w) (sync_set_fails w) (clock w) (ticks
    w) (random36 w) (draws w) (confirms w) (has_document w) (out w).
Definition with_noteTitle (v : option string) (w : World) : World :=
  mkWorld (notes w) (currentNote w) (isEditing w) (settings w) v
    (noteEditor w) (has_notesList w) (has_emptyState w) (has_noteModal w)
    (value_of w) (innerHTML_of w) (local_notes w) (get_fails w) (set_fails w)
    (sync_settings w) (sync_get_fails w) (sync_set_fails w) (clock w) (ticks
    w) (random36 w) (draws w) (confirms w) (has_document w) (out w).
Definition with_noteEditor (v : option string) (w : World) : World :=
  mkWorld (notes w) (currentNote w) (isEditing w) (settings w) (noteTitle w)
    v (has_notesList w) (has_emptyState w) (has_noteModal w) (value_of w)
    (innerHTML_of w) (local_notes w) (get_fails w) (set_fails w)
    (sync_settings w) (sync_get_fails w) (sync_set_fails w) (clock w) (ticks
    w) (random36 w) (draws w) (confirms w) (has_document w) (out w).
Definition with_local_notes (v : option (list Note)) (w : World) : World :=
  mkWorld (notes w) (currentNote w) (isEditing w) (settings w) (noteTitle w)
    (noteEditor w) (has_notesList w) (has_emptyState w) (has_noteModal w)
    (value_of w) (innerHTML_of w) v (get_fails w) (set_fails w)
    (sync_settings w) (sync_get_fails w) (sync_set_fails w) (clock w) (ticks
    w) (random36 w) (draws w) (confirms w) (has_document w) (out w).
Definition with_sync_settings (v : option Settings) (w : World) : World :=
  mkWorld (notes w) (currentNote w) (isEditing w) (settings w) (noteTitle w)
    (noteEditor w) (has_notesList w) (has_emptyState w) (has_noteModal w)
    (value_of w) (innerHTML_of w) (local_notes w) (get_fails w) (set_fails w)
    v (sync_get_fails w) (sync_set_fails w) (clock w) (ticks w) (random36 w)
    (draws w) (confirms w) (has_document w) (out w).
Definition with_ticks (v : nat) (w : World) : World :=
  mkWorld (notes w) (currentNote w) (isEditing w) (settings w) (noteTitle w)
    (noteEditor w) (has_notesList w) (has_emptyState w) (has_noteModal w)
    (value_of w) (innerHTML_of w) (local_notes w) (get_fails w) (set_fails w)
    (sync_settings w) (sync_get_fails w) (sync_set_fails w) (clock w) v
    (random36 w) (draws w) (confirms w) (has_document w) (out w).
Definition with_draws (v : nat) (w : World) : World :=
  mkWorld (notes w) (currentNote w) (isEditing w) (settings w) (noteTitle w)
    (noteEditor w) (has_notesList w) (has_emptyState w) (has_noteModal w)
    (value_of w) (innerHTML_of w) (local_notes w) (get_fails w) (set_fails w)
    (sync_settings w) (sync_get_fails w) (sync_set_fails w) (clock w) (ticks
    w) (random36 w) v (confirms w) (has_document w) (out w).
Definition with_confirms (v : list bool) (w : World) : World :=
  mkWorld (notes w) (currentNote w) (isEditing w) (settings w) (noteTitle w)
    (noteEditor w) (has_notesList w) (has_emptyState w) (has_noteModal w)
    (value_of w) (innerHTML_of w) (local_notes w) (get_fails w) (set_fails w)
    (sync_settings w) (sync_get_fails w) (sync_set_fails w) (clock w) (ticks
    w) (random36 w) (draws w) v (has_document w) (out w).
Definition with_out (v : list Event) (w : World) : World :=
  mkWorld (notes w) (currentNote w) (isEditing w) (settings w) (noteTitle w)
    (noteEditor w) (has_notesList w) (has_emptyState w) (has_noteModal w)
    (value_of w) (innerHTML_of w) (local_notes w) (get_fails w) (set_fails w)
    (sync_settings w) (sync_get_fails w) (sync_set_fails w) (clock w) (ticks
    w) (random36 w) (draws w) (confirms w) (has_document w) v.

(** ** Computations: state passing with exceptions *)

Inductive Res (A : Type) :=
| Ok (a : A)
| Throw (e : string).
Arguments Ok {A} a.
Arguments Throw {A} e.

Definition M (A : Type) : Type := World -> Res A * World.

Definition ret {A} (a : A) : M A := fun w => (Ok a, w).

Definition bind {A B} (m : M A) (k : A -> M B) : M B :=
  fun w => match m w with
           | (Ok a, w') => k a w'
           | (Throw e, w') => (Throw e, w')
           end.

Definition throw {A} (e : string) : M A := fun w => (Throw e, w).

(** [try { m } catch (error) { h error }] *)
Definition try_catch {A} (m : M A) (h : string -> M A) : M A :=
  fun w => match m w with
           | (Ok a, w') => (Ok a, w')
           | (Throw e, w') => h e w'
           end.

Definition gets {A} (f : World -> A) : M A := fun w => (Ok (f w), w).
Definition modify (f : World -> World) : M unit := fun w => (Ok tt, f w).

#[global] Instance M_ret : MRet M := @ret.
#[global] Instance M_bind : MBind M := fun A B k m => bind m k.

Definition emit (e : Event) : M unit :=
  modify (fun w => with_out (out w ++ [e]) w).

Definition console_log (msg : string) : M unit := emit (ConsoleLog msg).
Definition console_error (msg : string) : M unit := emit (ConsoleError msg).
Definition alert (msg : string) : M unit := emit (Alert msg).

(** [confirm(msg)]: the next answer of the user. *)
Definition confirm (msg : string) : M bool :=
  fun w => match confirms w with
           | [] => (Ok false, w)
           | b :: rest => (Ok b, with_confirms rest w)
           end.

(** [new Date().toISOString()] *)
Definition new_Date : M timestamp :=
  fun w => (Ok (clock w (ticks w)), with_ticks (S (ticks w)) w).

(** [chrome.storage.local.get(["notes"])], awaited: [result.notes]. *)
Definition storage_local_get : M (option (list Note)) :=
  fun w => if get_fails w then (Throw "storage.local.get", w)
           else (Ok (local_notes w), w).

(** [chrome.storage.local.set({ notes })], awaited. *)
Definition storage_local_set (v : list Note) : M unit :=
  fun w => if set_fails w then (Throw "storage.local.set", w)
           else (Ok tt, with_local_notes (Some v) w).

(** [chrome.storage.sync.get(["settings"])], awaited: [result.settings]. *)
Definition storage_sync_get : M (option Settings) :=
  fun w => if sync_get_fails w then (Throw "storage.sync.get", w)
           else (Ok (sync_settings w), w).

(** [chrome.storage.sync.set({ settings })], awaited. *)
Definition storage_sync_set (v : Settings) : M unit :=
  fun w => if sync_set_fails w then (Throw "storage.sync.set", w)
           else (Ok tt, with_sync_settings (Some v) w).

(** ** [popup.js]: the NoteMaster class *)

Definition showSaveStatus (message type : string) : M unit :=
  emit (SaveStatus message type).

Fixpoint mapM {A B : Type} (f : A -> M B) (l : list A) : M (list B) :=
  match l with
  | [] => mret []
  | x :: rest => y ← f x; ys ← mapM f rest; mret (y :: ys)
  end.

(** [createNoteElement(note)]: the markup of one entry of the list.  The
    entry shows the date of the note as [formatDate(note.modified)] words
    it, and [formatDate] reads the clock.  The markup itself is not kept:
    the entry stands for the note it shows. *)
Definition createNoteElement (note : Note) : M Note :=
  (* const formattedDate = this.formatDate(note.modified) *)
  _ ← new_Date;
  mret note.

(** [renderNotes(notesToRender = this.notes)] *)
Definition renderNotes (notesToRender : option (list Note)) : M unit :=
  ns ← gets notes;
  let notesToRender := default ns notesToRender in
  notesList ← gets has_notesList;
  emptyState ← gets has_emptyState;
  if negb notesList || negb emptyState then mret tt
  else if (length notesToRender =? 0)%nat then emit (Render [])
  else
    elements ← mapM createNoteElement notesToRender;
    emit (Render elements).

(** [Array.prototype.sort] is a stable sort; [cmp a b] is the sign the
    comparison function returns: [a] goes first when it is not positive. *)
Section Sort.
Context {A : Type} (cmp : A -> A -> Z).

Fixpoint sort_insert (x : A) (l : list A) : list A :=
  match l with
  | [] => [x]
  | y :: l' => if cmp x y <=? 0 then x :: l else y :: sort_insert x l'
  end.

Definition sort (l : list A) : list A := foldr sort_insert [] l.
End Sort.

(** [(a, b) => new Date(b.modified) - new Date(a.modified)] *)
Definition by_modified_desc (a b : Note) : Z := modified b - modified a.

(** The settings the popup and the options page fall back on. *)
Definition default_settings : Settings :=
  mkSettings "light" 14 "system" true "json" None.

Definition loadSettings : M unit :=
  try_catch
    (console_log "Loading settings..." ;;
     result_settings ← storage_sync_get;
     modify (with_settings
               (Some (default default_settings result_settings))) ;;
     console_log "Settings loaded:")
    (fun error =>
       console_error "Error loading settings:" ;;
       (* Use default settings if Chrome storage fails *)
       modify (with_settings (Some default_settings))).

Definition loadNotes : M unit :=
  try_catch
    (console_log "Loading notes..." ;;
     result_notes ← storage_local_get;
     modify (with_notes (default [] result_notes)) ;;
     console_log "Notes loaded:" ;;
     modify (fun w => with_notes (sort by_modified_desc (notes w)) w))
    (fun error =>
       console_error "Error loading notes:" ;;
       modify (with_notes [])).

Definition saveNotes : M unit :=
  try_catch
    (ns ← gets notes;
     storage_local_set ns ;;
     console_log "Notes saved locally")
    (fun error => console_error "Error saving notes:").

(** [setupEventListeners()] hangs the handlers on the controls of the page
    that are there; the events themselves are the [Action]s below. *)
Definition setupEventListeners : M unit :=
  console_log "Setting up event listeners..." ;;
  console_log "Event listeners setup complete".

(** [init()].  Of its steps [setupKeyboardShortcuts], [applyTheme] and
    [updateSyncStatus] only touch the listeners, the styles and the sync
    indicator of the page. *)
Definition init : M unit :=
  try_catch
    (console_log "NoteMaster initializing..." ;;
     loadSettings ;;
     loadNotes ;;
     setupEventListeners ;;
     renderNotes None ;;
     console_log "NoteMaster initialized successfully")
    (fun error => console_error "Error initializing NoteMaster:").

(** [new NoteMaster()] *)
Definition new_NoteMaster : M unit :=
  modify (with_notes []) ;;
  modify (with_currentNote None) ;;
  modify (with_isEditing false) ;;
  modify (with_settings None) ;;
  init.

(** [n.toString(36)] for an integer [n]. *)
Definition digit36 (d : N) : ascii :=
  if (d <? 10)%N then ascii_of_N (48 + d) else ascii_of_N (87 + d).

Fixpoint base36_digits (fuel : nat) (n : N) (acc : string) : string :=
  match fuel with
  | O => acc
  | S k =>
      if (n <? 36)%N then String (digit36 n) acc
      else base36_digits k (n / 36) (String (digit36 (n mod 36)) acc)
  end.

Definition toString36 (n : Z) : string :=
  let digits := base36_digits (S (N.to_nat (N.log2 (Z.abs_N n))))
                              (Z.abs_N n) EmptyString in
  if n <? 0 then String "-" digits else digits.

(** [Date.now().toString(36) + Math.random().toString(36).substr(2)] *)
Definition generateId : M string :=
  fun w =>
    (Ok (toString36 (clock w (ticks w)) +:+ random36 w (draws w)),
     with_draws (S (draws w)) (with_ticks (S (ticks w)) w)).

(** [openNoteModal(note)]: the note becomes the current one and the fields
    of the modal, where the document has them, are filled from it: what the
    fields hold afterwards is what the browser makes of the assignments.
    Showing the modal and moving the focus touch nothing the scripts read
    back. *)
Definition openNoteModal (note : Note) : M unit :=
  console_log "Opening note modal for:" ;;
  modify (with_currentNote (Some note)) ;;
  modify (with_isEditing true) ;;
  (* Populate modal fields *)
  modify (fun w => with_noteTitle
            (_ ← noteTitle w;
             Some (value_of w (or_else (title note) EmptyString))) w) ;;
  modify (fun w => with_noteEditor
            (_ ← noteEditor w;
             Some (innerHTML_of w (or_else (content note) EmptyString))) w) ;;
  (* Show modal *)
  modal ← gets has_noteModal;
  if (modal : bool) then console_log "Modal should be visible now"
  else mret tt.

Definition createNewNote : M unit :=
  console_log "Creating new note..." ;;
  new_id ← generateId;
  c ← new_Date;
  m ← new_Date;
  let newNote := mkNote new_id EmptyString EmptyString None None c m in
  modify (with_currentNote (Some newNote)) ;;
  openNoteModal newNote.

Definition hasUnsavedChanges : M bool :=
  cur ← gets currentNote;
  titleInput ← gets noteTitle;
  editorInput ← gets noteEditor;
  match cur, titleInput, editorInput with
  | Some note, Some title_value, Some content_value =>
      mret (negb (String.eqb title_value (or_else (title note) EmptyString))
            || negb (String.eqb content_value
                       (or_else (content note) EmptyString)))
  | _, _, _ => mret false
  end.

(** [closeNoteModal()], with [save] standing for the call
    [this.saveCurrentNote()] it makes when the user asks to save first. *)
Definition closeNoteModal_with (save : M unit) : M unit :=
  editing ← gets isEditing;
  unsaved ← hasUnsavedChanges;
  save_first ← (if editing && unsaved
                then confirm
                  "You have unsaved changes. Do you want to save before closing?"
                else mret false);
  if (save_first : bool) then save
  else
    modify (with_isEditing false) ;;
    modify (with_currentNote None).

(** [this.notes.findIndex((n) => n.id === id0)] *)
Definition findIndex_id (id0 : string) (ns : list Note) : option nat :=
  fst <$> list_find (fun n => id n = id0) ns.

(** One run of the body of [saveCurrentNote(showFeedback)];
    [closeNoteModal] is the modal-closing call it ends with. *)
Definition saveCurrentNote_body (closeNoteModal : M unit)
    (showFeedback : bool) : M unit :=
  cur ← gets currentNote;
  titleInput ← gets noteTitle;
  editorInput ← gets noteEditor;
  match cur, titleInput, editorInput with
  | Some note, Some title_value, Some editor_html =>
      let title' := trim title_value in
      let content' := trim editor_html in
      (* Don't save empty notes *)
      if falsy title' && falsy content' then
        if showFeedback
        then alert "Please add a title or content to save the note."
        else mret tt
      else
        (* Update note data *)
        now ← new_Date;
        let note' := mkNote (id note) (or_else title' "Untitled Note")
                            content' (tags note) (category note)
                            (created note) now in
        modify (with_currentNote (Some note')) ;;
        (* Add to notes array if it's a new note *)
        ns ← gets notes;
        match findIndex_id (id note') ns with
        | None => modify (with_notes (note' :: ns))
        | Some existingIndex =>
            modify (with_notes (<[existingIndex := note']> ns))
        end ;;
        (* Save to storage *)
        saveNotes ;;
        (* Update UI *)
        renderNotes None ;;
        if showFeedback
        then showSaveStatus "Note saved successfully!" "success" ;;
             closeNoteModal
        else mret tt
  | _, _, _ => mret tt
  end.

(** [saveCurrentNote] and [closeNoteModal] call each other: closing the modal
    with unsaved changes asks the user and, on yes, saves again.  Every such
    round takes one answer of the user, so the calls nest no deeper than the
    answers that are left. *)
Fixpoint saveCurrentNote_fuel (fuel : nat) (showFeedback : bool) : M unit :=
  match fuel with
  | O => throw "saveCurrentNote: nesting"
  | S k =>
      saveCurrentNote_body
        (closeNoteModal_with (saveCurrentNote_fuel k true)) showFeedback
  end.

Definition saveCurrentNote (showFeedback : bool) : M unit :=
  fun w => saveCurrentNote_fuel (S (length (confirms w))) showFeedback w.

Definition closeNoteModal : M unit :=
  closeNoteModal_with (saveCurrentNote true).

Definition deleteNote (noteId : string) : M unit :=
  sure ← confirm "Are you sure you want to delete this note?";
  if (sure : bool) then
    modify (fun w => with_notes
              (List.filter (fun note => negb (String.eqb (id note) noteId))
                           (notes w)) w) ;;
    saveNotes ;;
    renderNotes None ;;
    showSaveStatus "Note deleted" "success"
  else mret tt.

Definition search_match (searchTerm : string) (note : Note) : bool :=
  includes (toLowerCase (title note)) searchTerm
  || includes (toLowerCase (content note)) searchTerm.

Definition searchNotes (query : string) : M unit :=
  let searchTerm := trim (toLowerCase query) in
  if falsy searchTerm then renderNotes None
  else
    ns ← gets notes;
    let filteredNotes := List.filter (search_match searchTerm) ns in
    renderNotes (Some filteredNotes).

(** ** Regular-expression substitutions

    [s.replace(/re/g, replacement)] walks [s] from the left; where the
    expression matches, the replacement is written and the walk resumes
    behind the match, elsewhere one code unit is copied.  A [matcher] tells,
    for the text that starts at the current place, what replaces the match
    and how many code units the match takes (none of the expressions below
    matches the empty string). *)

Module Regex.

Definition matcher := string -> option (string * nat).

Fixpoint replace_go (m : matcher) (s : string) (skip : nat) : string :=
  match s with
  | EmptyString => EmptyString
  | String c s' =>
      match skip with
      | S k => replace_go m s' k
      | O =>
          match m s with
          | Some (replacement, taken) =>
              replacement +:+ replace_go m s' (Nat.pred taken)
          | None => String c (replace_go m s' O)
          end
      end
  end.

Definition replace_all (m : matcher) (s : string) : string :=
  replace_go m s O.

(** [(.*?)] followed by the literal [close]: the shortest run of code
    units, none a line terminator, after which [close] stands. *)
Fixpoint lazy_until (close s : string) : option string :=
  if startsWith s close then Some EmptyString
  else match s with
       | EmptyString => None
       | String c s' =>
           if is_line_terminator c then None
           else String c <$> lazy_until close s'
       end.

(** [/open(.*?)close/] with the replacement [before$1after] *)
Definition pair (open close before after : string) : matcher :=
  fun s =>
    rest ← strip_prefix open s;
    captured ← lazy_until close rest;
    Some (before +:+ captured +:+ after,
          (String.length open + String.length captured
           + String.length close)%nat).

(** a literal expression, replaced by [replacement] *)
Definition literal (lit replacement : string) : matcher :=
  fun s => if startsWith s lit
           then Some (replacement, String.length lit) else None.

(** the length of the white space [s] starts with: [\s*] *)
Fixpoint white_space_run (s : string) : nat :=
  match s with
  | String c s' => if is_white_space c then S (white_space_run s') else O
  | EmptyString => O
  end.

Fixpoint drop (n : nat) (s : string) : string :=
  match n, s with
  | S k, String _ s' => drop k s'
  | _, _ => s
  end.

(** [/<br\s*\/?>/] *)
Definition line_break (replacement : string) : matcher :=
  fun s =>
    rest ← strip_prefix "<br" s;
    let n := white_space_run rest in
    match drop n rest with
    | String "/" (String ">" _) => Some (replacement, (3 + n + 2)%nat)
    | String ">" _ => Some (replacement, (3 + n + 1)%nat)
    | _ => None
    end.

(** the length of the run of code units other than [>] that [s] starts
    with, when a [>] ends it: [[^>]*>] *)
Fixpoint until_gt (s : string) : option nat :=
  match s with
  | EmptyString => None
  | String c s' => if Ascii.eqb c ">" then Some O else S <$> until_gt s'
  end.

(** [/<[^>]*>/] *)
Definition any_tag (replacement : string) : matcher :=
  fun s =>
    match s with
    | String "<" rest =>
        n ← until_gt rest; Some (replacement, (1 + n + 1)%nat)
    | _ => None
    end.

End Regex.

Definition LF : string := String "010" EmptyString.

(** The substitution table of [htmlToMarkdown], in the order of the source. *)
Definition markdown_rules : list Regex.matcher :=
  [ Regex.pair "<strong>" "</strong>" "**" "**";
    Regex.pair "<b>" "</b>" "**" "**";
    Regex.pair "<em>" "</em>" "*" "*";
    Regex.pair "<i>" "</i>" "*" "*";
    Regex.pair "<u>" "</u>" "_" "_";
    Regex.literal "<ul>" EmptyString;
    Regex.literal "</ul>" EmptyString;
    Regex.literal "<ol>" EmptyString;
    Regex.literal "</ol>" EmptyString;
    Regex.pair "<li>" "</li>" "- " EmptyString;
    Regex.line_break LF;
    Regex.pair "<p>" "</p>" EmptyString (LF +:+ LF);
    Regex.any_tag EmptyString ].

Definition htmlToMarkdown (html : string) : string :=
  let s := Regex.replace_all (Regex.pair "<strong>" "</strong>" "**" "**") html in
  let s := Regex.replace_all (Regex.pair "<b>" "</b>" "**" "**") s in
  let s := Regex.replace_all (Regex.pair "<em>" "</em>" "*" "*") s in
  let s := Regex.replace_all (Regex.pair "<i>" "</i>" "*" "*") s in
  let s := Regex.replace_all (Regex.pair "<u>" "</u>" "_" "_") s in
  let s := Regex.replace_all (Regex.literal "<ul>" EmptyString) s in
  let s := Regex.replace_all (Regex.literal "</ul>" EmptyString) s in
  let s := Regex.replace_all (Regex.literal "<ol>" EmptyString) s in
  let s := Regex.replace_all (Regex.literal "</ol>" EmptyString) s in
  let s := Regex.replace_all (Regex.pair "<li>" "</li>" "- " EmptyString) s in
  let s := Regex.replace_all (Regex.line_break LF) s in
  let s := Regex.replace_all (Regex.pair "<p>" "</p>" EmptyString (LF +:+ LF)) s in
  Regex.replace_all (Regex.any_tag EmptyString) s. (* Remove remaining HTML tags *)

(** [escapeHtml]: the text is put into a fresh [div] as its [textContent]
    and read back as [innerHTML], which writes the ampersand, the
    no-break space and the two angle brackets as character references. *)
Fixpoint escapeHtml (text : string) : string :=
  match text with
  | EmptyString => EmptyString
  | String c rest =>
      (if Ascii.eqb c "&" then "&amp;"
       else if Ascii.eqb c "160" then "&nbsp;"
       else if Ascii.eqb c "<" then "&lt;"
       else if Ascii.eqb c ">" then "&gt;"
       else String c EmptyString) +:+ escapeHtml rest
  end.

(** ** JSON

    The values a note collection is made of: strings, arrays and objects
    (and the three literals).  A note holds no number, and numbers are
    neither written nor read here. *)

Module JSON.

Inductive value :=
| Null
| Bool (b : bool)
| Str (s : string)
| Arr (items : list value)
| Obj (members : list (string * value)).

Definition hex_digit (d : N) : ascii :=
  if (d <? 10)%N then ascii_of_N (48 + d) else ascii_of_N (87 + d).

(** QuoteJSONString on one code unit *)
Definition quote_char (c : ascii) : string :=
  match code c with
  | 8 => "\b"
  | 9 => "\t"
  | 10 => "\n"
  | 12 => "\f"
  | 13 => "\r"
  | 34 => String "\" (String c EmptyString)
  | 92 => "\\"
  | n => if (n <? 32)%N
         then "\u00" +:+ String (hex_digit (n / 16))
                                (String (hex_digit (n mod 16)) EmptyString)
         else String c EmptyString
  end%N.

Fixpoint quote_chars (s : string) : string :=
  match s with
  | EmptyString => EmptyString
  | String c rest => quote_char c +:+ quote_chars rest
  end.

Definition dquote : string := String "034" EmptyString.

Definition quote (s : string) : string :=
  dquote +:+ quote_chars s +:+ dquote.

Fixpoint join_with (sep : string) (parts : list string) : string :=
  match parts with
  | [] => EmptyString
  | [p] => p
  | p :: rest => p +:+ sep +:+ join_with sep rest
  end.

(** a line feed and the indentation of nesting depth [depth], the gap
    being two spaces *)
Definition newline (depth : nat) : string := LF +:+ JsString.repeat "  " depth.

(** SerializeJSONProperty with a gap of two spaces, at nesting [depth] *)
Fixpoint stringify_at (depth : nat) (v : value) : string :=
  match v with
  | Null => "null"
  | Bool true => "true"
  | Bool false => "false"
  | Str s => quote s
  | Arr [] => "[]"
  | Arr items =>
      "[" +:+ newline (S depth)
      +:+ join_with ("," +:+ newline (S depth))
            (map (stringify_at (S depth)) items)
      +:+ newline depth +:+ "]"
  | Obj [] => "{}"
  | Obj members =>
      "{" +:+ newline (S depth)
      +:+ join_with ("," +:+ newline (S depth))
            (map (fun m => quote (fst m) +:+ ": "
                           +:+ stringify_at (S depth) (snd m)) members)
      +:+ newline depth +:+ "}"
  end.

(** [JSON.stringify(v, null, 2)] *)
Definition stringify (v : value) : string := stringify_at 0 v.

(** *** [JSON.parse] *)

Definition is_json_space (c : ascii) : bool :=
  match code c with
  | 9 | 10 | 13 | 32 => true
  | _ => false
  end%N.

Fixpoint skip_space (s : string) : string :=
  match s with
  | String c rest => if is_json_space c then skip_space rest else s
  | EmptyString => s
  end.

Definition hex_value (c : ascii) : option N :=
  let n := code c in
  if ((48 <=? n) && (n <=? 57))%N then Some (n - 48)%N
  else if ((97 <=? n) && (n <=? 102))%N then Some (n - 87)%N
  else if ((65 <=? n) && (n <=? 70))%N then Some (n - 55)%N
  else None.

(** the code unit [\uXXXX] names, when it lies in the range covered *)
Definition unicode_escape (h1 h2 h3 h4 : ascii) : option ascii :=
  d1 ← hex_value h1; d2 ← hex_value h2;
  d3 ← hex_value h3; d4 ← hex_value h4;
  let n := (4096 * d1 + 256 * d2 + 16 * d3 + d4)%N in
  if (n <? 256)%N then Some (ascii_of_N n) else None.

Definition simple_escape (e : ascii) : option ascii :=
  match code e with
  | 34 => Some "034"%char
  | 92 => Some "\"%char
  | 47 => Some "/"%char
  | 98 => Some "008"%char
  | 102 => Some "012"%char
  | 110 => Some "010"%char
  | 114 => Some "013"%char
  | 116 => Some "009"%char
  | _ => None
  end%N.

Definition push (c : ascii) (r : option (string * string))
  : option (string * string) :=
  '(str, rest) ← r; Some (String c str, rest).

(** the characters of a string literal, behind its opening quote, up to
    the closing one *)
Fixpoint parse_chars (s : string) : option (string * string) :=
  match s with
  | EmptyString => None
  | String c rest =>
      if Ascii.eqb c "034" then Some (EmptyString, rest)
      else if Ascii.eqb c "\" then
        match rest with
        | EmptyString => None
        | String e rest' =>
            match simple_escape e with
            | Some ch => push ch (parse_chars rest')
            | None =>
                match e, rest' with
                | "u"%char,
                  String h1 (String h2 (String h3 (String h4 rest''))) =>
                    match unicode_escape h1 h2 h3 h4 with
                    | Some ch => push ch (parse_chars rest'')
                    | None => None
                    end
                | _, _ => None
                end
            end
        end
      else if (code c <? 32)%N then None
      else push c (parse_chars rest)
  end.

Fixpoint parse_value (fuel : nat) (s : string) : option (value * string) :=
  match fuel with
  | O => None
  | S k =>
      match skip_space s with
      | String "034" rest =>
          '(str, rest') ← parse_chars rest; Some (Str str, rest')
      | String "[" rest =>
          match skip_space rest with
          | String "]" rest' => Some (Arr [], rest')
          | _ => '(items, rest') ← parse_elements k rest;
                 Some (Arr items, rest')
          end
      | String "{" rest =>
          match skip_space rest with
          | String "}" rest' => Some (Obj [], rest')
          | _ => '(members, rest') ← parse_members k rest;
                 Some (Obj members, rest')
          end
      | String "n" _ =>
          rest ← strip_prefix "null" (skip_space s); Some (Null, rest)
      | String "t" _ =>
          rest ← strip_prefix "true" (skip_space s); Some (Bool true, rest)
      | String "f" _ =>
          rest ← strip_prefix "false" (skip_space s); Some (Bool false, rest)
      | _ => None
      end
  end
with parse_elements (fuel : nat) (s : string)
  : option (list value * string) :=
  match fuel with
  | O => None
  | S k =>
      '(v, rest) ← parse_value k s;
      match skip_space rest with
      | String "," rest' =>
          '(vs, rest'') ← parse_elements k rest'; Some (v :: vs, rest'')
      | String "]" rest' => Some ([v], rest')
      | _ => None
      end
  end
with parse_members (fuel : nat) (s : string)
  : option (list (string * value) * string) :=
  match fuel with
  | O => None
  | S k =>
      match skip_space s with
      | String "034" rest =>
          '(key, rest1) ← parse_chars rest;
          match skip_space rest1 with
          | String ":" rest2 =>
              '(v, rest3) ← parse_value k rest2;
              match skip_space rest3 with
              | String "," rest4 =>
                  '(ms, rest5) ← parse_members k rest4;
                  Some ((key, v) :: ms, rest5)
              | String "}" rest4 => Some ([(key, v)], rest4)
              | _ => None
              end
          | _ => None
          end
      | _ => None
      end
  end.

(** [JSON.parse(text)]; [None] stands for the SyntaxError. *)
Definition parse (text : string) : option value :=
  '(v, rest) ← parse_value (S (String.length text)) text;
  if is_empty (skip_space rest) then Some v else None.

End JSON.

Definition DQ : string := String "034" EmptyString.

(** The pieces of the template literals of the two HTML exports, between
    their placeholders, and the content of the welcome note. *)
Module Template.

Definition popup_head : string :=
    "
<!DOCTYPE html>
<html>
<head>
    <title>NoteMaster Export</title>
    <style>
        body { font-family: Arial, sans-serif; max-width: 800px; margin: 0 auto; padding: 20px; }
        .note { margin-bottom: 40px; border-bottom: 1px solid #eee; padding-bottom: 20px; }
        .note-title { font-size: 24px; font-weight: bold; margin-bottom: 10px; }
        .note-meta { color: #666; font-size: 14px; margin-bottom: 15px; }
        .note-content { line-height: 1.6; }
    </style>
</head>
<body>
    <h1>NoteMaster Export</h1>
    <p>Exported on ".

Definition popup_after_date : string :=
    "</p>
    ".

Definition popup_note_open : string :=
    "
        <div class=" +:+ DQ +:+ "note" +:+ DQ +:+ ">
            <div class=" +:+ DQ +:+ "note-title" +:+ DQ +:+ ">".

Definition popup_note_after_title : string :=
    "</div>
            <div class=" +:+ DQ +:+ "note-meta" +:+ DQ +:+ ">Modified: ".

Definition popup_note_after_date : string :=
    "</div>
            <div class=" +:+ DQ +:+ "note-content" +:+ DQ +:+ ">".

Definition popup_note_close : string :=
    "</div>
        </div>
    ".

Definition popup_tail : string :=
    "
</body>
</html>".

Definition options_head : string :=
    "
<!DOCTYPE html>
<html>
<head>
    <title>NoteMaster Export</title>
    <meta charset=" +:+ DQ +:+ "UTF-8" +:+ DQ +:+ ">
    <style>
        body { 
            font-family: -apple-system, BlinkMacSystemFont, 'Segoe UI', Roboto, sans-serif;
            max-width: 800px; 
            margin: 0 auto; 
            padding: 20px;
            line-height: 1.6;
            color: #333;
        }
        .header {
            text-align: center;
            margin-bottom: 40px;
            padding-bottom: 20px;
            border-bottom: 2px solid #eee;
        }
        .note { 
            margin-bottom: 40px; 
            border-bottom: 1px solid #eee; 
            padding-bottom: 20px; 
        }
        .note-title { 
            font-size: 24px; 
            font-weight: bold; 
            margin-bottom: 10px;
            color: #2563eb;
        }
        .note-meta { 
            color: #666; 
            font-size: 14px; 
            margin-bottom: 15px;
        }
        .note-content { 
            line-height: 1.6;
            margin-top: 15px;
        }
        .export-info {
            color: #666;
            font-size: 14px;
        }
        @media (max-width: 600px) {
            body { padding: 15px; }
            .note-title { font-size: 20px; }
        }
    </style>
</head>
<body>
    <div class=" +:+ DQ +:+ "header" +:+ DQ +:+ ">
        <h1>NoteMaster Export</h1>
        <p class=" +:+ DQ +:+ "export-info" +:+ DQ +:+ ">Exported on ".

Definition options_after_date : string :=
    " | ".

Definition options_after_count : string :=
    " notes</p>
    </div>
    ".

Definition options_note_open : string :=
    "
        <div class=" +:+ DQ +:+ "note" +:+ DQ +:+ ">
            <div class=" +:+ DQ +:+ "note-title" +:+ DQ +:+ ">".

Definition options_note_after_title : string :=
    "</div>
            <div class=" +:+ DQ +:+ "note-meta" +:+ DQ +:+ ">Modified: ".

Definition options_note_after_date : string :=
    "</div>
            <div class=" +:+ DQ +:+ "note-content" +:+ DQ +:+ ">".

Definition options_note_close : string :=
    "</div>
        </div>
    ".

Definition options_tail : string :=
    "
</body>
</html>".


Definition welcome : string :=
    "
        <h2>Welcome to NoteMaster!</h2>
        <p>Thank you for installing NoteMaster, your comprehensive note-taking companion.</p>
        
        <h3>Getting Started:</h3>
        <ul>
          <li><strong>Create Notes:</strong> Click the " +:+ DQ +:+ "New Note" +:+ DQ +:+ " button to start writing</li>
          <li><strong>Rich Formatting:</strong> Use the toolbar for bold, italic, and lists</li>
          <li><strong>Organization:</strong> Add tags and categories to organize your notes</li>
          <li><strong>Search:</strong> Quickly find notes using the search bar</li>
        </ul>
        
        <h3>Keyboard Shortcuts:</h3>
        <ul>
          <li><strong>Ctrl+Shift+N:</strong> Open quick note</li>
          <li><strong>Ctrl+Shift+F:</strong> Search notes</li>
          <li><strong>Ctrl+S:</strong> Save current note</li>
          <li><strong>Ctrl+B/I/U:</strong> Bold/Italic/Underline text</li>
        </ul>
        
        <h3>Features:</h3>
        <ul>
          <li>Rich text formatting with toolbar</li>
          <li>Note categorization and tagging</li>
          <li>Advanced search and filtering</li>
          <li>Import/Export in multiple formats</li>
          <li>Customizable themes and appearance</li>
          <li>Cloud synchronization (coming soon)</li>
        </ul>
        
        <p><em>Right-click on any webpage to save selected text or page information directly to NoteMaster!</em></p>
        
        <p>Visit the settings page to customize your experience and explore all available options.</p>
      ".

End Template.

(** [downloadFile(content, filename)] *)
Definition downloadFile (content filename : string) : M unit :=
  emit (Download content filename).

(** ** The exports of the popup *)

Section PopupExport.

(** What the host computes from a date, and the text the DOM reads out of
    a piece of markup. *)
Context (toISOString : timestamp -> string)
        (toLocaleDateString : timestamp -> string)
        (stripHtml : string -> string).

(** The note object as a JSON value: its own properties in the order the
    scripts write them. *)
Definition note_value (n : Note) : JSON.value :=
  JSON.Obj
    ([("id", JSON.Str (id n)); ("title", JSON.Str (title n));
      ("content", JSON.Str (content n))]
     ++ match tags n with
        | Some ts => [("tags", JSON.Arr (JSON.Str <$> ts))]
        | None => []
        end
     ++ match category n with
        | Some c => [("category", JSON.Str c)]
        | None => []
        end
     ++ [("created", JSON.Str (toISOString (created n)));
         ("modified", JSON.Str (toISOString (modified n)))]).

Definition notes_value (ns : list Note) : JSON.value :=
  JSON.Arr (note_value <$> ns).

Definition formatDate (date : timestamp) : M string :=
  now ← new_Date;
  let diffTime := Z.abs (now - date) in
  (* Math.ceil(diffTime / (1000 * 60 * 60 * 24)) *)
  let diffDays := (diffTime + 86399999) / 86400000 in
  mret (if diffDays =? 1 then "Today"
        else if diffDays =? 2 then "Yesterday"
        else if diffDays <=? 7 then pretty (diffDays - 1) +:+ " days ago"
        else toLocaleDateString date).

Definition exportAllNotes : M unit :=
  fmt ← gets settings_exportFormat;
  let format := or_else (default EmptyString fmt) "json" in
  today ← new_Date;
  let filename := "notes_" +:+ split_head "T" (toISOString today) in
  ns ← gets notes;
  file ←
    (if String.eqb format "json" then
       mret (JSON.stringify (notes_value ns), filename +:+ ".json")
     else if String.eqb format "txt" then
       mret (join (map (fun note =>
                     "Title: " +:+ title note +:+ LF
                     +:+ "Date: " +:+ toISOString (modified note)
                     +:+ LF +:+ LF +:+ stripHtml (content note)
                     +:+ LF +:+ LF +:+ JsString.repeat "=" 50
                     +:+ LF +:+ LF) ns),
             filename +:+ ".txt")
     else if String.eqb format "md" then
       parts ← mapM (fun note =>
                  shown ← formatDate (modified note);
                  mret ("# " +:+ title note +:+ LF +:+ LF
                        +:+ "*Modified: " +:+ shown +:+ "*" +:+ LF +:+ LF
                        +:+ htmlToMarkdown (content note)
                        +:+ LF +:+ LF +:+ "---" +:+ LF +:+ LF)) ns;
       mret (join parts, filename +:+ ".md")
     else if String.eqb format "html" then
       exported ← new_Date;
       parts ← mapM (fun note =>
                  shown ← formatDate (modified note);
                  mret (Template.popup_note_open
                        +:+ escapeHtml (title note)
                        +:+ Template.popup_note_after_title +:+ shown
                        +:+ Template.popup_note_after_date
                        +:+ content note
                        +:+ Template.popup_note_close)) ns;
       mret (Template.popup_head +:+ toLocaleDateString exported
             +:+ Template.popup_after_date +:+ join parts
             +:+ Template.popup_tail,
             filename +:+ ".html")
     else mret (EmptyString, filename));
  downloadFile (fst file) (snd file) ;;
  showSaveStatus "All notes exported!" "success".

End PopupExport.

(** ** Sorting the list, and downloading one note *)

Section PopupSort.

(** [a.localeCompare(b)]: negative, zero or positive, as the locale of the
    host orders the two strings. *)
Context (localeCompare : string -> string -> Z).

(** [(a, b) => new Date(b.created) - new Date(a.created)] *)
Definition by_created_desc (a b : Note) : Z := created b - created a.

(** [(a, b) => a.title.localeCompare(b.title)] *)
Definition by_title (a b : Note) : Z := localeCompare (title a) (title b).

(** [sortNotes(sortBy)]: a copy of the collection is sorted and rendered. *)
Definition sortNotes (sortBy : string) : M unit :=
  ns ← gets notes;
  let sortedNotes :=
    if String.eqb sortBy "created" then sort by_created_desc ns
    else if String.eqb sortBy "title" then sort by_title ns
    else sort by_modified_desc ns in
  renderNotes (Some sortedNotes).

End PopupSort.

Section PopupDownload.

Context (toLocaleDateString : timestamp -> string)
        (stripHtml : string -> string).

(** [downloadNote(noteId)] *)
Definition downloadNote (noteId : string) : M unit :=
  ns ← gets notes;
  match List.find (fun n => String.eqb (id n) noteId) ns with
  | None => mret tt
  | Some note =>
      created_shown ← formatDate toLocaleDateString (created note);
      modified_shown ← formatDate toLocaleDateString (modified note);
      let content' :=
        title note +:+ LF +:+ LF +:+ "Created: " +:+ created_shown +:+ LF
        +:+ "Modified: " +:+ modified_shown +:+ LF +:+ LF
        +:+ stripHtml (content note) in
      let filename := or_else (title note) "Untitled Note" +:+ ".txt" in
      downloadFile content' filename ;;
      showSaveStatus "Note downloaded!" "success"
  end.

End PopupDownload.

(** ** [options.js]: the OptionsManager class *)

Module Options.
Section Host.

Context (toISOString : timestamp -> string)
        (toLocaleDateString : timestamp -> string)
        (stripHtml : string -> string).

Definition formatDate (date : timestamp) : string :=
  toLocaleDateString date.

Definition generateHtmlExport (ns : list Note) : M string :=
  exported ← new_Date;
  mret (Template.options_head +:+ toLocaleDateString exported
        +:+ Template.options_after_date +:+ pretty (length ns)
        +:+ Template.options_after_count
        +:+ join (map (fun note =>
                    Template.options_note_open
                    +:+ escapeHtml (or_else (title note) "Untitled Note")
                    +:+ Template.options_note_after_title
                    +:+ formatDate (modified note)
                    +:+ Template.options_note_after_date
                    +:+ or_else (content note) "<em>No content</em>"
                    +:+ Template.options_note_close) ns)
        +:+ Template.options_tail).

(** [exportAllNotes()], [settings_exportFormat] being
    [this.settings.exportFormat] of the options page. *)
Definition exportAllNotes (settings_exportFormat : option string) : M unit :=
  try_catch
    (result_notes ← storage_local_get;
     let ns := default [] result_notes in
     if (length ns =? 0)%nat then
       showSaveStatus "No notes to export" "error"
     else
       let format := default EmptyString settings_exportFormat in
       today ← new_Date;
       let filename :=
         "notemaster_export_" +:+ split_head "T" (toISOString today) in
       file ←
         (if String.eqb format "json" then
            mret (JSON.stringify (notes_value toISOString ns),
                  filename +:+ ".json")
          else if String.eqb format "txt" then
            mret (join (map (fun note =>
                          "Title: " +:+ title note +:+ LF
                          +:+ "Date: " +:+ toISOString (modified note)
                          +:+ LF +:+ LF +:+ stripHtml (content note)
                          +:+ LF +:+ LF +:+ JsString.repeat "=" 50
                          +:+ LF +:+ LF) ns),
                  filename +:+ ".txt")
          else if String.eqb format "md" then
            mret (join (map (fun note =>
                          "# " +:+ title note +:+ LF +:+ LF
                          +:+ "*Modified: " +:+ formatDate (modified note)
                          +:+ "*" +:+ LF +:+ LF
                          +:+ htmlToMarkdown (content note)
                          +:+ LF +:+ LF +:+ "---" +:+ LF +:+ LF) ns),
                  filename +:+ ".md")
          else if String.eqb format "html" then
            page ← generateHtmlExport ns;
            mret (page, filename +:+ ".html")
          else mret (EmptyString, filename));
       downloadFile (fst file) (snd file) ;;
       showSaveStatus
         ("Exported " +:+ pretty (length ns) +:+ " notes successfully!")
         "success")
    (fun error =>
       console_error "Export error:" ;;
       showSaveStatus "Error exporting notes" "error").

(** [clearAllNotes()]: [typed] is what the user entered at the prompt,
    [None] when the prompt was cancelled. *)
Definition clearAllNotes (typed : option string) : M unit :=
  match typed with
  | Some "DELETE" =>
      try_catch
        (storage_local_set [] ;;
         showSaveStatus "All notes have been deleted" "success")
        (fun error =>
           console_error "Error clearing notes:" ;;
           showSaveStatus "Error clearing notes" "error")
  | _ => mret tt
  end.

End Host.
End Options.

(** ** [background.js]: the BackgroundManager class *)

Module Background.

Record Tab := mkTab { tab_title : string; tab_url : string }.

(** [escapeHtml] of the background script needs [document]. *)
Definition escapeHtml (text : string) : M string :=
  fun w => if has_document w then (Ok (escapeHtml text), w)
           else (Throw "ReferenceError: document is not defined", w).

Definition showNotification (message : string) : M unit :=
  emit (Notification message).

Definition saveNote (note : Note) : M unit :=
  try_catch
    (result_notes ← storage_local_get;
     let ns := default [] result_notes in
     storage_local_set (note :: ns))
    (fun error => console_error "Error saving note:").

Section Host.

Context (toLocaleString : timestamp -> string).

(** [saveSelectedText(info, tab)], [selectionText] being
    [info.selectionText]. *)
Definition saveSelectedText (selectionText : option string) (tab : Tab)
  : M unit :=
  let selectedText := default EmptyString selectionText in
  if falsy selectedText then mret tt
  else
    new_id ← generateId;
    escaped ← escapeHtml selectedText;
    c ← new_Date;
    m ← new_Date;
    let note :=
      mkNote new_id ("Selection from " +:+ tab_title tab)
        ("<p>" +:+ escaped +:+ "</p><br><p><em>Source: <a href=" +:+ DQ
         +:+ tab_url tab +:+ DQ +:+ ">" +:+ tab_title tab
         +:+ "</a></em></p>")
        (Some ["web-clip"]) (Some "web") c m in
    saveNote note ;;
    showNotification "Text saved to NoteMaster!".

Definition savePageInfo (tab : Tab) : M unit :=
  new_id ← generateId;
  saved ← new_Date;
  c ← new_Date;
  m ← new_Date;
  let note :=
    mkNote new_id (tab_title tab)
      ("<p><strong>URL:</strong> <a href=" +:+ DQ +:+ tab_url tab +:+ DQ
       +:+ ">" +:+ tab_url tab +:+ "</a></p><p><strong>Saved:</strong> "
       +:+ toLocaleString saved +:+ "</p>")
      (Some ["bookmark"; "web-clip"]) (Some "web") c m in
  saveNote note ;;
  showNotification "Page saved to NoteMaster!".

Definition handleContextMenuClick (menuItemId : string)
    (selectionText : option string) (tab : Tab) : M unit :=
  try_catch
    (if String.eqb menuItemId "saveSelectedText"
     then saveSelectedText selectionText tab
     else if String.eqb menuItemId "savePageInfo"
     then savePageInfo tab
     else mret tt)
    (fun error => console_error "Context menu error:").

(** [handleFirstInstall()]: the default settings are stored, then the
    welcome note. *)
Definition defaultSettings : Settings :=
  mkSettings "light" 14 "system" true "json" (Some "weekly").

Definition handleFirstInstall : M unit :=
  (* Set default settings *)
  storage_sync_set defaultSettings ;;
  (* Create welcome note *)
  new_id ← generateId;
  c ← new_Date;
  m ← new_Date;
  let welcomeNote :=
    mkNote new_id "Welcome to NoteMaster!" Template.welcome
      (Some ["welcome"; "guide"]) (Some "system") c m in
  saveNote welcomeNote ;;
  (* Show welcome notification *)
  showNotification
    "Welcome to NoteMaster! Check out your first note to get started.".

(** [handleUpdate(previousVersion)] *)
Definition handleUpdate (previousVersion : string) : M unit :=
  console_log ("Updated from version " +:+ previousVersion) ;;
  showNotification "NoteMaster has been updated with new features!".

(** The listener [setupInstallHandler] hangs on [chrome.runtime.onInstalled],
    [reason] and [previousVersion] being those of its [details]. *)
Definition onInstalled (reason previousVersion : string) : M unit :=
  if String.eqb reason "install" then handleFirstInstall
  else if String.eqb reason "update" then handleUpdate previousVersion
  else mret tt.

End Host.
End Background.

(** ** The life of the extension

    What can happen, one event at a time: the browser installs or updates
    the extension, the user opens the popup, works in it, or uses a context
    menu on a page, and the backends or the environment of the background
    script change between events.  The events of the popup are those its
    listeners are set up for, but for copying a note, which touches the
    clipboard only; what the formatting toolbar does to the editor is an
    edit. *)

Inductive Action :=
| Installed (reason previousVersion : string) (* chrome.runtime.onInstalled *)
| PopupOpens                                  (* new NoteMaster() *)
| NewNoteClicked
| NoteClicked (noteId : string)
| UserEdits (title_value editor_html : string)
| SaveClicked (answers : list bool)
| AutoSaveFires (answers : list bool)
| CloseClicked (answers : list bool)
| DeleteClicked (noteId : string) (answers : list bool)
| DownloadClicked (noteId : string)
| SearchTyped (query : string)
| SortChanged (sortBy : string)
| ExportClicked
| ContextMenuClicked (menuItemId : string) (selectionText : option string)
                     (tab : Background.Tab)
| BackendBecomes (get_fails' set_fails' : bool)
| SyncBackendBecomes (sync_get_fails' sync_set_fails' : bool)
| DocumentBecomes (has_document' : bool).

Definition with_backend (g s : bool) (w : World) : World :=
  mkWorld (notes w) (currentNote w) (isEditing w) (settings w) (noteTitle w)
    (noteEditor w) (has_notesList w) (has_emptyState w) (has_noteModal w)
    (value_of w) (innerHTML_of w) (local_notes w) g s (sync_settings w)
    (sync_get_fails w) (sync_set_fails w) (clock w) (ticks w) (random36 w)
    (draws w) (confirms w) (has_document w) (out w).

Definition with_sync_backend (g s : bool) (w : World) : World :=
  mkWorld (notes w) (currentNote w) (isEditing w) (settings w) (noteTitle w)
    (noteEditor w) (has_notesList w) (has_emptyState w) (has_noteModal w)
    (value_of w) (innerHTML_of w) (local_notes w) (get_fails w) (set_fails w)
    (sync_settings w) g s (clock w) (ticks w) (random36 w) (draws w)
    (confirms w) (has_document w) (out w).

Definition with_document (d : bool) (w : World) : World :=
  mkWorld (notes w) (currentNote w) (isEditing w) (settings w) (noteTitle w)
    (noteEditor w) (has_notesList w) (has_emptyState w) (has_noteModal w)
    (value_of w) (innerHTML_of w) (local_notes w) (get_fails w) (set_fails w)
    (sync_settings w) (sync_get_fails w) (sync_set_fails w) (clock w) (ticks
    w) (random36 w) (draws w) (confirms w) d (out w).

(** What the auto-save timer runs when it fires. *)
Definition autoSave_fires : M unit :=
  editing ← gets isEditing;
  cur ← gets currentNote;
  if editing && bool_decide (is_Some cur) then saveCurrentNote false
  else mret tt.

Section Run.

Context (toISOString toLocaleDateString toLocaleString : timestamp -> string)
        (stripHtml : string -> string)
        (localeCompare : string -> string -> Z).

Definition handler (a : Action) : M unit :=
  match a with
  | Installed reason previousVersion =>
      Background.onInstalled reason previousVersion
  | PopupOpens => new_NoteMaster
  | NewNoteClicked =>
      console_log "New note button clicked" ;;
      createNewNote
  | NoteClicked noteId =>
      ns ← gets notes;
      match List.find (fun n => String.eqb (id n) noteId) ns with
      | Some note => openNoteModal note
      | None => mret tt
      end
  | UserEdits title_value editor_html =>
      modify (fun w => with_noteTitle (_ ← noteTitle w; Some title_value) w) ;;
      modify (fun w => with_noteEditor (_ ← noteEditor w; Some editor_html) w)
  | SaveClicked answers =>
      modify (with_confirms answers) ;; saveCurrentNote true
  | AutoSaveFires answers =>
      (* the timer is set up only if (this.settings.autoSave) *)
      st ← gets settings;
      if default false (autoSave <$> st)
      then modify (with_confirms answers) ;; autoSave_fires
      else mret tt
  | CloseClicked answers =>
      modify (with_confirms answers) ;; closeNoteModal
  | DeleteClicked noteId answers =>
      modify (with_confirms answers) ;; deleteNote noteId
  | DownloadClicked noteId =>
      downloadNote toLocaleDateString stripHtml noteId
  | SearchTyped query => searchNotes query
  | SortChanged sortBy => sortNotes localeCompare sortBy
  | ExportClicked =>
      exportAllNotes toISOString toLocaleDateString stripHtml
  | ContextMenuClicked menuItemId selectionText tab =>
      Background.handleContextMenuClick toLocaleString
        menuItemId selectionText tab
  | BackendBecomes g s => modify (with_backend g s)
  | SyncBackendBecomes g s => modify (with_sync_backend g s)
  | DocumentBecomes d => modify (with_document d)
  end.

(** An event handler that throws leaves the world as it is at that point. *)
Definition perform (w : World) (a : Action) : World := snd (handler a w).

Definition run (actions : list Action) (w : World) : World :=
  foldl perform w actions.

End Run.


(** Nothing yet: no note is in a popup or in the store.  This is how the
    browser finds things when it installs the extension. *)
Definition nothing_yet (w : World) : Prop :=
  notes w = [] /\ currentNote w = None /\ local_notes w = None.

(** The browser before the extension is installed, with a page of the popup
    that has every element the script looks up and fields that give back
    what is assigned to them. *)
Definition before_install (clock : nat -> timestamp)
    (random36 : nat -> string) : World :=
  mkWorld [] None false None (Some EmptyString) (Some EmptyString)
    true true true (fun t => t) (fun m => m)
    None false false None false false clock 0 random36 0 [] true [].

(** Every note the popup holds or the backend stores. *)
Definition all_notes (w : World) : list Note :=
  notes w ++ option_list (currentNote w) ++ default [] (local_notes w).

(** The clock never runs backwards. *)
Definition clock_monotone (clock : nat -> timestamp) : Prop :=
  forall i j : nat, (i <= j)%nat -> clock i <= clock j.

(** ** Specification-side notions *)

(** Most recently modified first. *)
Definition newer_first (a b : Note) : Prop := modified b <= modified a.

(** The note a save leaves: the current note with the trimmed fields of the
    modal and the time of the save. *)
Definition saved_note (note : Note) (title_value editor_html : string)
    (now : timestamp) : Note :=
  mkNote (id note) (or_else (trim title_value) "Untitled Note")
    (trim editor_html) (tags note) (category note) (created note) now.

(** Insert at the front, or replace the first note of the same id. *)
Definition upsert (n : Note) (ns : list Note) : list Note :=
  match findIndex_id (id n) ns with
  | None => n :: ns
  | Some i => <[i := n]> ns
  end.

(** What [hasUnsavedChanges] answers in a world. *)
Definition unsaved_changes (w : World) : bool :=
  match currentNote w, noteTitle w, noteEditor w with
  | Some note, Some title_value, Some content_value =>
      negb (String.eqb title_value (or_else (title note) EmptyString))
      || negb (String.eqb content_value (or_else (content note) EmptyString))
  | _, _, _ => false
  end.

(** The world [saveNotes] leaves: the collection stored and the fact logged,
    or the failure logged. *)
Definition after_write (w : World) : World :=
  if set_fails w
  then with_out (out w ++ [ConsoleError "Error saving notes:"]) w
  else with_out (out w ++ [ConsoleLog "Notes saved locally"])
         (with_local_notes (Some (notes w)) w).

(** The world [renderNotes] leaves when it is handed the notes [shown]:
    where the page has the list and the empty state, the notes are shown
    and the clock has been read once for each of them; elsewhere nothing
    has happened. *)
Definition rendered (shown : list Note) (w : World) : World :=
  if has_notesList w && has_emptyState w
  then with_out (out w ++ [Render shown])
         (with_ticks (ticks w + length shown) w)
  else w.

(** The world a save leaves that went through: the saved note is the
    current one and is in the collection, the collection has been handed to
    the backend and shown. *)
Definition saved_world (w : World) (note : Note)
    (title_value editor_html : string) : World :=
  let saved := saved_note note title_value editor_html (clock w (ticks w)) in
  let w1 := with_notes (upsert saved (notes w))
              (with_currentNote (Some saved) (with_ticks (S (ticks w)) w)) in
  let w2 := after_write w1 in
  rendered (notes w2) w2.

(** The same after the user has been told, before the modal is closed. *)
Definition after_save (w : World) (note : Note)
    (title_value editor_html : string) : World :=
  let w3 := saved_world w note title_value editor_html in
  with_out (out w3 ++ [SaveStatus "Note saved successfully!" "success"]) w3.

(** The modal closed: nothing is being edited any more. *)
Definition modal_closed (w : World) : World :=
  with_currentNote None (with_isEditing false w).

(** Both timestamps of [n] are readings of the clock taken before its
    [t]-th reading, that of [created] no later than that of [modified]. *)
Definition stamped (clk : nat -> timestamp) (t : nat) (n : Note) : Prop :=
  exists i j : nat,
    (i <= j < t)%nat /\ created n = clk i /\ modified n = clk j.

(** The invariant of the extension under the clock [clk]. *)
Definition timestamps_invariant (clk : nat -> timestamp) (w : World) : Prop :=
  clock w = clk /\
  forall n, In n (all_notes w) -> stamped clk (ticks w) n.

(** A computation keeps the invariant. *)
Definition keeps {A : Type} (clk : nat -> timestamp) (m : M A) : Prop :=
  forall w, timestamps_invariant clk w -> timestamps_invariant clk (snd (m w)).

(** Whether the code unit [c] occurs in [s]. *)
Fixpoint has_char (c : ascii) (s : string) : bool :=
  match s with
  | EmptyString => false
  | String a s' => Ascii.eqb a c || has_char c s'
  end.

(** Whether [s] holds an opening angle bracket with a closing one somewhere
    behind it: a tag, as the last substitution of [htmlToMarkdown] reads
    it. *)
Fixpoint tagged (s : string) : bool :=
  match s with
  | EmptyString => false
  | String c s' => (Ascii.eqb c "<" && has_char ">" s') || tagged s'
  end.

(** No tag is left in [s]. *)
Definition tag_free (s : string) : Prop :=
  forall pre tag post, s <> pre +:+ "<" +:+ tag +:+ ">" +:+ post.

(** ** Sample worlds, for the worked examples *)

Definition sample_clock (k : nat) : timestamp := 1762074120000 + Z.of_nat k.
Definition sample_random (k : nat) : string := "k3j9x".

(** A clock that is set back by a millisecond at every reading. *)
Definition backwards_clock (k : nat) : timestamp := 1762074120000 - Z.of_nat k.

(** The settings of a user who chose the export format [format]. *)
Definition settings_with (format : string) : Settings :=
  mkSettings "light" 14 "system" true format None.

Definition groceries : Note :=
  mkNote "n1" "Groceries" "<p>milk</p>" None None
    1762070000000 1762070000000.

Definition clipping : Note :=
  mkNote "n2" "Selection from Wiki" "<p>Hello <strong>world</strong></p>"
    (Some ["web-clip"]) (Some "web") 1762060000000 1762071000000.

(** The popup, loaded with two notes, one of them open in the modal. *)
Definition editing_world (title_value editor_html : string) : World :=
  mkWorld [groceries; clipping] (Some groceries) true (Some default_settings)
    (Some title_value) (Some editor_html)
    true true true (fun t => t) (fun m => m)
    (Some [groceries; clipping]) false false None false false
    sample_clock 7 sample_random 2 [] true [].

(** A new note in the modal, typed but not yet saved, over a backend that
    rejects writes. *)
Definition draft : Note :=
  mkNote "n3" EmptyString EmptyString None None 1762074120005 1762074120006.

Definition failing_write_world : World :=
  mkWorld [groceries] (Some draft) true (Some default_settings)
    (Some "Ideas") (Some "<p>write more</p>")
    true true true (fun t => t) (fun m => m)
    (Some [groceries]) false true None false false
    sample_clock 7 sample_random 3 [] true [].

(** The popup holding the clipping alone, set to export Markdown. *)
Definition markdown_world : World :=
  mkWorld [clipping] None false (Some (settings_with "md"))
    (Some EmptyString) (Some EmptyString)
    true true true (fun t => t) (fun m => m)
    (Some [clipping]) false false (Some (settings_with "md")) false false
    sample_clock 7 sample_random 2 [] true [].

(** Nothing stored and nothing loaded; the export format is [format]. *)
Definition empty_world (format : option string) : World :=
  mkWorld [] None false (settings_with <$> format)
    (Some EmptyString) (Some EmptyString)
    true true true (fun t => t) (fun m => m)
    (Some []) false false (settings_with <$> format) false false
    sample_clock 7 sample_random 2 [] true [].

(** The fuel [JSON.parse_value] needs for a value. *)
Fixpoint json_size (v : JSON.value) : nat :=
  match v with
  | JSON.Arr items => S (list_sum (map (fun x => S (json_size x)) items))
  | JSON.Obj members =>
      S (list_sum (map (fun m => S (json_size (snd m))) members))
  | _ => 1
  end.

(** The text of a value starts with the character that tells its kind. *)
Definition opens_value (c : ascii) : Prop :=
  c = "034"%char \/ c = "["%char \/ c = "{"%char \/
  c = "n"%char \/ c = "t"%char \/ c = "f"%char.

(** What follows the opening bracket of a non-empty array. *)
Definition elements_text (depth : nat) (items : list JSON.value)
    (rest : string) : string :=
  JSON.newline (S depth)
  +:+ JSON.join_with ("," +:+ JSON.newline (S depth))
        (map (JSON.stringify_at (S depth)) items)
  +:+ JSON.newline depth +:+ "]" +:+ rest.

Definition member_text (depth : nat) (m : string * JSON.value) : string :=
  JSON.quote (fst m) +:+ ": " +:+ JSON.stringify_at (S depth) (snd m).

(** What follows the opening brace of a non-empty object. *)
Definition members_text (depth : nat) (members : list (string * JSON.value))
    (rest : string) : string :=
  JSON.newline (S depth)
  +:+ JSON.join_with ("," +:+ JSON.newline (S depth))
        (map (member_text depth) members)
  +:+ JSON.newline depth +:+ "}" +:+ rest.

(** Reading what was written for a value, with fuel to spare. *)
Definition reads_back (v : JSON.value) : Prop :=
  forall (depth fuel : nat) (rest : string),
    (json_size v <= fuel)%nat ->
    JSON.parse_value fuel (JSON.stringify_at depth v +:+ rest) = Some (v, rest).


(** ** More of [popup.js] *)


(** One day, in milliseconds: [1000 * 60 * 60 * 24]. *)
Definition day_ms : Z := 86400000.

(** More sample worlds. *)

(** A new note typed into the modal, over a working backend. *)
Definition drafting_world (title_value editor_html : string)
    (answers : list bool) : World :=
  mkWorld [groceries; clipping] (Some draft) true (Some default_settings)
    (Some title_value) (Some editor_html)
    true true true (fun t => t) (fun m => m)
    (Some [groceries; clipping]) false false None false false
    sample_clock 7 sample_random 3 answers true [].


(** How often the user was told that a note was saved. *)
Definition is_save_told (e : Event) : bool :=
  match e with
  | SaveStatus msg _ => String.eqb msg "Note saved successfully!"
  | _ => false
  end.

Definition saves_told (events : list Event) : nat :=
  length (List.filter is_save_told events).

(** Whether the fields of the modal differ from what a save makes of
    them. *)
Definition fields_differ (title_value editor_html : string) : bool :=
  negb (String.eqb title_value (or_else (trim title_value) "Untitled Note"))
  || negb (String.eqb editor_html (trim editor_html)).

(** The modal and the note being edited go together: a note is current
    exactly while the popup is editing. *)
Definition modal_consistent (w : World) : Prop :=
  isEditing w = true <-> is_Some (currentNote w).

(** A computation leaves the modal alone: it changes neither whether the
    popup is editing nor which note is the current one. *)
Definition spares_modal {A : Type} (m : M A) : Prop :=
  forall w, isEditing (snd (m w)) = isEditing w /\
            currentNote (snd (m w)) = currentNote w.

(** * Properties *)

(** ** Strings *)

Module JsStringFacts.

Lemma is_empty_true s : is_empty s = true <-> s = EmptyString.
Proof. destruct s; simpl; split; congruence. Qed.

Lemma lower_char_white_space c :
  is_white_space (lower_char c) = is_white_space c.
Proof.
  destruct c as [[] [] [] [] [] [] [] []]; reflexivity.
Qed.

Lemma all_white_space_toLowerCase s :
  all_white_space (toLowerCase s) <-> all_white_space s.
Proof.
  induction s as [|c s IH]; simpl; [tauto|].
  rewrite lower_char_white_space, IH. tauto.
Qed.

Lemma trimStart_empty s :
  trimStart s = EmptyString <-> all_white_space s.
Proof.
  induction s as [|c s IH]; simpl; [tauto|].
  destruct (is_white_space c); [rewrite IH; tauto|].
  split; [discriminate|intros [? _]; discriminate].
Qed.

Lemma trimStart_head s c r :
  trimStart s = String c r -> is_white_space c = false.
Proof.
  induction s as [|a s IH]; simpl; [discriminate|].
  destruct (is_white_space a) eqn:E; [exact IH|].
  intros [= <- _]. exact E.
Qed.

(** A string trims to nothing exactly when it is white space only. *)
Lemma trim_empty s : trim s = EmptyString <-> all_white_space s.
Proof.
  rewrite <- trimStart_empty. unfold trim.
  destruct (trimStart s) as [|c r] eqn:E; simpl; [tauto|].
  rewrite (trimStart_head _ _ _ E). simpl.
  split; discriminate.
Qed.

Lemma strip_prefix_Some p s r :
  strip_prefix p s = Some r <-> s = p +:+ r.
Proof.
  revert s. induction p as [|a p IH]; intros s; simpl.
  - split; [intros [= ->]; reflexivity|intros ->; reflexivity].
  - destruct s as [|b s]; [split; discriminate|].
    destruct (Ascii.eqb_spec a b) as [->|Hne].
    + rewrite IH. split; [intros ->; reflexivity|intros [= ->]; reflexivity].
    + split; [discriminate|intros [= ? _]; congruence].
Qed.

Lemma startsWith_true s p :
  startsWith s p = true <-> exists r, s = p +:+ r.
Proof.
  unfold startsWith. destruct (strip_prefix p s) as [r|] eqn:E.
  - apply strip_prefix_Some in E. split; eauto.
  - split; [discriminate|]. intros [r Hr].
    apply strip_prefix_Some in Hr. congruence.
Qed.

(** [includes] decides the occurrence of [t] somewhere in [s]. *)
Lemma includes_true s t : includes s t = true <-> substring_of t s.
Proof.
  unfold substring_of. induction s as [|c s IH]; simpl.
  - rewrite orb_false_r, startsWith_true. split.
    + intros [r Hr]. exists EmptyString, r. exact Hr.
    + intros ([|a pre] & post & H); [eauto|discriminate].
  - rewrite orb_true_iff, startsWith_true, IH. split.
    + intros [[r Hr]|(pre & post & ->)].
      * exists EmptyString, r. exact Hr.
      * exists (String c pre), post. reflexivity.
    + intros ([|a pre] & post & H).
      * left. eauto.
      * right. injection H as _ ->. eauto.
Qed.

Example trim_spaces_and_line_feed :
  trim ("  Groceries " +:+ String "010" EmptyString) = "Groceries".
Proof. reflexivity. Qed.

Example trim_no_break_space : trim (String "160" " ") = EmptyString.
Proof. reflexivity. Qed.

Example toLowerCase_latin1 :
  toLowerCase ("HeLLo " +:+ String "201" EmptyString)
  = "hello " +:+ String "233" EmptyString.
Proof. reflexivity. Qed.

Example includes_middle : includes "<p>milk</p>" "milk" = true.
Proof. reflexivity. Qed.

End JsStringFacts.

Import JsStringFacts.

(** ** Running the scripts *)

Ltac unfold_M :=
  unfold mbind, M_bind, mret, M_ret, bind, ret, gets, modify, emit, throw,
    try_catch, alert, console_log, console_error, showSaveStatus,
    downloadFile, confirm, new_Date, storage_local_get, storage_local_set,
    storage_sync_get, storage_sync_set
    in *.

(** [saveNotes] hands the collection to the backend and never throws. *)
Lemma saveNotes_run (w : World) : saveNotes w = (Ok tt, after_write w).
Proof.
  unfold saveNotes, after_write. unfold_M. destruct (set_fails w); reflexivity.
Qed.

Ltac after_write_field :=
  intros w; destruct w; unfold after_write; simpl;
  match goal with |- context [if ?b then _ else _] => destruct b end;
  reflexivity.

Lemma after_write_notes :
  forall w, notes (after_write w) = notes w.
Proof. after_write_field. Qed.
Lemma after_write_currentNote :
  forall w,
  currentNote (after_write w) = currentNote w.
Proof. after_write_field. Qed.
Lemma after_write_isEditing :
  forall w, isEditing (after_write w) = isEditing w.
Proof. after_write_field. Qed.
Lemma after_write_noteTitle :
  forall w, noteTitle (after_write w) = noteTitle w.
Proof. after_write_field. Qed.
Lemma after_write_noteEditor :
  forall w, noteEditor (after_write w) = noteEditor w.
Proof. after_write_field. Qed.
Lemma after_write_get_fails :
  forall w, get_fails (after_write w) = get_fails w.
Proof. after_write_field. Qed.
Lemma after_write_set_fails :
  forall w, set_fails (after_write w) = set_fails w.
Proof. after_write_field. Qed.
Lemma after_write_clock :
  forall w, clock (after_write w) = clock w.
Proof. after_write_field. Qed.
Lemma after_write_ticks :
  forall w, ticks (after_write w) = ticks w.
Proof. after_write_field. Qed.
Lemma after_write_confirms :
  forall w, confirms (after_write w) = confirms w.
Proof. after_write_field. Qed.
Lemma after_write_local_notes :
  forall w,
  local_notes (after_write w) =
    if set_fails w then local_notes w else Some (notes w).
Proof. after_write_field. Qed.

Lemma after_write_has_notesList :
  forall w, has_notesList (after_write w) = has_notesList w.
Proof. after_write_field. Qed.
Lemma after_write_has_emptyState :
  forall w, has_emptyState (after_write w) = has_emptyState w.
Proof. after_write_field. Qed.

Create Rewrite HintDb world.
#[global] Hint Rewrite after_write_notes after_write_currentNote
  after_write_isEditing after_write_noteTitle after_write_noteEditor
  after_write_get_fails after_write_set_fails after_write_clock
  after_write_ticks after_write_confirms after_write_has_notesList
  after_write_has_emptyState : world.

(** ** Rendering *)

Lemma with_ticks_same (w : World) : with_ticks (ticks w) w = w.
Proof. now destruct w. Qed.

(** A map over calls that only read the clock reads it once per element. *)
Lemma mapM_clock_only {A B} (f : A -> M B) (g : A -> B) (l : list A) :
  (forall x w, f x w = (Ok (g x), with_ticks (S (ticks w)) w)) ->
  forall w,
    mapM f l w = (Ok (map g l), with_ticks (ticks w + length l) w).
Proof.
  intros Hf. induction l as [|x l IH]; intros w.
  - simpl. unfold_M. now rewrite Nat.add_0_r, with_ticks_same.
  - simpl. unfold_M. rewrite Hf, IH. simpl.
    now replace (S (ticks w + length l)) with (ticks w + S (length l))%nat
      by lia.
Qed.

(** [renderNotes] returns, and leaves the world [rendered]. *)
Lemma renderNotes_run (notesToRender : option (list Note)) (w : World) :
  renderNotes notesToRender w
  = (Ok tt, rendered (default (notes w) notesToRender) w).
Proof.
  unfold renderNotes, rendered. unfold_M.
  set (l := default (notes w) notesToRender).
  destruct (has_notesList w), (has_emptyState w); try reflexivity.
  cbn [negb orb andb].
  destruct l as [|x l]; cbn [length Nat.eqb].
  - now rewrite Nat.add_0_r, with_ticks_same.
  - rewrite (mapM_clock_only createNoteElement (fun n => n));
      [|reflexivity].
    now rewrite map_id.
Qed.

Ltac rendered_field :=
  intros l w; destruct w; unfold rendered; simpl;
  match goal with |- context [if ?b then _ else _] => destruct b end;
  reflexivity.

Lemma rendered_notes :
  forall l w, notes (rendered l w) = notes w.
Proof. rendered_field. Qed.
Lemma rendered_currentNote :
  forall l w, currentNote (rendered l w) = currentNote w.
Proof. rendered_field. Qed.
Lemma rendered_isEditing :
  forall l w, isEditing (rendered l w) = isEditing w.
Proof. rendered_field. Qed.
Lemma rendered_noteTitle :
  forall l w, noteTitle (rendered l w) = noteTitle w.
Proof. rendered_field. Qed.
Lemma rendered_noteEditor :
  forall l w, noteEditor (rendered l w) = noteEditor w.
Proof. rendered_field. Qed.
Lemma rendered_local_notes :
  forall l w, local_notes (rendered l w) = local_notes w.
Proof. rendered_field. Qed.
Lemma rendered_get_fails :
  forall l w, get_fails (rendered l w) = get_fails w.
Proof. rendered_field. Qed.
Lemma rendered_set_fails :
  forall l w, set_fails (rendered l w) = set_fails w.
Proof. rendered_field. Qed.
Lemma rendered_clock :
  forall l w, clock (rendered l w) = clock w.
Proof. rendered_field. Qed.
Lemma rendered_confirms :
  forall l w, confirms (rendered l w) = confirms w.
Proof. rendered_field. Qed.
Lemma rendered_has_notesList :
  forall l w, has_notesList (rendered l w) = has_notesList w.
Proof. rendered_field. Qed.
Lemma rendered_has_emptyState :
  forall l w, has_emptyState (rendered l w) = has_emptyState w.
Proof. rendered_field. Qed.
Lemma rendered_ticks :
  forall l w,
  ticks (rendered l w)
  = if has_notesList w && has_emptyState w
    then (ticks w + length l)%nat else ticks w.
Proof. rendered_field. Qed.
Lemma rendered_out :
  forall l w,
  out (rendered l w)
  = if has_notesList w && has_emptyState w
    then out w ++ [Render l] else out w.
Proof. rendered_field. Qed.

Lemma rendered_ticks_le (l : list Note) (w : World) :
  (ticks w <= ticks (rendered l w))%nat.
Proof.
  rewrite rendered_ticks. destruct (has_notesList w && has_emptyState w); lia.
Qed.

#[global] Hint Rewrite rendered_notes rendered_currentNote
  rendered_isEditing rendered_noteTitle rendered_noteEditor
  rendered_local_notes rendered_get_fails rendered_set_fails rendered_clock
  rendered_confirms rendered_has_notesList rendered_has_emptyState : world.

(** ** Sorting *)

Section SortFacts.
Context {A : Type} (cmp : A -> A -> Z) (R : A -> A -> Prop).
Hypothesis R_first : forall x y, cmp x y <= 0 -> R x y.
Hypothesis R_second : forall x y, ~ cmp x y <= 0 -> R y x.
Hypothesis R_trans : forall x y z, R x y -> R y z -> R x z.

Lemma sort_insert_Permutation (x : A) (l : list A) :
  Permutation (sort_insert cmp x l) (x :: l).
Proof.
  induction l as [|y l IH]; simpl; [reflexivity|].
  destruct (cmp x y <=? 0); [reflexivity|].
  rewrite IH. apply perm_swap.
Qed.

Lemma sort_Permutation (l : list A) : Permutation (sort cmp l) l.
Proof.
  induction l as [|x l IH]; simpl; [reflexivity|].
  unfold sort in *. simpl. rewrite sort_insert_Permutation.
  now apply perm_skip.
Qed.

Lemma sort_insert_sorted (x : A) (l : list A) :
  StronglySorted R l -> StronglySorted R (sort_insert cmp x l).
Proof.
  induction 1 as [|y l Hs IH Hy]; simpl.
  - repeat constructor.
  - destruct (Z.leb_spec (cmp x y) 0) as [Hle|Hgt].
    + constructor; [constructor; assumption|].
      constructor; [now apply R_first|].
      eapply Forall_impl; [exact Hy|]. intros z Hz.
      eapply R_trans; [apply R_first; exact Hle|exact Hz].
    + constructor; [exact IH|].
      rewrite sort_insert_Permutation. constructor; [|exact Hy].
      apply R_second. lia.
Qed.

Lemma sort_sorted (l : list A) : StronglySorted R (sort cmp l).
Proof.
  induction l as [|x l IH]; simpl; [constructor|].
  now apply sort_insert_sorted.
Qed.

End SortFacts.

Lemma sort_by_modified_sorted (l : list Note) :
  StronglySorted newer_first (sort by_modified_desc l).
Proof.
  apply sort_sorted; unfold by_modified_desc, newer_first; intros; lia.
Qed.

(** ** Saving an empty note *)

(** C1.  A save with feedback of a note whose title and content are both
    empty once trimmed is rejected: the call returns normally, the
    collection in memory and the stored one are what they were, and the
    user is shown the alert asking for a title or content. *)
Theorem save_empty_note_rejected (w : World) (note : Note)
    (title_value editor_html : string) :
  currentNote w = Some note ->
  noteTitle w = Some title_value ->
  noteEditor w = Some editor_html ->
  trim title_value = EmptyString ->
  trim editor_html = EmptyString ->
  exists w',
    saveCurrentNote true w = (Ok tt, w') /\
    notes w' = notes w /\
    local_notes w' = local_notes w /\
    currentNote w' = currentNote w /\
    out w' = out w ++ [Alert "Please add a title or content to save the note."].
Proof.
  intros Hc Ht He Htv Hev.
  eexists. split.
  - unfold saveCurrentNote. simpl. unfold saveCurrentNote_body.
    unfold_M. rewrite Hc, Ht, He, Htv, Hev. simpl. reflexivity.
  - simpl. auto.
Qed.

Lemma save_empty_note_rejected_witness :
  exists w',
    saveCurrentNote true (editing_world "  " (" " +:+ LF)) = (Ok tt, w') /\
    notes w' = [groceries; clipping] /\
    local_notes w' = Some [groceries; clipping] /\
    currentNote w' = Some groceries /\
    out w' = [Alert "Please add a title or content to save the note."].
Proof.
  apply (save_empty_note_rejected (editing_world "  " (" " +:+ LF))
           groceries "  " (" " +:+ LF)); reflexivity.
Defined.

(** ** Searching *)

Lemma filter_sublist {A} (f : A -> bool) (l : list A) :
  sublist (List.filter f l) l.
Proof.
  induction l as [|x l IH]; simpl; [constructor|].
  destruct (f x); now constructor.
Qed.

Lemma search_match_true (searchTerm : string) (note : Note) :
  search_match searchTerm note = true <->
  substring_of searchTerm (toLowerCase (title note)) \/
  substring_of searchTerm (toLowerCase (content note)).
Proof.
  unfold search_match. now rewrite orb_true_iff, !includes_true.
Qed.

(** C3.  [searchNotes] hands to [renderNotes] the whole collection for a
    query that is empty or white space only, and otherwise exactly the
    notes, in their order, whose lower-cased title or lower-cased stored
    content holds the lower-cased, trimmed query as a substring.  Where the
    page has the list, these notes are shown and the clock is read once for
    the date of each; where it has not, nothing happens.  Either way the
    collection and the backend are as before, whatever the state of the
    backend: the world is [rendered], and nothing else. *)
Theorem searchNotes_spec (w : World) (query : string) :
  exists shown,
    searchNotes query w = (Ok tt, rendered shown w) /\
    (all_white_space query -> shown = notes w) /\
    (~ all_white_space query ->
       sublist shown (notes w) /\
       forall note,
         In note shown <->
         In note (notes w) /\
         (substring_of (trim (toLowerCase query)) (toLowerCase (title note)) \/
          substring_of (trim (toLowerCase query))
                       (toLowerCase (content note)))) /\
    notes (rendered shown w) = notes w /\
    local_notes (rendered shown w) = local_notes w /\
    (has_notesList w = true -> has_emptyState w = true ->
     rendered shown w
     = with_out (out w ++ [Render shown])
         (with_ticks (ticks w + length shown) w)) /\
    (has_notesList w = false \/ has_emptyState w = false ->
     rendered shown w = w).
Proof.
  assert (Hr : forall shown,
             notes (rendered shown w) = notes w /\
             local_notes (rendered shown w) = local_notes w /\
             (has_notesList w = true -> has_emptyState w = true ->
              rendered shown w
              = with_out (out w ++ [Render shown])
                  (with_ticks (ticks w + length shown) w)) /\
             (has_notesList w = false \/ has_emptyState w = false ->
              rendered shown w = w)).
  { intros shown. autorewrite with world. unfold rendered.
    repeat split; [now intros -> ->|].
    intros [-> | ->]; [reflexivity|now rewrite andb_false_r]. }
  unfold searchNotes, falsy.
  destruct (is_empty (trim (toLowerCase query))) eqn:E.
  - exists (notes w). split; [apply renderNotes_run|].
    split; [reflexivity|]. split; [|apply Hr].
    intros Hn. exfalso. apply Hn.
    apply all_white_space_toLowerCase, trim_empty, is_empty_true, E.
  - eexists. split; [unfold_M; apply renderNotes_run|]. split; [|split].
    + intros Hq. apply all_white_space_toLowerCase, trim_empty in Hq.
      apply is_empty_true in Hq. congruence.
    + intros _. simpl. split; [apply filter_sublist|].
      intros note. rewrite filter_In, search_match_true. reflexivity.
    + apply Hr.
Qed.

Example search_is_case_insensitive :
  out (snd (searchNotes "  WORLD " (editing_world "Groceries" "<p>milk</p>")))
  = [Render [clipping]].
Proof. reflexivity. Qed.

Example search_matches_markup :
  out (snd (searchNotes "<P>" (editing_world "Groceries" "<p>milk</p>")))
  = [Render [groceries; clipping]].
Proof. reflexivity. Qed.

(** ** Loading *)

(** C7.  [loadNotes] never throws and leaves the backend as it is.  When the
    read fails the failure is logged and the collection in memory is empty;
    when nothing is stored the collection is empty; otherwise it is the
    stored collection, most recently modified first. *)
Theorem loadNotes_spec (w : World) :
  exists w',
    loadNotes w = (Ok tt, w') /\
    local_notes w' = local_notes w /\
    (get_fails w = true ->
       notes w' = [] /\ In (ConsoleError "Error loading notes:") (out w')) /\
    (get_fails w = false -> local_notes w = None -> notes w' = []) /\
    (forall stored,
       get_fails w = false -> local_notes w = Some stored ->
       Permutation (notes w') stored /\
       StronglySorted newer_first (notes w')).
Proof.
  unfold loadNotes. unfold_M. simpl. destruct (get_fails w) eqn:Hg; simpl.
  - eexists. split; [reflexivity|]. simpl. split; [reflexivity|].
    split; [|split; intros; discriminate].
    intros _. split; [reflexivity|]. apply in_or_app. right. now left.
  - eexists. split; [reflexivity|]. simpl. split; [reflexivity|].
    split; [discriminate|]. split.
    + intros _ ->. reflexivity.
    + intros stored _ ->. simpl. split.
      * apply sort_Permutation.
      * apply sort_by_modified_sorted.
Qed.

Example load_sorts_newest_first :
  notes (snd (loadNotes (editing_world EmptyString EmptyString)))
  = [clipping; groceries].
Proof. reflexivity. Qed.

(** ** Deleting *)

Lemma filter_all {A} (f : A -> bool) (l : list A) :
  (forall x, In x l -> f x = true) -> List.filter f l = l.
Proof.
  induction l as [|x l IH]; simpl; intros H; [reflexivity|].
  rewrite (H x) by now left. f_equal. apply IH. intros; apply H; now right.
Qed.

Lemma id_differs (note : Note) (noteId : string) :
  negb (String.eqb (id note) noteId) = true <-> id note <> noteId.
Proof.
  rewrite negb_true_iff. apply String.eqb_neq.
Qed.

(** [deleteNote], step by step. *)
Lemma deleteNote_run (noteId : string) (w : World) :
  deleteNote noteId w
  = match confirms w with
    | true :: rest =>
        let kept := List.filter
                      (fun note => negb (String.eqb (id note) noteId))
                      (notes w) in
        let w2 := after_write (with_notes kept (with_confirms rest w)) in
        let w3 := rendered (notes w2) w2 in
        (Ok tt, with_out (out w3 ++ [SaveStatus "Note deleted" "success"]) w3)
    | false :: rest => (Ok tt, with_confirms rest w)
    | [] => (Ok tt, w)
    end.
Proof.
  unfold deleteNote.
  unfold mbind at 1, M_bind at 1, bind at 1, confirm at 1.
  destruct (confirms w) as [|[] rest]; try reflexivity.
  unfold mbind at 1, M_bind at 1, bind at 1, modify at 1.
  unfold mbind at 1, M_bind at 1, bind at 1. rewrite saveNotes_run.
  unfold mbind at 1, M_bind at 1, bind at 1. rewrite renderNotes_run.
  reflexivity.
Qed.

(** C8.  A confirmed [deleteNote] returns normally; what is left are the
    notes whose id differs from the one given, in their order.  When no note
    has that id the collection is unchanged; when one note has it, that note
    alone is gone.  Either way the collection is handed to the backend,
    which holds it afterwards when it accepts the write. *)
Theorem deleteNote_spec (w : World) (noteId : string) (answers : list bool) :
  confirms w = true :: answers ->
  exists w',
    deleteNote noteId w = (Ok tt, w') /\
    sublist (notes w') (notes w) /\
    (forall note,
       In note (notes w') <-> In note (notes w) /\ id note <> noteId) /\
    ((forall note, In note (notes w) -> id note <> noteId) ->
       notes w' = notes w) /\
    (forall before note after,
       notes w = before ++ note :: after ->
       id note = noteId ->
       (forall other, In other (before ++ after) -> id other <> noteId) ->
       notes w' = before ++ after) /\
    (set_fails w = false -> local_notes w' = Some (notes w')).
Proof.
  intros Hc. rewrite deleteNote_run, Hc. cbv zeta.
  set (kept := List.filter _ (notes w)).
  assert (Hin : forall note,
             In note kept <-> In note (notes w) /\ id note <> noteId).
  { intros note. unfold kept. now rewrite filter_In, id_differs. }
  assert (Hsame : (forall note, In note (notes w) -> id note <> noteId) ->
                  kept = notes w).
  { intros H. apply filter_all. intros x Hx. now apply id_differs, H. }
  assert (Hone : forall before note after,
             notes w = before ++ note :: after ->
             id note = noteId ->
             (forall other, In other (before ++ after) -> id other <> noteId) ->
             kept = before ++ after).
  { intros before note after Hw Hid Hothers. unfold kept. rewrite Hw.
    rewrite List.filter_app. simpl.
    replace (negb (String.eqb (id note) noteId)) with false
      by (symmetry; apply negb_false_iff, String.eqb_eq, Hid).
    rewrite <- List.filter_app. apply filter_all.
    intros x Hx. now apply id_differs, Hothers. }
  eexists. split; [reflexivity|].
  cbn [notes local_notes with_out]. autorewrite with world.
  cbn [notes with_notes].
  split; [apply filter_sublist|].
  split; [exact Hin|]. split; [exact Hsame|]. split; [exact Hone|].
  intros Hs. rewrite after_write_local_notes. cbn [set_fails with_notes
    with_confirms notes]. now rewrite Hs.
Qed.

Lemma deleteNote_spec_witness :
  confirms (with_confirms [true] (editing_world "Groceries" "<p>milk</p>"))
    = [true] /\
  exists w',
    deleteNote "n2" (with_confirms [true]
                       (editing_world "Groceries" "<p>milk</p>"))
      = (Ok tt, w') /\
    notes w' = [groceries] /\
    local_notes w' = Some [groceries].
Proof.
  split; [reflexivity|].
  destruct (deleteNote_spec
              (with_confirms [true] (editing_world "Groceries" "<p>milk</p>"))
              "n2" [] eq_refl)
    as (w' & Hrun & _ & _ & _ & Hone & Hstore).
  exists w'. split; [exact Hrun|].
  assert (Hn : notes w' = [groceries]).
  { apply (Hone [groceries] clipping []); [reflexivity|reflexivity|].
    intros other [<-|[]]. discriminate. }
  split; [exact Hn|]. rewrite <- Hn. now apply Hstore.
Defined.

(** ** Saving *)

Lemma hasUnsavedChanges_run (w : World) :
  hasUnsavedChanges w = (Ok (unsaved_changes w), w).
Proof.
  unfold hasUnsavedChanges, unsaved_changes. unfold_M.
  destruct (currentNote w), (noteTitle w), (noteEditor w); reflexivity.
Qed.

Lemma closeNoteModal_with_run (save : M unit) (w : World) :
  closeNoteModal_with save w =
    if isEditing w && unsaved_changes w then
      match confirms w with
      | true :: rest => save (with_confirms rest w)
      | false :: rest => (Ok tt, modal_closed (with_confirms rest w))
      | [] => (Ok tt, modal_closed w)
      end
    else (Ok tt, modal_closed w).
Proof.
  unfold closeNoteModal_with.
  unfold mbind at 1, M_bind at 1, bind at 1, gets at 1.
  unfold mbind at 1, M_bind at 1, bind at 1. rewrite hasUnsavedChanges_run.
  unfold_M. destruct (isEditing w && unsaved_changes w); [|reflexivity].
  destruct (confirms w) as [|[] rest]; reflexivity.
Qed.

Lemma saveCurrentNote_body_run (close : M unit) (showFeedback : bool)
    (w : World) (note : Note) (title_value editor_html : string) :
  currentNote w = Some note ->
  noteTitle w = Some title_value ->
  noteEditor w = Some editor_html ->
  falsy (trim title_value) && falsy (trim editor_html) = false ->
  saveCurrentNote_body close showFeedback w =
    if showFeedback
    then close (after_save w note title_value editor_html)
    else (Ok tt, saved_world w note title_value editor_html).
Proof.
  intros Hc Ht He Hne. unfold saveCurrentNote_body.
  unfold mbind at 1, M_bind at 1, bind at 1, gets at 1. rewrite Hc.
  unfold mbind at 1, M_bind at 1, bind at 1, gets at 1. rewrite Ht.
  unfold mbind at 1, M_bind at 1, bind at 1, gets at 1. rewrite He.
  rewrite Hne.
  unfold mbind at 1, M_bind at 1, bind at 1, new_Date at 1.
  unfold mbind at 1, M_bind at 1, bind at 1, modify at 1.
  unfold mbind at 1, M_bind at 1, bind at 1, gets at 1.
  fold (saved_note note title_value editor_html (clock w (ticks w))).
  set (saved := saved_note _ _ _ _).
  unfold mbind at 1, M_bind at 1, bind at 1.
  replace (notes (with_currentNote (Some saved) (with_ticks (S (ticks w)) w)))
    with (notes w) by reflexivity.
  assert (Hup : forall w0,
     match findIndex_id (id saved) (notes w) with
     | Some existingIndex =>
         modify (with_notes (<[existingIndex:=saved]> (notes w)))
     | None => modify (with_notes (saved :: notes w))
     end w0 = (Ok tt, with_notes (upsert saved (notes w)) w0)).
  { intros w0. unfold upsert. destruct (findIndex_id _ _); reflexivity. }
  rewrite Hup. cbv zeta.
  set (w1 := with_notes _ _).
  unfold mbind at 1, M_bind at 1, bind at 1.
  rewrite saveNotes_run.
  unfold mbind at 1, M_bind at 1, bind at 1.
  rewrite renderNotes_run. cbn [default].
  destruct showFeedback; [|reflexivity].
  unfold mbind, M_bind, bind, showSaveStatus, emit, modify. reflexivity.
Qed.

(** What a save that went through leaves, field by field. *)
Lemma saved_world_notes (w : World) (note : Note) (tv ev : string) :
  notes (saved_world w note tv ev)
  = upsert (saved_note note tv ev (clock w (ticks w))) (notes w).
Proof. unfold saved_world. cbv zeta. now autorewrite with world. Qed.
Lemma saved_world_currentNote (w : World) (note : Note) (tv ev : string) :
  currentNote (saved_world w note tv ev)
  = Some (saved_note note tv ev (clock w (ticks w))).
Proof. unfold saved_world. cbv zeta. now autorewrite with world. Qed.
Lemma saved_world_isEditing (w : World) (note : Note) (tv ev : string) :
  isEditing (saved_world w note tv ev) = isEditing w.
Proof. unfold saved_world. cbv zeta. now autorewrite with world. Qed.
Lemma saved_world_noteTitle (w : World) (note : Note) (tv ev : string) :
  noteTitle (saved_world w note tv ev) = noteTitle w.
Proof. unfold saved_world. cbv zeta. now autorewrite with world. Qed.
Lemma saved_world_noteEditor (w : World) (note : Note) (tv ev : string) :
  noteEditor (saved_world w note tv ev) = noteEditor w.
Proof. unfold saved_world. cbv zeta. now autorewrite with world. Qed.
Lemma saved_world_confirms (w : World) (note : Note) (tv ev : string) :
  confirms (saved_world w note tv ev) = confirms w.
Proof. unfold saved_world. cbv zeta. now autorewrite with world. Qed.
Lemma saved_world_clock (w : World) (note : Note) (tv ev : string) :
  clock (saved_world w note tv ev) = clock w.
Proof. unfold saved_world. cbv zeta. now autorewrite with world. Qed.
Lemma saved_world_get_fails (w : World) (note : Note) (tv ev : string) :
  get_fails (saved_world w note tv ev) = get_fails w.
Proof. unfold saved_world. cbv zeta. now autorewrite with world. Qed.
Lemma saved_world_set_fails (w : World) (note : Note) (tv ev : string) :
  set_fails (saved_world w note tv ev) = set_fails w.
Proof. unfold saved_world. cbv zeta. now autorewrite with world. Qed.
Lemma saved_world_has_notesList (w : World) (note : Note) (tv ev : string) :
  has_notesList (saved_world w note tv ev) = has_notesList w.
Proof. unfold saved_world. cbv zeta. now autorewrite with world. Qed.
Lemma saved_world_has_emptyState (w : World) (note : Note) (tv ev : string) :
  has_emptyState (saved_world w note tv ev) = has_emptyState w.
Proof. unfold saved_world. cbv zeta. now autorewrite with world. Qed.
Lemma saved_world_local_notes (w : World) (note : Note) (tv ev : string) :
  local_notes (saved_world w note tv ev)
  = if set_fails w then local_notes w
    else Some (upsert (saved_note note tv ev (clock w (ticks w))) (notes w)).
Proof.
  unfold saved_world. cbv zeta. autorewrite with world.
  now rewrite after_write_local_notes.
Qed.
Lemma saved_world_ticks (w : World) (note : Note) (tv ev : string) :
  ticks (saved_world w note tv ev)
  = if has_notesList w && has_emptyState w
    then (S (ticks w)
          + length (upsert (saved_note note tv ev (clock w (ticks w)))
                      (notes w)))%nat
    else S (ticks w).
Proof.
  unfold saved_world. cbv zeta. rewrite rendered_ticks.
  now autorewrite with world.
Qed.
Lemma saved_world_ticks_lt (w : World) (note : Note) (tv ev : string) :
  (ticks w < ticks (saved_world w note tv ev))%nat.
Proof.
  rewrite saved_world_ticks.
  destruct (has_notesList w && has_emptyState w); lia.
Qed.

#[global] Hint Rewrite saved_world_notes saved_world_currentNote
  saved_world_isEditing saved_world_noteTitle saved_world_noteEditor
  saved_world_confirms saved_world_clock saved_world_get_fails
  saved_world_set_fails saved_world_has_notesList
  saved_world_has_emptyState : world.

Lemma findIndex_id_None (id0 : string) (ns : list Note) :
  findIndex_id id0 ns = None <-> forall n, In n ns -> id n <> id0.
Proof.
  unfold findIndex_id. rewrite fmap_None, list_find_None, Forall_forall.
  split; intros H n Hn; apply H; now apply list_elem_of_In.
Qed.

Lemma findIndex_id_Some (id0 : string) (ns : list Note) (i : nat) :
  findIndex_id id0 ns = Some i <->
  exists n, ns !! i = Some n /\ id n = id0 /\
            forall j m, ns !! j = Some m -> (j < i)%nat -> id m <> id0.
Proof.
  unfold findIndex_id. rewrite fmap_Some. split.
  - intros ([j n] & Hfind & ->). apply list_find_Some in Hfind. eauto.
  - intros (n & H). exists (i, n). split; [|reflexivity].
    now apply list_find_Some.
Qed.

Lemma upsert_upsert (a b : Note) (l : list Note) :
  id a = id b -> upsert b (upsert a l) = upsert b l.
Proof.
  intros Hid. unfold upsert at 2 3. rewrite Hid.
  destruct (findIndex_id (id b) l) as [i|] eqn:E.
  - assert (Hi : findIndex_id (id b) (<[i:=a]> l) = Some i).
    { apply findIndex_id_Some in E as (n & Hn & _ & Hleast).
      apply findIndex_id_Some. exists a. split; [|split; [exact Hid|]].
      - apply list_lookup_insert_eq. eapply lookup_lt_Some, Hn.
      - intros j m Hj Hlt. rewrite list_lookup_insert_ne in Hj by lia.
        eauto. }
    unfold upsert. rewrite Hi. apply list_insert_insert_eq.
  - unfold upsert. unfold findIndex_id. simpl.
    rewrite decide_True by exact Hid. reflexivity.
Qed.

Lemma saved_note_again (note : Note) (tv ev : string) (t t' : timestamp) :
  saved_note (saved_note note tv ev t) tv ev t' = saved_note note tv ev t'.
Proof. reflexivity. Qed.

Ltac world_fields :=
  unfold after_save, modal_closed;
  cbn [notes currentNote isEditing noteTitle noteEditor local_notes
       get_fails set_fails clock ticks confirms out has_notesList
       has_emptyState with_out with_confirms with_currentNote
       with_isEditing with_notes with_ticks with_local_notes];
  autorewrite with world.

Lemma saveCurrentNote_fuel_run (fuel : nat) :
  forall (w : World) (showFeedback : bool) (note : Note)
         (title_value editor_html : string),
  (length (confirms w) < fuel)%nat ->
  currentNote w = Some note ->
  noteTitle w = Some title_value ->
  noteEditor w = Some editor_html ->
  falsy (trim title_value) && falsy (trim editor_html) = false ->
  exists w' k,
    saveCurrentNote_fuel fuel showFeedback w = (Ok tt, w') /\
    (ticks w <= k < ticks w')%nat /\
    notes w' =
      upsert (saved_note note title_value editor_html (clock w k)) (notes w) /\
    (set_fails w = false -> local_notes w' = Some (notes w')).
Proof.
  induction fuel as [|fuel IH]; intros w sf note tv ev Hfuel Hc Ht He Hne;
    [lia|].
  simpl. rewrite (saveCurrentNote_body_run _ _ _ _ _ _ Hc Ht He Hne).
  set (saved := saved_note note tv ev (clock w (ticks w))).
  pose proof (saved_world_ticks_lt w note tv ev) as Hlt.
  assert (Hdone : forall w4 : World,
            ticks w4 = ticks (saved_world w note tv ev) ->
            notes w4 = upsert saved (notes w) ->
            local_notes w4 = local_notes (saved_world w note tv ev) ->
            exists w' k, (Ok tt, w4) = (Ok tt, w') /\
              (ticks w <= k < ticks w')%nat /\
              notes w' = upsert (saved_note note tv ev (clock w k)) (notes w) /\
              (set_fails w = false -> local_notes w' = Some (notes w'))).
  { intros w4 Htk Hn Hl. exists w4, (ticks w). rewrite Htk.
    split; [reflexivity|]. split; [lia|]. split; [exact Hn|].
    intros Hs. now rewrite Hl, Hn, saved_world_local_notes, Hs. }
  destruct sf; [|apply Hdone; now world_fields].
  rewrite closeNoteModal_with_run.
  match goal with |- context [if ?b then _ else _] =>
    destruct b eqn:Hb end; [|apply Hdone; now world_fields].
  replace (confirms (after_save w note tv ev)) with (confirms w)
    by now world_fields.
  destruct (confirms w) as [|[] rest] eqn:Hcf;
    [apply Hdone; now world_fields| |apply Hdone; now world_fields].
  set (w2 := with_confirms rest (after_save w note tv ev)).
  destruct (IH w2 true saved tv ev) as (w' & k & Hrun & Hk & Hn & Hl).
  - subst w2. simpl. simpl in Hfuel. lia.
  - subst w2. now world_fields.
  - subst w2. now world_fields.
  - subst w2. now world_fields.
  - exact Hne.
  - exists w', k. split; [exact Hrun|].
    assert (Htk : ticks w2 = ticks (saved_world w note tv ev))
      by (subst w2; now world_fields).
    assert (Hn2 : notes w2 = upsert saved (notes w))
      by (subst w2; now world_fields).
    assert (Hck : clock w2 = clock w) by (subst w2; now world_fields).
    assert (Hsf : set_fails w2 = set_fails w) by (subst w2; now world_fields).
    split; [lia|]. split.
    + rewrite Hn, Hn2, Hck. unfold saved. rewrite saved_note_again.
      apply upsert_upsert. reflexivity.
    + intros Hs. apply Hl. now rewrite Hsf.
Qed.

(** The body of [saveCurrentNote] reaches the modal-closing call only on a
    save with feedback; short of that, what the call is does not matter. *)
Lemma saveCurrentNote_body_early (close close' : M unit) (showFeedback : bool)
    (w : World) :
  (forall note title_value editor_html,
     currentNote w = Some note ->
     noteTitle w = Some title_value ->
     noteEditor w = Some editor_html ->
     falsy (trim title_value) && falsy (trim editor_html) = false ->
     showFeedback = false) ->
  saveCurrentNote_body close showFeedback w
  = saveCurrentNote_body close' showFeedback w.
Proof.
  intros H.
  destruct (currentNote w) as [note|] eqn:Hc;
    [|unfold saveCurrentNote_body; unfold_M; now rewrite Hc].
  destruct (noteTitle w) as [tv|] eqn:Ht;
    [|unfold saveCurrentNote_body; unfold_M; now rewrite Hc, Ht].
  destruct (noteEditor w) as [ev|] eqn:He;
    [|unfold saveCurrentNote_body; unfold_M; now rewrite Hc, Ht, He].
  destruct (falsy (trim tv) && falsy (trim ev)) eqn:Hb.
  { unfold saveCurrentNote_body. unfold_M. now rewrite Hc, Ht, He, Hb. }
  rewrite (H note tv ev eq_refl eq_refl eq_refl Hb).
  now rewrite !(saveCurrentNote_body_run _ _ _ _ _ _ Hc Ht He Hb).
Qed.

(** With more fuel than there are answers left, the fuel does not show. *)
Lemma saveCurrentNote_fuel_enough (fuel : nat) :
  forall (fuel' : nat) (w : World) (showFeedback : bool),
    (length (confirms w) < fuel)%nat ->
    (length (confirms w) < fuel')%nat ->
    saveCurrentNote_fuel fuel showFeedback w
    = saveCurrentNote_fuel fuel' showFeedback w.
Proof.
  induction fuel as [|fuel IH]; intros [|fuel'] w sf Hf Hf'; try lia.
  simpl.
  destruct sf; [|apply saveCurrentNote_body_early; reflexivity].
  destruct (currentNote w) as [note|] eqn:Hc;
    [|apply saveCurrentNote_body_early; intros; congruence].
  destruct (noteTitle w) as [tv|] eqn:Ht;
    [|apply saveCurrentNote_body_early; intros; congruence].
  destruct (noteEditor w) as [ev|] eqn:He;
    [|apply saveCurrentNote_body_early; intros; congruence].
  destruct (falsy (trim tv) && falsy (trim ev)) eqn:Hb;
    [apply saveCurrentNote_body_early; intros; congruence|].
  rewrite !(saveCurrentNote_body_run _ _ _ _ _ _ Hc Ht He Hb).
  rewrite !closeNoteModal_with_run.
  match goal with |- context [if ?b then _ else _] => destruct b end;
    [|reflexivity].
  replace (confirms (after_save w note tv ev)) with (confirms w)
    by now world_fields.
  destruct (confirms w) as [|[] rest] eqn:Hcf; try reflexivity.
  apply IH; simpl; simpl in *; lia.
Qed.

(** No exception leaves [saveCurrentNote]: the nesting never outruns the
    fuel, and a rejected write is caught in [saveNotes]. *)
Lemma saveCurrentNote_fuel_returns (fuel : nat) :
  forall (w : World) (showFeedback : bool),
    (length (confirms w) < fuel)%nat ->
    fst (saveCurrentNote_fuel fuel showFeedback w) = Ok tt.
Proof.
  induction fuel as [|fuel IH]; intros w sf Hf; [lia|].
  simpl.
  destruct (currentNote w) as [note|] eqn:Hc;
    [|unfold saveCurrentNote_body; unfold_M; now rewrite Hc].
  destruct (noteTitle w) as [tv|] eqn:Ht;
    [|unfold saveCurrentNote_body; unfold_M; now rewrite Hc, Ht].
  destruct (noteEditor w) as [ev|] eqn:He;
    [|unfold saveCurrentNote_body; unfold_M; now rewrite Hc, Ht, He].
  destruct (falsy (trim tv) && falsy (trim ev)) eqn:Hb.
  { unfold saveCurrentNote_body. unfold_M. rewrite Hc, Ht, He, Hb.
    now destruct sf. }
  rewrite (saveCurrentNote_body_run _ _ _ _ _ _ Hc Ht He Hb).
  destruct sf; [|reflexivity].
  rewrite closeNoteModal_with_run.
  match goal with |- context [if ?b then _ else _] => destruct b end;
    [|reflexivity].
  replace (confirms (after_save w note tv ev)) with (confirms w)
    by now world_fields.
  destruct (confirms w) as [|[] rest] eqn:Hcf; try reflexivity.
  apply IH. simpl. simpl in *. lia.
Qed.

Lemma saveCurrentNote_returns (w : World) (showFeedback : bool) :
  fst (saveCurrentNote showFeedback w) = Ok tt.
Proof. apply saveCurrentNote_fuel_returns. lia. Qed.

(** The two functions as the source has them: [saveCurrentNote] runs its
    body with [closeNoteModal] as the closing call, and [closeNoteModal]
    calls [saveCurrentNote] back. *)
Lemma saveCurrentNote_unfold (showFeedback : bool) (w : World) :
  saveCurrentNote showFeedback w
  = saveCurrentNote_body closeNoteModal showFeedback w.
Proof.
  unfold saveCurrentNote, closeNoteModal. simpl.
  destruct showFeedback; [|apply saveCurrentNote_body_early; reflexivity].
  destruct (currentNote w) as [note|] eqn:Hc;
    [|apply saveCurrentNote_body_early; intros; congruence].
  destruct (noteTitle w) as [tv|] eqn:Ht;
    [|apply saveCurrentNote_body_early; intros; congruence].
  destruct (noteEditor w) as [ev|] eqn:He;
    [|apply saveCurrentNote_body_early; intros; congruence].
  destruct (falsy (trim tv) && falsy (trim ev)) eqn:Hb;
    [apply saveCurrentNote_body_early; intros; congruence|].
  rewrite !(saveCurrentNote_body_run _ _ _ _ _ _ Hc Ht He Hb).
  rewrite !closeNoteModal_with_run.
  match goal with |- context [if ?b then _ else _] => destruct b end;
    [|reflexivity].
  replace (confirms (after_save w note tv ev)) with (confirms w)
    by now world_fields.
  destruct (confirms w) as [|[] rest] eqn:Hcf; [reflexivity| |reflexivity].
  unfold saveCurrentNote. apply saveCurrentNote_fuel_enough; simpl; lia.
Qed.

(** C2.  A save of a note whose trimmed title or trimmed content is not
    empty returns normally and leaves in the collection the note [saved]:
    the current note with the trimmed title of the modal, or Untitled Note
    when that is empty, the trimmed content, and a reading of the clock
    taken during the save as its modification time.  When no note of the
    collection had its id, it is the new first note; when one had, it stands
    at the place of the first such note and every other place is untouched.
    The collection is then handed to the backend, which holds exactly it
    afterwards when it accepts the write. *)
Theorem saveCurrentNote_upserts (w : World) (showFeedback : bool)
    (note : Note) (title_value editor_html : string) :
  currentNote w = Some note ->
  noteTitle w = Some title_value ->
  noteEditor w = Some editor_html ->
  ~ (trim title_value = EmptyString /\ trim editor_html = EmptyString) ->
  exists (w' : World) (saved : Note) (k : nat),
    saveCurrentNote showFeedback w = (Ok tt, w') /\
    id saved = id note /\
    (trim title_value = EmptyString -> title saved = "Untitled Note") /\
    (trim title_value <> EmptyString -> title saved = trim title_value) /\
    content saved = trim editor_html /\
    created saved = created note /\
    (ticks w <= k < ticks w')%nat /\
    modified saved = clock w k /\
    ((forall other, In other (notes w) -> id other <> id note) ->
       notes w' = saved :: notes w) /\
    (forall i old,
       notes w !! i = Some old ->
       id old = id note ->
       (forall j other,
          notes w !! j = Some other -> (j < i)%nat -> id other <> id note) ->
       notes w' = <[i := saved]> (notes w)) /\
    (set_fails w = false -> local_notes w' = Some (notes w')).
Proof.
  intros Hc Ht He Hne.
  assert (Hb : falsy (trim title_value) && falsy (trim editor_html) = false).
  { apply andb_false_iff. unfold falsy.
    destruct (trim title_value); [|now left].
    destruct (trim editor_html); [|now right].
    exfalso. apply Hne. now split. }
  destruct (saveCurrentNote_fuel_run (S (length (confirms w))) w showFeedback
              note title_value editor_html) as (w' & k & Hrun & Hk & Hn & Hl);
    [lia|assumption..|].
  exists w', (saved_note note title_value editor_html (clock w k)), k.
  split; [exact Hrun|]. split; [reflexivity|].
  split; [intros E; simpl; now rewrite E|].
  split; [intros E; simpl; now destruct (trim title_value)|].
  split; [reflexivity|]. split; [reflexivity|]. split; [exact Hk|].
  split; [reflexivity|]. split; [|split; [|exact Hl]].
  - intros Hnew. rewrite Hn. unfold upsert. cbn [id saved_note].
    now rewrite (proj2 (findIndex_id_None _ _) Hnew).
  - intros i old Hi Hid Hleast. rewrite Hn. unfold upsert.
    cbn [id saved_note]. rewrite (proj2 (findIndex_id_Some _ _ i)); [reflexivity|]. eauto.
Qed.

Lemma saveCurrentNote_upserts_witness :
  ~ (trim " Groceries " = EmptyString /\
     trim "<p>milk, eggs</p>" = EmptyString) /\
  exists (w' : World) (saved : Note),
    saveCurrentNote true (editing_world " Groceries " "<p>milk, eggs</p>")
      = (Ok tt, w') /\
    title saved = "Groceries" /\
    content saved = "<p>milk, eggs</p>" /\
    notes w' = [saved; clipping] /\
    local_notes w' = Some (notes w').
Proof.
  assert (H : ~ (trim " Groceries " = EmptyString /\
                 trim "<p>milk, eggs</p>" = EmptyString))
    by (intros [? _]; discriminate).
  split; [exact H|].
  destruct (saveCurrentNote_upserts
              (editing_world " Groceries " "<p>milk, eggs</p>") true
              groceries " Groceries " "<p>milk, eggs</p>"
              eq_refl eq_refl eq_refl H)
    as (w' & saved & k & Hrun & _ & _ & Htitle & Hcontent & _ & _ & _ & _
        & Hold & Hstore).
  exists w', saved. split; [exact Hrun|].
  split; [apply Htitle; discriminate|]. split; [exact Hcontent|].
  split; [|apply Hstore; reflexivity].
  apply (Hold 0%nat groceries); [reflexivity|reflexivity|].
  intros j other _ Hj. lia.
Defined.

(** ** A failing backend *)

(** C4, on the code.  With a backend that rejects the write, a save and a
    confirmed delete both return normally and log the failure, but the
    collection in memory has already changed while the stored one has not,
    and the user is told the note was saved, or deleted; no error status is
    shown. *)
Theorem failing_write_reported_as_success :
  let saved := snd (saveCurrentNote true failing_write_world) in
  let deleted :=
    snd (deleteNote "n1" (with_confirms [true] failing_write_world)) in
  (fst (saveCurrentNote true failing_write_world) = Ok tt /\
   local_notes saved = Some [groceries] /\
   notes saved <> [groceries] /\
   length (notes saved) = 2%nat /\
   In (ConsoleError "Error saving notes:") (out saved) /\
   In (SaveStatus "Note saved successfully!" "success") (out saved) /\
   (forall msg, ~ In (SaveStatus msg "error") (out saved))) /\
  (fst (deleteNote "n1" (with_confirms [true] failing_write_world)) = Ok tt /\
   local_notes deleted = Some [groceries] /\
   notes deleted = [] /\
   In (ConsoleError "Error saving notes:") (out deleted) /\
   In (SaveStatus "Note deleted" "success") (out deleted) /\
   (forall msg, ~ In (SaveStatus msg "error") (out deleted))).
Proof.
  vm_compute. repeat split; try discriminate; auto;
    intros msg [H|[H|[H|[]]]]; discriminate.
Qed.

(** ** Timestamps *)

Section Timestamps.
Context (clk : nat -> timestamp).

#[local] Abbreviation Inv := (timestamps_invariant clk).

Lemma stamped_later (t t' : nat) (n : Note) :
  (t <= t')%nat -> stamped clk t n -> stamped clk t' n.
Proof.
  intros Ht (i & j & Hij & Hc & Hm). exists i, j. repeat split; auto; lia.
Qed.

Lemma in_all_notes (w : World) (n : Note) :
  In n (all_notes w) <->
  In n (notes w) \/ currentNote w = Some n \/
  (exists stored, local_notes w = Some stored /\ In n stored).
Proof.
  unfold all_notes. rewrite !in_app_iff.
  destruct (currentNote w) as [c|], (local_notes w) as [l|]; simpl;
    split; intros H; repeat destruct H as [H|H];
    try (destruct H as (stored & [= <-] & H)); try discriminate;
    try tauto; subst; eauto 6.
  - injection H as ->. tauto.
  - injection H as ->. tauto.
Qed.

Lemma invariant_step (w w' : World) :
  Inv w ->
  clock w' = clock w ->
  (ticks w <= ticks w')%nat ->
  (forall n, In n (all_notes w') ->
             In n (all_notes w) \/ stamped clk (ticks w') n) ->
  Inv w'.
Proof.
  intros [Hclk Hall] Hc Ht Hn. split; [congruence|].
  intros n Hin. destruct (Hn n Hin) as [Hold|Hnew]; [|exact Hnew].
  eapply stamped_later; [exact Ht|]. now apply Hall.
Qed.

(** Time passes, and the notes are what they were. *)
Lemma invariant_later (w w' : World) :
  Inv w ->
  clock w' = clock w -> (ticks w <= ticks w')%nat -> notes w' = notes w ->
  currentNote w' = currentNote w -> local_notes w' = local_notes w ->
  Inv w'.
Proof.
  intros HI Hc Ht Hn Hcur Hl. apply (invariant_step w w' HI Hc Ht).
  intros n Hin. left. unfold all_notes in *. now rewrite <- Hn, <- Hcur, <- Hl.
Qed.

Lemma invariant_same (w w' : World) :
  Inv w ->
  clock w' = clock w -> ticks w' = ticks w -> notes w' = notes w ->
  currentNote w' = currentNote w -> local_notes w' = local_notes w ->
  Inv w'.
Proof. intros HI Hc Ht. apply (invariant_later w w' HI Hc). lia. Qed.

Lemma in_upsert (s n : Note) (l : list Note) :
  In n (upsert s l) -> n = s \/ In n l.
Proof.
  unfold upsert. destruct (findIndex_id (id s) l) as [i|].
  - clear. revert i. induction l as [|x l IH]; intros [|i]; simpl; auto.
    + intros [<-|H]; auto.
    + intros [<-|H]; auto. destruct (IH i H); auto.
  - simpl. intros [<-|H]; auto.
Qed.

Lemma upsert_has (s : Note) (l : list Note) : In s (upsert s l).
Proof.
  unfold upsert. destruct (findIndex_id (id s) l) as [i|] eqn:E.
  - apply findIndex_id_Some in E as (n & Hn & _).
    apply list_elem_of_In, list_elem_of_lookup. exists i.
    apply list_lookup_insert_eq. eapply lookup_lt_Some, Hn.
  - now left.
Qed.

(** *** Computations that keep the invariant *)

Lemma keeps_ret {A} (a : A) : keeps clk (mret a).
Proof. intros w HI. exact HI. Qed.

Lemma keeps_gets {A} (f : World -> A) : keeps clk (gets f).
Proof. intros w HI. exact HI. Qed.

Lemma keeps_throw {A} (e : string) : keeps clk (@throw A e).
Proof. intros w HI. exact HI. Qed.

Lemma keeps_bind {A B} (m : M A) (k : A -> M B) :
  keeps clk m -> (forall a, keeps clk (k a)) -> keeps clk (m ≫= k).
Proof.
  intros Hm Hk w HI. specialize (Hm w HI).
  unfold mbind, M_bind, bind. destruct (m w) as [[a|e] w']; simpl in *.
  - now apply Hk.
  - exact Hm.
Qed.

Lemma keeps_try_catch {A} (m : M A) (h : string -> M A) :
  keeps clk m -> (forall e, keeps clk (h e)) -> keeps clk (try_catch m h).
Proof.
  intros Hm Hh w HI. specialize (Hm w HI).
  unfold try_catch. destruct (m w) as [[a|e] w']; simpl in *.
  - exact Hm.
  - now apply Hh.
Qed.

Lemma keeps_modify (f : World -> World) :
  (forall w, Inv w -> Inv (f w)) -> keeps clk (modify f).
Proof. intros Hf w HI. now apply Hf. Qed.

Lemma keeps_emit (e : Event) : keeps clk (emit e).
Proof. intros w HI. now apply (invariant_same w). Qed.

Lemma keeps_new_Date : keeps clk new_Date.
Proof. intros w HI. apply (invariant_later w); auto. simpl. lia. Qed.

Lemma keeps_confirm (msg : string) : keeps clk (confirm msg).
Proof.
  intros w HI. unfold confirm. destruct (confirms w); [exact HI|].
  now apply (invariant_same w).
Qed.

Lemma keeps_storage_local_get : keeps clk storage_local_get.
Proof. intros w HI. unfold storage_local_get. now destruct (get_fails w). Qed.

Lemma keeps_storage_sync_get : keeps clk storage_sync_get.
Proof.
  intros w HI. unfold storage_sync_get. now destruct (sync_get_fails w).
Qed.

Lemma keeps_storage_sync_set (v : Settings) : keeps clk (storage_sync_set v).
Proof.
  intros w HI. unfold storage_sync_set.
  destruct (sync_set_fails w); [exact HI|]. now apply (invariant_same w).
Qed.

Lemma keeps_with_settings (v : option Settings) :
  keeps clk (modify (with_settings v)).
Proof. intros w HI. now apply (invariant_same w). Qed.

Lemma keeps_mapM {A B} (f : A -> M B) (l : list A) :
  (forall x, keeps clk (f x)) -> keeps clk (mapM f l).
Proof.
  intros Hf. induction l as [|x l IH]; simpl; [apply keeps_ret|].
  apply keeps_bind; [apply Hf|]. intros y.
  apply keeps_bind; [exact IH|]. intros ys. apply keeps_ret.
Qed.

End Timestamps.

(** One step of a proof that a computation keeps the invariant: by the
    shape of the computation. *)
Ltac keeps_step :=
  lazymatch goal with
  | |- keeps _ (mbind _ _) => apply keeps_bind; [|intros ?]
  | |- keeps _ (try_catch _ _) => apply keeps_try_catch; [|intros ?]
  | |- keeps _ (mret _) => apply keeps_ret
  | |- keeps _ (gets _) => apply keeps_gets
  | |- keeps _ (throw _) => apply keeps_throw
  | |- keeps _ (emit _) => apply keeps_emit
  | |- keeps _ new_Date => apply keeps_new_Date
  | |- keeps _ (confirm _) => apply keeps_confirm
  | |- keeps _ storage_local_get => apply keeps_storage_local_get
  | |- keeps _ storage_sync_get => apply keeps_storage_sync_get
  | |- keeps _ (storage_sync_set _) => apply keeps_storage_sync_set
  | |- keeps _ (modify (with_settings _)) => apply keeps_with_settings
  | |- keeps _ (mapM _ _) => apply keeps_mapM; intros ?
  | |- keeps _ (if ?b then _ else _) => destruct b
  | |- keeps _ (match ?x with _ => _ end) => destruct x
  | |- keeps _ (let _ := _ in _) => cbv zeta
  | |- keeps _ (console_log _) => unfold console_log
  | |- keeps _ (console_error _) => unfold console_error
  | |- keeps _ (alert _) => unfold alert
  | |- keeps _ (showSaveStatus _ _) => unfold showSaveStatus
  | |- keeps _ (downloadFile _ _) => unfold downloadFile
  | |- keeps _ (Background.showNotification _) =>
      unfold Background.showNotification
  | |- keeps _ (createNoteElement _) => unfold createNoteElement
  | |- keeps _ (formatDate _ _) => unfold formatDate
  end.

Ltac keeps_auto := repeat keeps_step.

Section Handlers.
Context (clk : nat -> timestamp).
Context (toISOString toLocaleDateString toLocaleString : timestamp -> string)
        (stripHtml : string -> string)
        (localeCompare : string -> string -> Z).

#[local] Abbreviation Inv := (timestamps_invariant clk).

(** *** What only shows, logs or reads the clock *)

Lemma keeps_renderNotes (notesToRender : option (list Note)) :
  keeps clk (renderNotes notesToRender).
Proof. unfold renderNotes. keeps_auto. Qed.

Lemma keeps_searchNotes (query : string) : keeps clk (searchNotes query).
Proof. unfold searchNotes. keeps_auto; apply keeps_renderNotes. Qed.

Lemma keeps_sortNotes (sortBy : string) :
  keeps clk (sortNotes localeCompare sortBy).
Proof. unfold sortNotes. keeps_auto; apply keeps_renderNotes. Qed.

Lemma keeps_downloadNote (noteId : string) :
  keeps clk (downloadNote toLocaleDateString stripHtml noteId).
Proof. unfold downloadNote. keeps_auto. Qed.

Lemma keeps_exportAllNotes :
  keeps clk (exportAllNotes toISOString toLocaleDateString stripHtml).
Proof. unfold exportAllNotes. keeps_auto. Qed.

Lemma keeps_loadSettings : keeps clk loadSettings.
Proof. unfold loadSettings. keeps_auto. Qed.

Lemma keeps_handleUpdate (previousVersion : string) :
  keeps clk (Background.handleUpdate previousVersion).
Proof. unfold Background.handleUpdate. keeps_auto. Qed.

(** *** What writes notes *)

Lemma invariant_modal_closed (w : World) : Inv w -> Inv (modal_closed w).
Proof.
  intros HI. apply (invariant_step clk w _ HI); [reflexivity|simpl; lia|].
  intros n. rewrite !in_all_notes. simpl.
  intros [H|[H|H]]; [tauto|discriminate|tauto].
Qed.

Lemma invariant_after_write (w : World) :
  Inv w -> Inv (after_write w).
Proof.
  intros HI. apply (invariant_step clk w _ HI); autorewrite with world;
    [reflexivity|lia|].
  intros n. rewrite !in_all_notes. autorewrite with world.
  rewrite after_write_local_notes.
  intros [H|[H|(stored & Hs & H)]]; [tauto|tauto|].
  destruct (set_fails w); [eauto 6|]. injection Hs as <-. tauto.
Qed.

Lemma invariant_rendered (l : list Note) (w : World) :
  Inv w -> Inv (rendered l w).
Proof.
  intros HI. apply (invariant_later clk w _ HI); autorewrite with world;
    auto using rendered_ticks_le.
Qed.

Lemma keeps_saveNotes : keeps clk saveNotes.
Proof. intros w HI. rewrite saveNotes_run. now apply invariant_after_write. Qed.

Lemma keeps_loadNotes : keeps clk loadNotes.
Proof.
  intros w HI. unfold loadNotes. unfold_M. simpl.
  destruct (get_fails w); simpl.
  - apply (invariant_step clk w _ HI); [reflexivity|simpl; lia|].
    intros n. rewrite !in_all_notes. simpl. tauto.
  - apply (invariant_step clk w _ HI); [reflexivity|simpl; lia|].
    intros n. rewrite !in_all_notes. simpl.
    intros [H|[H|H]]; [|tauto|tauto].
    apply (Permutation_in _ (sort_Permutation _ _)) in H.
    destruct (local_notes w) as [stored|]; [|destruct H]. eauto 6.
Qed.

Lemma keeps_new_NoteMaster : keeps clk new_NoteMaster.
Proof.
  unfold new_NoteMaster, init, setupEventListeners.
  assert (H1 : keeps clk (modify (with_notes []))).
  { apply keeps_modify. intros w HI.
    apply (invariant_step clk w _ HI); [reflexivity|simpl; lia|].
    intros n. rewrite !in_all_notes. simpl. tauto. }
  assert (H2 : keeps clk (modify (with_currentNote None))).
  { apply keeps_modify. intros w HI.
    apply (invariant_step clk w _ HI); [reflexivity|simpl; lia|].
    intros n. rewrite !in_all_notes. simpl.
    intros [H|[H|H]]; [tauto|discriminate|tauto]. }
  assert (H3 : keeps clk (modify (with_isEditing false))).
  { apply keeps_modify. intros w HI. now apply (invariant_same clk w). }
  apply keeps_bind; [exact H1|intros _].
  apply keeps_bind; [exact H2|intros _].
  apply keeps_bind; [exact H3|intros _].
  keeps_auto;
    first [apply keeps_loadSettings|apply keeps_loadNotes
          |apply keeps_renderNotes].
Qed.

Lemma invariant_saved_world (w : World) (note : Note) (tv ev : string) :
  Inv w -> currentNote w = Some note -> Inv (saved_world w note tv ev).
Proof.
  intros HI Hc.
  pose proof (saved_world_ticks_lt w note tv ev) as Hlt.
  apply (invariant_step clk w _ HI); [now autorewrite with world|lia|].
  intros n. rewrite !in_all_notes. autorewrite with world.
  rewrite saved_world_local_notes.
  set (saved := saved_note note tv ev (clock w (ticks w))).
  assert (Hs : stamped clk (ticks (saved_world w note tv ev)) saved).
  { destruct HI as [Hclk Hall].
    destruct (Hall note) as (i & j & Hij & Hcr & _).
    { apply in_all_notes. tauto. }
    exists i, (ticks w). split; [lia|]. split; [exact Hcr|].
    simpl. now rewrite Hclk. }
  intros [H|[H|(stored & Hst & H)]].
  - apply in_upsert in H as [->|H]; [now right|tauto].
  - injection H as <-. now right.
  - destruct (set_fails w); [eauto 6|]. injection Hst as <-.
    apply in_upsert in H as [->|H]; [now right|tauto].
Qed.

Lemma invariant_after_save (w : World) (note : Note) (tv ev : string) :
  Inv w -> currentNote w = Some note -> Inv (after_save w note tv ev).
Proof.
  intros HI Hc.
  now apply (invariant_same clk (saved_world w note tv ev));
    [apply invariant_saved_world|..].
Qed.

Lemma keeps_closeNoteModal_with (save : M unit) :
  keeps clk save -> keeps clk (closeNoteModal_with save).
Proof.
  intros Hsave w HI. rewrite closeNoteModal_with_run.
  destruct (isEditing w && unsaved_changes w);
    [|now apply invariant_modal_closed].
  destruct (confirms w) as [|[] rest].
  - now apply invariant_modal_closed.
  - apply Hsave. now apply (invariant_same clk w).
  - apply invariant_modal_closed. now apply (invariant_same clk w).
Qed.

Lemma keeps_saveCurrentNote_fuel (fuel : nat) :
  forall showFeedback, keeps clk (saveCurrentNote_fuel fuel showFeedback).
Proof.
  induction fuel as [|fuel IH]; intros sf w HI; [exact HI|].
  simpl.
  destruct (currentNote w) as [note|] eqn:Hc;
    [|unfold saveCurrentNote_body; unfold_M; now rewrite Hc].
  destruct (noteTitle w) as [tv|] eqn:Ht;
    [|unfold saveCurrentNote_body; unfold_M; now rewrite Hc, Ht].
  destruct (noteEditor w) as [ev|] eqn:He;
    [|unfold saveCurrentNote_body; unfold_M; now rewrite Hc, Ht, He].
  destruct (falsy (trim tv) && falsy (trim ev)) eqn:Hb.
  { unfold saveCurrentNote_body. unfold_M. rewrite Hc, Ht, He, Hb.
    destruct sf; simpl; [|exact HI].
    apply (invariant_same clk w); auto. }
  rewrite (saveCurrentNote_body_run _ _ _ _ _ _ Hc Ht He Hb).
  destruct sf; [|now apply invariant_saved_world].
  apply keeps_closeNoteModal_with; [apply IH|].
  now apply invariant_after_save.
Qed.

Lemma keeps_saveCurrentNote (showFeedback : bool) :
  keeps clk (saveCurrentNote showFeedback).
Proof. intros w. apply keeps_saveCurrentNote_fuel. Qed.

Lemma keeps_closeNoteModal : keeps clk closeNoteModal.
Proof. apply keeps_closeNoteModal_with, keeps_saveCurrentNote. Qed.

Lemma keeps_deleteNote (noteId : string) : keeps clk (deleteNote noteId).
Proof.
  intros w HI. rewrite deleteNote_run.
  destruct (confirms w) as [|[] rest];
    [exact HI| |now apply (invariant_same clk w)].
  cbv zeta. cbn [snd].
  match goal with |- Inv (with_out _ (rendered _ (after_write ?x))) =>
    assert (Hx : Inv x) end.
  { apply (invariant_step clk w _ HI); [reflexivity|simpl; lia|].
    intros n. rewrite !in_all_notes. simpl. rewrite filter_In. tauto. }
  eapply (invariant_same clk);
    [apply invariant_rendered, invariant_after_write, Hx|reflexivity..].
Qed.

Lemma keeps_openNoteModal (note : Note) :
  (forall w, Inv w -> stamped clk (ticks w) note) ->
  keeps clk (openNoteModal note).
Proof.
  intros Hn w HI. unfold openNoteModal. do 3 unfold_M. simpl.
  destruct (has_noteModal w); simpl;
    (apply (invariant_step clk w _ HI); [reflexivity|simpl; lia|]);
    intros n; rewrite !in_all_notes; simpl;
    (intros [H|[H|H]]; [tauto| |tauto]); injection H as <-; right;
    now apply Hn.
Qed.

Lemma createNewNote_run (w : World) :
  createNewNote w
  = openNoteModal
      (mkNote (toString36 (clock w (ticks w)) +:+ random36 w (draws w))
         EmptyString EmptyString None None
         (clock w (1 + ticks w)) (clock w (2 + ticks w)))
      (with_currentNote
         (Some (mkNote (toString36 (clock w (ticks w))
                        +:+ random36 w (draws w))
                  EmptyString EmptyString None None
                  (clock w (1 + ticks w)) (clock w (2 + ticks w))))
         (with_out (out w ++ [ConsoleLog "Creating new note..."])
            (with_draws (S (draws w)) (with_ticks (3 + ticks w) w)))).
Proof. reflexivity. Qed.

Lemma keeps_createNewNote : keeps clk createNewNote.
Proof.
  intros w HI. rewrite createNewNote_run.
  set (note := mkNote _ _ _ _ _ _ _).
  unfold openNoteModal. do 3 unfold_M. simpl.
  assert (Hs : stamped clk (3 + ticks w) note).
  { destruct HI as [Hclk _]. exists (1 + ticks w)%nat, (2 + ticks w)%nat.
    subst note. simpl. rewrite Hclk. repeat split; lia. }
  destruct (has_noteModal w); simpl;
    (apply (invariant_step clk w _ HI); [reflexivity|simpl; lia|]);
    intros n; rewrite !in_all_notes; simpl;
    (intros [H|[H|H]]; [tauto| |tauto]); injection H as <-; now right.
Qed.

Lemma background_saveNote_run (note : Note) (w : World) :
  Background.saveNote note w
  = (Ok tt,
     if get_fails w || set_fails w
     then with_out (out w ++ [ConsoleError "Error saving note:"]) w
     else with_local_notes (Some (note :: default [] (local_notes w))) w).
Proof.
  unfold Background.saveNote. do 3 unfold_M.
  destruct (get_fails w); [reflexivity|].
  now destruct (set_fails w).
Qed.

Lemma invariant_saveNote (w : World) (note : Note) :
  Inv w -> stamped clk (ticks w) note ->
  Inv (snd (Background.saveNote note w)).
Proof.
  intros HI Hs. rewrite background_saveNote_run. cbn [snd].
  destruct (get_fails w || set_fails w); [now apply (invariant_same clk w)|].
  apply (invariant_step clk w _ HI); [reflexivity|simpl; lia|].
  intros n. rewrite !in_all_notes. simpl.
  intros [H|[H|(stored & [= <-] & [<-|H])]]; [tauto|tauto|now right|].
  destruct (local_notes w) as [l|]; [|destruct H]. eauto 6.
Qed.

(** The three flows of the background script that make a note: what they
    run to. *)
Lemma savePageInfo_run (tab : Background.Tab) (w : World) :
  Background.savePageInfo toLocaleString tab w
  = let note :=
      mkNote (toString36 (clock w (ticks w)) +:+ random36 w (draws w))
        (Background.tab_title tab)
        ("<p><strong>URL:</strong> <a href=" +:+ DQ
         +:+ Background.tab_url tab +:+ DQ +:+ ">"
         +:+ Background.tab_url tab
         +:+ "</a></p><p><strong>Saved:</strong> "
         +:+ toLocaleString (clock w (1 + ticks w)) +:+ "</p>")
        (Some ["bookmark"; "web-clip"]) (Some "web")
        (clock w (2 + ticks w)) (clock w (3 + ticks w)) in
    let w' := snd (Background.saveNote note
                     (with_draws (S (draws w))
                        (with_ticks (4 + ticks w) w))) in
    (Ok tt, with_out (out w' ++ [Notification "Page saved to NoteMaster!"])
              w').
Proof.
  unfold Background.savePageInfo.
  unfold mbind at 1, M_bind at 1, bind at 1, generateId at 1.
  unfold mbind at 1, M_bind at 1, bind at 1, new_Date at 1.
  unfold mbind at 1, M_bind at 1, bind at 1, new_Date at 1.
  unfold mbind at 1, M_bind at 1, bind at 1, new_Date at 1.
  unfold mbind at 1, M_bind at 1, bind at 1.
  rewrite background_saveNote_run. cbv zeta.
  rewrite background_saveNote_run. reflexivity.
Qed.

Lemma saveSelectedText_run (selected : string) (tab : Background.Tab)
    (w : World) :
  selected <> EmptyString ->
  Background.saveSelectedText (Some selected) tab w
  = let w1 := with_draws (S (draws w)) (with_ticks (S (ticks w)) w) in
    if has_document w then
      let note :=
        mkNote (toString36 (clock w (ticks w)) +:+ random36 w (draws w))
          ("Selection from " +:+ Background.tab_title tab)
          ("<p>" +:+ escapeHtml selected
           +:+ "</p><br><p><em>Source: <a href=" +:+ DQ
           +:+ Background.tab_url tab +:+ DQ +:+ ">"
           +:+ Background.tab_title tab +:+ "</a></em></p>")
          (Some ["web-clip"]) (Some "web")
          (clock w (1 + ticks w)) (clock w (2 + ticks w)) in
      let w' := snd (Background.saveNote note
                       (with_draws (S (draws w))
                          (with_ticks (3 + ticks w) w))) in
      (Ok tt, with_out (out w' ++ [Notification "Text saved to NoteMaster!"])
                w')
    else (Throw "ReferenceError: document is not defined", w1).
Proof.
  intros Hne. unfold Background.saveSelectedText.
  destruct selected as [|c s]; [now elim Hne|].
  change (falsy (default EmptyString (Some (String c s)))) with false.
  cbv iota.
  change (default EmptyString (Some (String c s))) with (String c s).
  unfold mbind at 1, M_bind at 1, bind at 1, generateId at 1.
  unfold mbind at 1, M_bind at 1, bind at 1, Background.escapeHtml at 1.
  cbn [has_document with_draws with_ticks].
  destruct (has_document w); [|reflexivity].
  unfold mbind at 1, M_bind at 1, bind at 1, new_Date at 1.
  unfold mbind at 1, M_bind at 1, bind at 1, new_Date at 1.
  unfold mbind at 1, M_bind at 1, bind at 1.
  rewrite background_saveNote_run. cbv zeta.
  rewrite background_saveNote_run. reflexivity.
Qed.

Lemma handleFirstInstall_run (w : World) :
  Background.handleFirstInstall w
  = if sync_set_fails w then (Throw "storage.sync.set", w)
    else
      let note :=
        mkNote (toString36 (clock w (ticks w)) +:+ random36 w (draws w))
          "Welcome to NoteMaster!" Template.welcome
          (Some ["welcome"; "guide"]) (Some "system")
          (clock w (1 + ticks w)) (clock w (2 + ticks w)) in
      let w' := snd (Background.saveNote note
                       (with_draws (S (draws w))
                          (with_ticks (3 + ticks w)
                             (with_sync_settings
                                (Some Background.defaultSettings) w)))) in
      (Ok tt,
       with_out
         (out w' ++
          [Notification
             "Welcome to NoteMaster! Check out your first note to get started."])
         w').
Proof.
  unfold Background.handleFirstInstall.
  unfold mbind at 1, M_bind at 1, bind at 1, storage_sync_set at 1.
  destruct (sync_set_fails w); [reflexivity|].
  unfold mbind at 1, M_bind at 1, bind at 1, generateId at 1.
  unfold mbind at 1, M_bind at 1, bind at 1, new_Date at 1.
  unfold mbind at 1, M_bind at 1, bind at 1, new_Date at 1.
  unfold mbind at 1, M_bind at 1, bind at 1.
  rewrite background_saveNote_run. cbv zeta.
  rewrite background_saveNote_run. reflexivity.
Qed.

(** A note stamped with two readings in a row, stored and announced. *)
Lemma invariant_clip (w w1 : World) (note : Note) (i : nat) (msg : string) :
  Inv w ->
  clock w1 = clock w -> (S i < ticks w1)%nat -> (ticks w <= ticks w1)%nat ->
  notes w1 = notes w -> currentNote w1 = currentNote w ->
  local_notes w1 = local_notes w ->
  created note = clock w i -> modified note = clock w (S i) ->
  Inv (with_out (out (snd (Background.saveNote note w1))
                 ++ [Notification msg])
         (snd (Background.saveNote note w1))).
Proof.
  intros HI Hc Hi Ht Hn Hcur Hl Hcr Hmd.
  assert (H1 : Inv w1) by now apply (invariant_later clk w).
  eapply (invariant_same clk); [apply invariant_saveNote; [exact H1|]
                               |reflexivity..].
  destruct HI as [Hclk _]. exists i, (S i).
  rewrite Hcr, Hmd, Hclk. repeat split; lia.
Qed.

Lemma keeps_savePageInfo (tab : Background.Tab) :
  keeps clk (Background.savePageInfo toLocaleString tab).
Proof.
  intros w HI. rewrite savePageInfo_run. cbv zeta. cbn [snd].
  apply (invariant_clip w _ _ (2 + ticks w)); auto; simpl; lia.
Qed.

Lemma keeps_saveSelectedText (selectionText : option string)
    (tab : Background.Tab) :
  keeps clk (Background.saveSelectedText selectionText tab).
Proof.
  intros w HI.
  destruct (default EmptyString selectionText) as [|c s] eqn:Hsel.
  - unfold Background.saveSelectedText. rewrite Hsel. exact HI.
  - destruct selectionText as [selected|]; [|discriminate Hsel].
    cbn [default] in Hsel. unfold Datatypes.id in Hsel. subst selected.
    rewrite saveSelectedText_run by discriminate. cbv zeta.
    destruct (has_document w); cbn [snd].
    + apply (invariant_clip w _ _ (1 + ticks w)); auto; simpl; lia.
    + apply (invariant_later clk w); auto. simpl. lia.
Qed.

Lemma keeps_handleContextMenuClick (menuItemId : string)
    (selectionText : option string) (tab : Background.Tab) :
  keeps clk (Background.handleContextMenuClick toLocaleString menuItemId
               selectionText tab).
Proof.
  unfold Background.handleContextMenuClick. keeps_auto.
  - apply keeps_saveSelectedText.
  - apply keeps_savePageInfo.
Qed.

Lemma keeps_handleFirstInstall : keeps clk Background.handleFirstInstall.
Proof.
  intros w HI. rewrite handleFirstInstall_run.
  destruct (sync_set_fails w); [exact HI|]. cbv zeta. cbn [snd].
  apply (invariant_clip w _ _ (1 + ticks w)); auto; simpl; lia.
Qed.

Lemma keeps_onInstalled (reason previousVersion : string) :
  keeps clk (Background.onInstalled reason previousVersion).
Proof.
  unfold Background.onInstalled. keeps_auto.
  - apply keeps_handleFirstInstall.
  - apply keeps_handleUpdate.
Qed.

(** *** Every event keeps the invariant *)

Lemma invariant_with_confirms (answers : list bool) :
  keeps clk (modify (with_confirms answers)).
Proof. apply keeps_modify. intros w HI. now apply (invariant_same clk w). Qed.

Lemma keeps_handler (a : Action) :
  keeps clk (handler toISOString toLocaleDateString toLocaleString stripHtml
               localeCompare a).
Proof.
  destruct a; unfold handler.
  - apply keeps_onInstalled.
  - apply keeps_new_NoteMaster.
  - keeps_auto. apply keeps_createNewNote.
  - (* NoteClicked *)
    intros w HI. unfold mbind, M_bind, bind, gets.
    destruct (List.find _ (notes w)) as [note|] eqn:E; [|exact HI].
    apply find_some in E as [Hin _].
    unfold openNoteModal. do 3 unfold_M. simpl.
    destruct (has_noteModal w); simpl;
      (apply (invariant_step clk w _ HI); [reflexivity|simpl; lia|]);
      intros n; rewrite !in_all_notes; simpl;
      (intros [H|[H|H]]; [tauto| |tauto]); injection H as <-; tauto.
  - (* UserEdits *)
    intros w HI. unfold_M. simpl. now apply (invariant_same clk w).
  - apply keeps_bind; [apply invariant_with_confirms|intros _].
    apply keeps_saveCurrentNote.
  - unfold autoSave_fires. keeps_auto;
      first [apply invariant_with_confirms|apply keeps_saveCurrentNote].
  - apply keeps_bind; [apply invariant_with_confirms|intros _].
    apply keeps_closeNoteModal.
  - apply keeps_bind; [apply invariant_with_confirms|intros _].
    apply keeps_deleteNote.
  - apply keeps_downloadNote.
  - apply keeps_searchNotes.
  - apply keeps_sortNotes.
  - apply keeps_exportAllNotes.
  - apply keeps_handleContextMenuClick.
  - apply keeps_modify. intros w HI. now apply (invariant_same clk w).
  - apply keeps_modify. intros w HI. now apply (invariant_same clk w).
  - apply keeps_modify. intros w HI. now apply (invariant_same clk w).
Qed.

Lemma run_invariant (actions : list Action) :
  forall w,
    Inv w ->
    Inv (run toISOString toLocaleDateString toLocaleString stripHtml
           localeCompare actions w).
Proof.
  induction actions as [|a actions IH]; intros w HI; [exact HI|].
  simpl. apply IH. now apply keeps_handler.
Qed.

Lemma nothing_yet_invariant (w : World) :
  clock w = clk -> nothing_yet w -> Inv w.
Proof.
  intros Hclk (Hn & Hc & Hl). split; [exact Hclk|].
  intros n. unfold all_notes. rewrite Hn, Hc, Hl. intros [].
Qed.

Lemma stamped_ordered (t : nat) (n : Note) :
  clock_monotone clk -> stamped clk t n -> created n <= modified n.
Proof.
  intros Hmono (i & j & Hij & -> & ->). apply Hmono. lia.
Qed.

End Handlers.

(** C9, as the code has it.  Provided the clock never runs backwards, in
    every state the extension reaches from the moment the browser installs
    it, every note held by the popup, open in the modal or stored by the
    backend has [modified >= created]: both are readings of the clock, that
    of [created] taken no later than that of [modified].  Every flow that
    makes a note, the new note of the popup, the two captures of the context
    menu and the welcome note of the installation, takes [created] from one
    reading of the clock and [modified] from the very next one.  A save
    leaves [created] alone and sets [modified] to a reading of the clock
    taken during the save, which is no earlier than what [modified] was. *)
Theorem timestamps_ordered
    (toISOString toLocaleDateString toLocaleString : timestamp -> string)
    (stripHtml : string -> string) (localeCompare : string -> string -> Z)
    (w0 : World) (actions : list Action) :
  clock_monotone (clock w0) ->
  nothing_yet w0 ->
  let clk := clock w0 in
  let w := run toISOString toLocaleDateString toLocaleString stripHtml
             localeCompare actions w0 in
  (forall n, In n (all_notes w) ->
     stamped clk (ticks w) n /\ created n <= modified n) /\
  (exists n,
     currentNote (snd (createNewNote w)) = Some n /\
     created n = clk (1 + ticks w)%nat /\
     modified n = clk (2 + ticks w)%nat /\
     created n <= modified n) /\
  (get_fails w = false -> set_fails w = false ->
   (forall tab,
      exists n,
        local_notes (snd (Background.savePageInfo toLocaleString tab w))
        = Some (n :: default [] (local_notes w)) /\
        created n = clk (2 + ticks w)%nat /\
        modified n = clk (3 + ticks w)%nat /\
        created n <= modified n) /\
   (forall selected tab,
      selected <> EmptyString -> has_document w = true ->
      exists n,
        local_notes (snd (Background.saveSelectedText (Some selected) tab w))
        = Some (n :: default [] (local_notes w)) /\
        created n = clk (1 + ticks w)%nat /\
        modified n = clk (2 + ticks w)%nat /\
        created n <= modified n) /\
   (sync_set_fails w = false ->
      exists n,
        local_notes (snd (Background.handleFirstInstall w))
        = Some (n :: default [] (local_notes w)) /\
        created n = clk (1 + ticks w)%nat /\
        modified n = clk (2 + ticks w)%nat /\
        created n <= modified n)) /\
  (forall showFeedback note title_value editor_html,
     currentNote w = Some note ->
     noteTitle w = Some title_value ->
     noteEditor w = Some editor_html ->
     ~ (trim title_value = EmptyString /\ trim editor_html = EmptyString) ->
     exists w' saved k,
       saveCurrentNote showFeedback w = (Ok tt, w') /\
       In saved (notes w') /\
       id saved = id note /\
       created saved = created note /\
       (ticks w <= k < ticks w')%nat /\
       modified saved = clk k /\
       modified note <= modified saved /\
       created saved <= modified saved).
Proof.
  intros Hmono Hstart clk w.
  assert (HI : timestamps_invariant clk w).
  { apply run_invariant. now apply nothing_yet_invariant. }
  destruct HI as [Hclk Hall].
  split; [|split; [|split]].
  - intros n Hin. split; [now apply Hall|].
    eapply stamped_ordered; [exact Hmono|]. now apply Hall.
  - rewrite createNewNote_run. unfold openNoteModal. do 3 unfold_M.
    rewrite Hclk. simpl.
    destruct (has_noteModal w); simpl; eexists;
      (split; [reflexivity|]); simpl;
      (split; [reflexivity|]); (split; [reflexivity|]);
      apply Hmono; lia.
  - intros Hg Hs. split; [|split].
    + intros tab. rewrite savePageInfo_run. cbv zeta.
      rewrite background_saveNote_run.
      cbn [get_fails set_fails with_draws with_ticks]. rewrite Hg, Hs, Hclk.
      cbn [orb snd local_notes with_out with_local_notes].
      eexists. split; [reflexivity|]. cbn [created modified].
      split; [reflexivity|]. split; [reflexivity|]. apply Hmono. lia.
    + intros selected tab Hne Hd.
      rewrite (saveSelectedText_run selected tab w Hne), Hd. cbv zeta.
      rewrite background_saveNote_run.
      cbn [get_fails set_fails with_draws with_ticks]. rewrite Hg, Hs, Hclk.
      cbn [orb snd local_notes with_out with_local_notes].
      eexists. split; [reflexivity|]. cbn [created modified].
      split; [reflexivity|]. split; [reflexivity|]. apply Hmono. lia.
    + intros Hy. rewrite handleFirstInstall_run, Hy. cbv zeta.
      rewrite background_saveNote_run.
      cbn [get_fails set_fails with_draws with_ticks with_sync_settings].
      rewrite Hg, Hs, Hclk.
      cbn [orb snd local_notes with_out with_local_notes].
      eexists. split; [reflexivity|]. cbn [created modified].
      split; [reflexivity|]. split; [reflexivity|]. apply Hmono. lia.
  - intros sf note tv ev Hc Ht He Hne.
    assert (Hb : falsy (trim tv) && falsy (trim ev) = false).
    { apply andb_false_iff. unfold falsy.
      destruct (trim tv); [|now left]. destruct (trim ev); [|now right].
      exfalso. apply Hne. now split. }
    destruct (saveCurrentNote_fuel_run (S (length (confirms w))) w sf
                note tv ev) as (w' & k & Hrun & Hk & Hn & _);
      [lia|assumption..|].
    destruct (Hall note) as (i & j & Hij & Hcr & Hmd).
    { apply in_all_notes. tauto. }
    exists w', (saved_note note tv ev (clock w k)), k.
    split; [exact Hrun|]. split; [rewrite Hn; apply upsert_has|].
    split; [reflexivity|]. split; [reflexivity|]. split; [exact Hk|].
    simpl. rewrite Hclk. split; [reflexivity|].
    rewrite Hcr, Hmd. split; apply Hmono; lia.
Qed.

Lemma timestamps_ordered_witness :
  clock_monotone (clock (before_install sample_clock sample_random)) /\
  nothing_yet (before_install sample_clock sample_random) /\
  forall n,
    In n (all_notes
            (run (fun t => pretty t) (fun t => pretty t) (fun t => pretty t)
               (fun html => html) (fun a b => 0)
               [Installed "install" EmptyString; PopupOpens; NewNoteClicked;
                UserEdits "Groceries" "<p>milk</p>"; SaveClicked []]
               (before_install sample_clock sample_random))) ->
    created n <= modified n.
Proof.
  assert (H : clock_monotone (clock (before_install sample_clock
                                       sample_random)))
    by (intros i j Hij; simpl; unfold sample_clock; lia).
  assert (H0 : nothing_yet (before_install sample_clock sample_random))
    by (repeat split).
  split; [exact H|]. split; [exact H0|].
  intros n Hn.
  exact (proj2 (proj1 (timestamps_ordered
                         (fun t => pretty t) (fun t => pretty t)
                         (fun t => pretty t) (fun html => html)
                         (fun a b => 0)
                         (before_install sample_clock sample_random)
                         [Installed "install" EmptyString; PopupOpens;
                          NewNoteClicked;
                          UserEdits "Groceries" "<p>milk</p>";
                          SaveClicked []] H H0) n Hn)).
Defined.

(** C9, as stated, fails at creation: the two timestamps of a new note come
    from two readings of the clock, which differ as soon as the clock has
    moved between them; and when the clock is set back between the two
    readings, [modified] is even the earlier of the two. *)
Lemma created_differs_from_modified :
  (clock_monotone sample_clock /\
   ~ (forall n,
        currentNote
          (snd (createNewNote (before_install sample_clock sample_random)))
          = Some n ->
        created n = modified n)) /\
  ~ (forall n,
       In n (all_notes
               (run (fun t => pretty t) (fun t => pretty t)
                  (fun t => pretty t) (fun html => html) (fun a b => 0)
                  [NewNoteClicked; UserEdits "Groceries" "<p>milk</p>";
                   SaveClicked []]
                  (before_install backwards_clock sample_random))) ->
       created n <= modified n).
Proof.
  split; [split; [intros i j Hij; unfold sample_clock; lia|]|].
  - intros H. specialize (H _ eq_refl). vm_compute in H. discriminate.
  - intros H.
    specialize (H (mkNote "mhhhfolck3j9x" "Groceries" "<p>milk</p>" None None
                     1762074119999 1762074119997)).
    assert (Hin : In (mkNote "mhhhfolck3j9x" "Groceries" "<p>milk</p>"
                        None None 1762074119999 1762074119997)
                     (all_notes
                        (run (fun t => pretty t) (fun t => pretty t)
                           (fun t => pretty t) (fun html => html)
                           (fun a b => 0)
                           [NewNoteClicked;
                            UserEdits "Groceries" "<p>milk</p>";
                            SaveClicked []]
                           (before_install backwards_clock sample_random))))
      by (vm_compute; auto).
    specialize (H Hin). vm_compute in H. now apply H.
Qed.

(** ** Markup to Markdown *)

Lemma app_nil (b : string) : EmptyString +:+ b = b.
Proof. reflexivity. Qed.

Lemma app_cons (x : ascii) (a b : string) :
  String x a +:+ b = String x (a +:+ b).
Proof. reflexivity. Qed.

Lemma append_assoc (a b c : string) : (a +:+ b) +:+ c = a +:+ b +:+ c.
Proof.
  induction a as [|x a IH]; [reflexivity|]. now rewrite !app_cons, IH.
Qed.

Lemma has_char_app (c : ascii) (a b : string) :
  has_char c (a +:+ b) = has_char c a || has_char c b.
Proof.
  induction a as [|x a IH]; [reflexivity|].
  rewrite app_cons. simpl. now rewrite IH, orb_assoc.
Qed.

Lemma tagged_false_tag_free (s : string) : tagged s = false -> tag_free s.
Proof.
  intros H pre. revert s H.
  induction pre as [|x pre IH]; intros s H tag post ->.
  - rewrite app_nil, app_cons, app_nil in H. simpl in H.
    apply orb_false_iff in H as [H _].
    rewrite has_char_app, app_cons in H. simpl in H.
    rewrite orb_true_r in H. discriminate.
  - rewrite app_cons in H. simpl in H.
    apply orb_false_iff in H as [_ H]. now apply (IH _ H tag post).
Qed.

Lemma until_gt_None (s : string) :
  Regex.until_gt s = None <-> has_char ">" s = false.
Proof.
  induction s as [|c s IH]; simpl; [tauto|].
  destruct (Ascii.eqb c ">"); simpl; [split; discriminate|].
  rewrite <- IH. destruct (Regex.until_gt s); simpl; split; congruence.
Qed.

Lemma replace_go_skip (m : Regex.matcher) (c : ascii) (s : string) (k : nat) :
  Regex.replace_go m (String c s) (S k) = Regex.replace_go m s k.
Proof. reflexivity. Qed.

Lemma replace_go_here (m : Regex.matcher) (c : ascii) (s : string) :
  Regex.replace_go m (String c s) O =
    match m (String c s) with
    | Some (replacement, taken) =>
        replacement +:+ Regex.replace_go m s (Nat.pred taken)
    | None => String c (Regex.replace_go m s O)
    end.
Proof. reflexivity. Qed.

Lemma any_tag_cases (c : ascii) (s : string) :
  Regex.any_tag EmptyString (String c s) =
    if Ascii.eqb c "<"
    then n ← Regex.until_gt s; Some (EmptyString, (1 + n + 1)%nat)
    else None.
Proof.
  destruct (Ascii.eqb_spec c "<") as [->|Hne]; [reflexivity|].
  destruct c as [[] [] [] [] [] [] [] []]; try reflexivity. now elim Hne.
Qed.

Lemma strip_tags_has_char_gt (s : string) :
  forall skip,
    has_char ">" s = false ->
    has_char ">" (Regex.replace_go (Regex.any_tag EmptyString) s skip) = false.
Proof.
  induction s as [|c s IH]; intros skip H; [reflexivity|].
  simpl in H. apply orb_false_iff in H as [Hc Hs].
  destruct skip as [|k]; [|rewrite replace_go_skip; now apply IH].
  rewrite replace_go_here, any_tag_cases.
  rewrite (proj2 (until_gt_None s) Hs).
  destruct (Ascii.eqb c "<"); simpl; rewrite Hc; simpl; now apply IH.
Qed.

(** Whatever the text, nothing that reads as a tag survives the last
    substitution. *)
Lemma strip_tags_untagged (s : string) :
  forall skip,
    tagged (Regex.replace_go (Regex.any_tag EmptyString) s skip) = false.
Proof.
  induction s as [|c s IH]; intros skip; [reflexivity|].
  destruct skip as [|k]; [|rewrite replace_go_skip; apply IH].
  rewrite replace_go_here, any_tag_cases.
  destruct (Ascii.eqb_spec c "<") as [->|Hne].
  - destruct (Regex.until_gt s) as [n|] eqn:Hu; simpl.
    + rewrite app_nil. apply IH.
    + rewrite IH, orb_false_r.
      apply strip_tags_has_char_gt. now apply until_gt_None.
  - simpl. rewrite IH, orb_false_r.
    now rewrite (proj2 (Ascii.eqb_neq _ _) Hne).
Qed.

Lemma htmlToMarkdown_tag_free (html : string) :
  tag_free (htmlToMarkdown html).
Proof. apply tagged_false_tag_free, strip_tags_untagged. Qed.

Lemma htmlToMarkdown_hello :
  htmlToMarkdown "<p>Hello <strong>world</strong></p>"
  = "Hello **world**" +:+ LF +:+ LF.
Proof. reflexivity. Qed.

Example htmlToMarkdown_list :
  htmlToMarkdown
    "<ul><li>a</li><li><b>b</b> <i>c</i></li></ul><br  /><div>t</div><u>q</u>"
  = "- a- **b** *c*" +:+ LF +:+ "t_q_".
Proof. reflexivity. Qed.

Lemma substring_of_app (t a b c : string) :
  substring_of t b -> substring_of t (a +:+ b +:+ c).
Proof.
  intros (pre & post & ->). exists (a +:+ pre), (post +:+ c).
  now rewrite !append_assoc.
Qed.

(** C6.  [htmlToMarkdown] is the table of substitutions [markdown_rules]
    applied in order, the last of which leaves nothing that reads as a tag.
    Exporting as Markdown a note whose content is
    [<p>Hello <strong>world</strong></p>] downloads a file that holds the
    converted content; the converted content holds [Hello **world**], and
    neither angle bracket. *)
Theorem markdown_export_hello
    (toISOString toLocaleDateString : timestamp -> string)
    (stripHtml : string -> string) (w : World) (note : Note) :
  settings_exportFormat w = Some "md" ->
  notes w = [note] ->
  content note = "<p>Hello <strong>world</strong></p>" ->
  (forall html,
     htmlToMarkdown html
     = foldl (fun s rule => Regex.replace_all rule s) html markdown_rules) /\
  (forall html, tag_free (htmlToMarkdown html)) /\
  exists w' file filename,
    exportAllNotes toISOString toLocaleDateString stripHtml w = (Ok tt, w') /\
    In (Download file filename) (out w') /\
    substring_of (htmlToMarkdown (content note)) file /\
    substring_of "Hello **world**" file /\
    substring_of "Hello **world**" (htmlToMarkdown (content note)) /\
    has_char "<" (htmlToMarkdown (content note)) = false /\
    has_char ">" (htmlToMarkdown (content note)) = false.
Proof.
  intros Hf Hn Hc. split; [reflexivity|].
  split; [apply htmlToMarkdown_tag_free|].
  unfold exportAllNotes, formatDate. unfold_M. rewrite Hf. simpl.
  rewrite Hn. simpl. rewrite Hc, htmlToMarkdown_hello.
  assert (Hbody : substring_of "Hello **world**"
                    ("Hello **world**" +:+ LF +:+ LF)).
  { exists EmptyString, (LF +:+ LF). reflexivity. }
  do 3 eexists. split; [reflexivity|]. simpl.
  split; [apply in_or_app; left; apply in_or_app; right; left; reflexivity|].
  match goal with |- context [if ?c then "Today" else ?e] =>
    set (shown := if c then "Today" else e) end.
  assert (Hfile : substring_of ("Hello **world**" +:+ LF +:+ LF)
            (("# " +:+ title note +:+ LF +:+ LF +:+ "*Modified: " +:+ shown
              +:+ "*" +:+ LF +:+ LF +:+ ("Hello **world**" +:+ LF +:+ LF)
              +:+ LF +:+ LF +:+ "---" +:+ LF +:+ LF) +:+ EmptyString)).
  { exists ("# " +:+ title note +:+ LF +:+ LF +:+ "*Modified: " +:+ shown
            +:+ "*" +:+ LF +:+ LF),
           (LF +:+ LF +:+ "---" +:+ LF +:+ LF +:+ EmptyString).
    now rewrite !append_assoc. }
  split; [exact Hfile|].
  split; [|split; [exact Hbody|split; reflexivity]].
  destruct Hfile as (pre & post & ->). destruct Hbody as (pre' & post' & ->).
  exists (pre +:+ pre'), (post' +:+ post). now rewrite !append_assoc.
Qed.

Lemma markdown_export_hello_witness :
  settings_exportFormat markdown_world = Some "md" /\
  notes markdown_world = [clipping] /\
  exists w' file filename,
    exportAllNotes (fun t => pretty t) (fun t => pretty t) (fun s => s)
      markdown_world = (Ok tt, w') /\
    In (Download file filename) (out w') /\
    substring_of "Hello **world**" file.
Proof.
  split; [reflexivity|]. split; [reflexivity|].
  destruct (markdown_export_hello (fun t => pretty t) (fun t => pretty t)
              (fun s => s) markdown_world clipping eq_refl eq_refl eq_refl)
    as (_ & _ & w' & file & filename & Hrun & Hin & _ & Hsub & _).
  exists w', file, filename. auto.
Defined.

(** ** Exporting an empty collection *)

(** C10.  With nothing stored, the export of the options page, whatever the
    format, only shows the error No notes to export: nothing is serialized
    and no file is handed out.  The export of the popup, on its empty
    collection, still hands out one file, whatever the format, the JSON one
    holding the empty array. *)
Theorem empty_collection_exports
    (toISOString toLocaleDateString : timestamp -> string)
    (stripHtml : string -> string) (w : World) (format : option string) :
  get_fails w = false ->
  default [] (local_notes w) = [] ->
  notes w = [] ->
  Options.exportAllNotes toISOString toLocaleDateString stripHtml format w
    = (Ok tt, with_out (out w ++ [SaveStatus "No notes to export" "error"]) w)
  /\
  exists w' file filename,
    exportAllNotes toISOString toLocaleDateString stripHtml w = (Ok tt, w') /\
    out w' = out w ++ [Download file filename;
                       SaveStatus "All notes exported!" "success"] /\
    (or_else (default EmptyString (settings_exportFormat w)) "json" = "json" ->
     file = "[]") /\
    notes w' = [] /\ local_notes w' = local_notes w.
Proof.
  intros Hg Hl Hn. split.
  - unfold Options.exportAllNotes. unfold_M. rewrite Hg, Hl. reflexivity.
  - unfold exportAllNotes. unfold_M. simpl. rewrite Hn.
    set (fmt := or_else _ "json").
    destruct (String.eqb_spec fmt "json") as [Hj|Hj]; simpl.
    { do 3 eexists. split; [reflexivity|]. simpl. rewrite <- app_assoc.
      repeat split; auto. }
    destruct (String.eqb fmt "txt"); simpl.
    { do 3 eexists. split; [reflexivity|]. simpl. rewrite <- app_assoc.
      repeat split; auto. intros; contradiction. }
    destruct (String.eqb fmt "md"); simpl.
    { do 3 eexists. split; [reflexivity|]. simpl. rewrite <- app_assoc.
      repeat split; auto. intros; contradiction. }
    destruct (String.eqb fmt "html"); simpl.
    { do 3 eexists. split; [reflexivity|]. simpl. rewrite <- app_assoc.
      repeat split; auto. intros; contradiction. }
    do 3 eexists. split; [reflexivity|]. simpl. rewrite <- app_assoc.
    repeat split; auto. intros; contradiction.
Qed.

Lemma empty_collection_exports_witness :
  get_fails (empty_world (Some "html")) = false /\
  default [] (local_notes (empty_world (Some "html"))) = [] /\
  notes (empty_world (Some "html")) = [] /\
  Options.exportAllNotes (fun t => pretty t) (fun t => pretty t) (fun s => s)
    (Some "html") (empty_world (Some "html"))
    = (Ok tt, with_out [SaveStatus "No notes to export" "error"]
                (empty_world (Some "html"))) /\
  exists w' file filename,
    exportAllNotes (fun t => pretty t) (fun t => pretty t) (fun s => s)
      (empty_world (Some "html")) = (Ok tt, w') /\
    out w' = [Download file filename;
              SaveStatus "All notes exported!" "success"].
Proof.
  split; [reflexivity|]. split; [reflexivity|]. split; [reflexivity|].
  destruct (empty_collection_exports (fun t => pretty t) (fun t => pretty t)
              (fun s => s) (empty_world (Some "html")) (Some "html")
              eq_refl eq_refl eq_refl)
    as (Hopt & w' & file & filename & Hrun & Hout & _).
  split; [exact Hopt|]. exists w', file, filename. auto.
Defined.

(** ** JSON: what is written is read back *)

Module JSONFacts.
Import JSON.

Example stringify_indents :
  stringify (Arr [Obj [("id", Str "n1"); ("tags", Arr [])]])
  = "[" +:+ LF +:+ "  {" +:+ LF
    +:+ "    " +:+ dquote +:+ "id" +:+ dquote +:+ ": "
    +:+ dquote +:+ "n1" +:+ dquote +:+ "," +:+ LF
    +:+ "    " +:+ dquote +:+ "tags" +:+ dquote +:+ ": []" +:+ LF
    +:+ "  }" +:+ LF +:+ "]".
Proof. reflexivity. Qed.

Example quote_escapes :
  quote (String "034" ("a\" +:+ LF +:+ String "001" EmptyString))
  = dquote +:+ "\" +:+ dquote +:+ "a\\\n\u0001" +:+ dquote.
Proof. reflexivity. Qed.

(** Induction over values, with the hypothesis for every item of an array
    and every member of an object. *)
Section ValueInduction.
Context (P : value -> Prop).
Hypothesis P_Null : P Null.
Hypothesis P_Bool : forall b, P (Bool b).
Hypothesis P_Str : forall s, P (Str s).
Hypothesis P_Arr : forall items, Forall P items -> P (Arr items).
Hypothesis P_Obj :
  forall members, Forall (fun m => P (snd m)) members -> P (Obj members).

Lemma value_induction (v : value) : P v.
Proof.
  revert v. fix IH 1. intros [ | b | s | items | members ].
  - exact P_Null.
  - exact (P_Bool b).
  - exact (P_Str s).
  - apply P_Arr. induction items as [|x items IHitems]; constructor.
    + apply IH.
    + exact IHitems.
  - apply P_Obj. induction members as [|m members IHmembers]; constructor.
    + apply IH.
    + exact IHmembers.
Qed.
End ValueInduction.

Lemma parse_quote_char (c : ascii) (rest : string) :
  parse_chars (quote_char c +:+ rest) = push c (parse_chars rest).
Proof.
  destruct c as [[] [] [] [] [] [] [] []]; reflexivity.
Qed.

Lemma parse_quote_chars (s rest : string) :
  parse_chars (quote_chars s +:+ dquote +:+ rest) = Some (s, rest).
Proof.
  induction s as [|c s IH]; [reflexivity|].
  simpl quote_chars. rewrite append_assoc, parse_quote_char, IH.
  reflexivity.
Qed.

Lemma length_app (a b : string) :
  String.length (a +:+ b) = (String.length a + String.length b)%nat.
Proof.
  induction a as [|x a IH]; [reflexivity|].
  rewrite app_cons. simpl. now rewrite IH.
Qed.

Lemma skip_space_repeat (n : nat) (s : string) :
  skip_space (JsString.repeat "  " n +:+ s) = skip_space s.
Proof.
  induction n as [|n IH]; [reflexivity|].
  simpl JsString.repeat. rewrite append_assoc. exact IH.
Qed.

Lemma skip_space_newline (depth : nat) (s : string) :
  skip_space (newline depth +:+ s) = skip_space s.
Proof.
  unfold newline. rewrite append_assoc.
  change (skip_space (LF +:+ ?x)) with (skip_space x).
  apply skip_space_repeat.
Qed.

Lemma stringify_head (v : value) (depth : nat) (rest : string) :
  exists c r, stringify_at depth v +:+ rest = String c r /\ opens_value c.
Proof.
  unfold opens_value.
  destruct v as [|[]|s|[|x items]|[|m members]];
    eexists _, _; (split; [reflexivity|]); tauto.
Qed.

Lemma skip_space_value (v : value) (depth : nat) (rest : string) :
  skip_space (stringify_at depth v +:+ rest) = stringify_at depth v +:+ rest.
Proof.
  destruct (stringify_head v depth rest) as (c & r & -> & Hc).
  destruct Hc as [->|[->|[->|[->|[->| ->]]]]]; reflexivity.
Qed.

Lemma parse_value_skip (fuel : nat) (s s' : string) :
  skip_space s = skip_space s' -> parse_value fuel s = parse_value fuel s'.
Proof. intros H. destruct fuel; simpl; [reflexivity|]. now rewrite H. Qed.

Lemma parse_members_skip (fuel : nat) (s s' : string) :
  skip_space s = skip_space s' ->
  parse_members fuel s = parse_members fuel s'.
Proof. intros H. destruct fuel; simpl; [reflexivity|]. now rewrite H. Qed.

Lemma stringify_array (depth : nat) (x : value) (items : list value)
    (rest : string) :
  stringify_at depth (Arr (x :: items)) +:+ rest
  = String "[" (elements_text depth (x :: items) rest).
Proof.
  unfold elements_text.
  change (stringify_at depth (Arr (x :: items)))
    with ("[" +:+ newline (S depth)
          +:+ join_with ("," +:+ newline (S depth))
                (map (stringify_at (S depth)) (x :: items))
          +:+ newline depth +:+ "]").
  rewrite !append_assoc. reflexivity.
Qed.

Lemma stringify_object (depth : nat) (m : string * value)
    (members : list (string * value)) (rest : string) :
  stringify_at depth (Obj (m :: members)) +:+ rest
  = String "{" (members_text depth (m :: members) rest).
Proof.
  unfold members_text.
  change (stringify_at depth (Obj (m :: members)))
    with ("{" +:+ newline (S depth)
          +:+ join_with ("," +:+ newline (S depth))
                (map (member_text depth) (m :: members))
          +:+ newline depth +:+ "}").
  rewrite !append_assoc. reflexivity.
Qed.

Lemma elements_text_last (depth : nat) (x : value) (rest : string) :
  elements_text depth [x] rest
  = newline (S depth) +:+ stringify_at (S depth) x
    +:+ newline depth +:+ "]" +:+ rest.
Proof. reflexivity. Qed.

Lemma elements_text_more (depth : nat) (x y : value) (items : list value)
    (rest : string) :
  elements_text depth (x :: y :: items) rest
  = newline (S depth) +:+ stringify_at (S depth) x
    +:+ String "," (elements_text depth (y :: items) rest).
Proof.
  unfold elements_text. simpl map. simpl join_with.
  now rewrite !append_assoc.
Qed.

Lemma members_text_last (depth : nat) (m : string * value) (rest : string) :
  members_text depth [m] rest
  = newline (S depth) +:+ String "034" (quote_chars (fst m) +:+ dquote
    +:+ String ":" (" " +:+ stringify_at (S depth) (snd m)
    +:+ newline depth +:+ "}" +:+ rest)).
Proof.
  unfold members_text, member_text, quote. simpl map. simpl join_with.
  rewrite !append_assoc. reflexivity.
Qed.

Lemma members_text_more (depth : nat) (m m' : string * value)
    (members : list (string * value)) (rest : string) :
  members_text depth (m :: m' :: members) rest
  = newline (S depth) +:+ String "034" (quote_chars (fst m) +:+ dquote
    +:+ String ":" (" " +:+ stringify_at (S depth) (snd m)
    +:+ String "," (members_text depth (m' :: members) rest))).
Proof.
  unfold members_text, member_text, quote. simpl map. simpl join_with.
  rewrite !append_assoc. reflexivity.
Qed.

Lemma parse_elements_text (items : list value) :
  Forall reads_back items ->
  items <> [] ->
  forall (depth fuel : nat) (rest : string),
    (list_sum (map (fun x => S (json_size x)) items) <= fuel)%nat ->
    parse_elements fuel (elements_text depth items rest) = Some (items, rest).
Proof.
  induction 1 as [|x items Hx Hitems IH]; intros Hne depth fuel rest Hfuel;
    [congruence|].
  simpl in Hfuel. destruct fuel as [|fuel]; [lia|].
  destruct items as [|y items].
  - rewrite elements_text_last. cbn [parse_elements].
    rewrite (parse_value_skip fuel _
               (stringify_at (S depth) x +:+ newline depth +:+ "]" +:+ rest))
      by apply skip_space_newline.
    rewrite Hx by lia. cbn [mbind option_bind].
    rewrite skip_space_newline. reflexivity.
  - rewrite elements_text_more. cbn [parse_elements].
    rewrite (parse_value_skip fuel _
               (stringify_at (S depth) x
                +:+ String "," (elements_text depth (y :: items) rest)))
      by apply skip_space_newline.
    rewrite Hx by lia. cbn [mbind option_bind].
    change (skip_space (String "," ?s)) with (String "," s). cbv iota beta.
    rewrite IH; [reflexivity|discriminate|]. simpl in *. lia.
Qed.

Lemma parse_members_text (members : list (string * value)) :
  Forall (fun m => reads_back (snd m)) members ->
  members <> [] ->
  forall (depth fuel : nat) (rest : string),
    (list_sum (map (fun m => S (json_size (snd m))) members) <= fuel)%nat ->
    parse_members fuel (members_text depth members rest)
    = Some (members, rest).
Proof.
  induction 1 as [|[key v] members Hv Hmembers IH];
    intros Hne depth fuel rest Hfuel; [congruence|].
  simpl in Hfuel, Hv. destruct fuel as [|fuel]; [lia|].
  destruct members as [|m' members].
  - rewrite members_text_last. cbn [parse_members fst snd].
    rewrite skip_space_newline.
    change (skip_space (String "034" ?s)) with (String "034" s).
    cbv iota beta. rewrite parse_quote_chars. cbn [mbind option_bind].
    change (skip_space (String ":" ?s)) with (String ":" s). cbv iota beta.
    rewrite (parse_value_skip fuel _
               (stringify_at (S depth) v +:+ newline depth +:+ "}" +:+ rest))
      by reflexivity.
    rewrite Hv by lia. cbn [mbind option_bind].
    rewrite skip_space_newline. reflexivity.
  - rewrite members_text_more. cbn [parse_members fst snd].
    rewrite skip_space_newline.
    change (skip_space (String "034" ?s)) with (String "034" s).
    cbv iota beta. rewrite parse_quote_chars. cbn [mbind option_bind].
    change (skip_space (String ":" ?s)) with (String ":" s). cbv iota beta.
    rewrite (parse_value_skip fuel _
               (stringify_at (S depth) v
                +:+ String "," (members_text depth (m' :: members) rest)))
      by reflexivity.
    rewrite Hv by lia. cbn [mbind option_bind].
    change (skip_space (String "," ?s)) with (String "," s). cbv iota beta.
    rewrite IH; [reflexivity|discriminate|]. simpl in *. lia.
Qed.

Lemma skip_space_elements (depth : nat) (x : value) (items : list value)
    (rest : string) :
  exists c r,
    skip_space (elements_text depth (x :: items) rest) = String c r /\
    opens_value c.
Proof.
  destruct items as [|y items].
  - rewrite elements_text_last, skip_space_newline, skip_space_value.
    apply stringify_head.
  - rewrite elements_text_more, skip_space_newline, skip_space_value.
    apply stringify_head.
Qed.

Lemma skip_space_members (depth : nat) (m : string * value)
    (members : list (string * value)) (rest : string) :
  exists r,
    skip_space (members_text depth (m :: members) rest) = String "034" r.
Proof.
  destruct members as [|m' members].
  - rewrite members_text_last, skip_space_newline. eexists. reflexivity.
  - rewrite members_text_more, skip_space_newline. eexists. reflexivity.
Qed.

Theorem stringify_reads_back (v : value) : reads_back v.
Proof.
  induction v as [| b | s | items IH | members IH] using value_induction;
    intros depth fuel rest Hfuel;
    (destruct fuel as [|fuel]; [simpl in Hfuel; lia|]).
  - reflexivity.
  - destruct b; reflexivity.
  - change (stringify_at depth (Str s) +:+ rest)
      with (String "034" (quote_chars s +:+ dquote) +:+ rest).
    rewrite app_cons, append_assoc. cbn [parse_value].
    change (skip_space (String "034" ?x)) with (String "034" x).
    cbv iota beta. now rewrite parse_quote_chars.
  - destruct items as [|x items]; [reflexivity|].
    rewrite stringify_array. cbn [parse_value].
    change (skip_space (String "[" ?s)) with (String "[" s). cbv iota beta.
    destruct (skip_space_elements depth x items rest) as (c & r & -> & Hc).
    rewrite parse_elements_text;
      [|exact IH|discriminate|simpl in Hfuel |- *; lia].
    destruct Hc as [->|[->|[->|[->|[->| ->]]]]]; reflexivity.
  - destruct members as [|m members]; [reflexivity|].
    rewrite stringify_object. cbn [parse_value].
    change (skip_space (String "{" ?s)) with (String "{" s). cbv iota beta.
    destruct (skip_space_members depth m members rest) as (r & ->).
    rewrite parse_members_text;
      [reflexivity|exact IH|discriminate|simpl in Hfuel |- *; lia].
Qed.

Lemma length_join_with (sep : string) (parts : list string) :
  (1 <= String.length sep)%nat ->
  (list_sum (map (fun p => S (String.length p)) parts)
   <= S (String.length (join_with sep parts)))%nat.
Proof.
  intros Hsep. induction parts as [|p [|q parts] IH]; simpl in *; [lia|lia|].
  rewrite !length_app. lia.
Qed.

Lemma length_newline (depth : nat) : (1 <= String.length (newline depth))%nat.
Proof. unfold newline. rewrite length_app. simpl. lia. Qed.

Lemma json_size_length (v : value) :
  forall depth, (json_size v <= String.length (stringify_at depth v))%nat.
Proof.
  induction v as [| b | s | items IH | members IH] using value_induction;
    intros depth.
  - simpl. lia.
  - destruct b; simpl; lia.
  - simpl. lia.
  - destruct items as [|x items]; [simpl; lia|].
    change (stringify_at depth (Arr (x :: items)))
      with ("[" +:+ newline (S depth)
            +:+ join_with ("," +:+ newline (S depth))
                  (map (stringify_at (S depth)) (x :: items))
            +:+ newline depth +:+ "]").
    rewrite !length_app.
    pose proof (length_join_with ("," +:+ newline (S depth))
                  (map (stringify_at (S depth)) (x :: items))) as Hj.
    rewrite length_app in Hj. specialize (Hj ltac:(simpl; lia)).
    rewrite map_map in Hj.
    assert (Hsum : (list_sum (map (fun y => S (json_size y)) (x :: items))
                    <= list_sum (map (fun y => S (String.length
                                        (stringify_at (S depth) y)))
                                     (x :: items)))%nat).
    { clear Hj. induction IH as [|y l Hy _ IHl]; simpl; [lia|].
      specialize (Hy (S depth)). simpl in IHl. lia. }
    pose proof (length_newline (S depth)).
    change (json_size (Arr (x :: items)))
      with (S (list_sum (map (fun y => S (json_size y)) (x :: items)))).
    simpl (String.length "["). lia.
  - destruct members as [|m members]; [simpl; lia|].
    change (stringify_at depth (Obj (m :: members)))
      with ("{" +:+ newline (S depth)
            +:+ join_with ("," +:+ newline (S depth))
                  (map (member_text depth) (m :: members))
            +:+ newline depth +:+ "}").
    rewrite !length_app.
    pose proof (length_join_with ("," +:+ newline (S depth))
                  (map (member_text depth) (m :: members))) as Hj.
    rewrite length_app in Hj. specialize (Hj ltac:(simpl; lia)).
    rewrite map_map in Hj.
    assert (Hsum : (list_sum (map (fun y => S (json_size (snd y)))
                                  (m :: members))
                    <= list_sum (map (fun y => S (String.length
                                        (member_text depth y)))
                                     (m :: members)))%nat).
    { clear Hj. induction IH as [|y l Hy _ IHl]; simpl; [lia|].
      specialize (Hy (S depth)). unfold member_text.
      rewrite !length_app. simpl in IHl. unfold member_text in IHl. lia. }
    pose proof (length_newline (S depth)).
    change (json_size (Obj (m :: members)))
      with (S (list_sum (map (fun y => S (json_size (snd y)))
                             (m :: members)))).
    simpl (String.length "{"). lia.
Qed.

Lemma append_empty (s : string) : s +:+ EmptyString = s.
Proof.
  induction s as [|c s IH]; [reflexivity|]. now rewrite app_cons, IH.
Qed.

(** [JSON.parse(JSON.stringify(v, null, 2))] is [v]. *)
Theorem parse_stringify (v : value) : parse (stringify v) = Some v.
Proof.
  unfold parse, stringify.
  rewrite <- (append_empty (stringify_at 0 v)) at 2.
  rewrite stringify_reads_back; [reflexivity|].
  pose proof (json_size_length v 0). lia.
Qed.

End JSONFacts.

Lemma note_value_inj (toISOString : timestamp -> string) (a b : Note) :
  (forall t t', toISOString t = toISOString t' -> t = t') ->
  note_value toISOString a = note_value toISOString b -> a = b.
Proof.
  intros Hinj. destruct a as [i1 t1 c1 g1 k1 cr1 m1], b as [i2 t2 c2 g2 k2 cr2 m2].
  unfold note_value. simpl.
  destruct g1 as [g1|], g2 as [g2|], k1 as [k1|], k2 as [k2|]; simpl;
    intros H; injection H; intros; try discriminate; subst;
    repeat match goal with
           | H : toISOString _ = toISOString _ |- _ => apply Hinj in H; subst
           end;
    try reflexivity.
  - f_equal. f_equal.
    match goal with H : JSON.Str <$> _ = JSON.Str <$> _ |- _ =>
      revert H end.
    clear. revert g2. induction g1 as [|x g1 IH]; intros [|y g2] H;
      try discriminate; [reflexivity|].
    injection H as -> H. f_equal. now apply IH.
  - f_equal. f_equal.
    match goal with H : JSON.Str <$> _ = JSON.Str <$> _ |- _ =>
      revert H end.
    clear. revert g2. induction g1 as [|x g1 IH]; intros [|y g2] H;
      try discriminate; [reflexivity|].
    injection H as -> H. f_equal. now apply IH.
Qed.

Lemma notes_value_inj (toISOString : timestamp -> string) (ns ns' : list Note) :
  (forall t t', toISOString t = toISOString t' -> t = t') ->
  notes_value toISOString ns = notes_value toISOString ns' -> ns = ns'.
Proof.
  intros Hinj H. injection H as H. revert ns' H.
  induction ns as [|a ns IH]; intros [|b ns'] H; try discriminate;
    [reflexivity|].
  assert (Hcons : forall (x y : JSON.value) l l',
             x :: l = y :: l' -> x = y /\ l = l')
    by (intros x y l l' [= -> ->]; auto).
  apply Hcons in H as [Ha H].
  f_equal; [now apply (note_value_inj toISOString)|]. now apply IH.
Qed.

(** ** Exporting as JSON *)

(** C5.  The JSON text of a note collection parses back to the collection:
    the same notes, in the same order, each with the same properties and the
    same values.  That text is what the JSON export of the popup hands out
    for the collection in memory, and what the export of the options page
    hands out for the stored collection. *)
Theorem json_export_round_trip
    (toISOString toLocaleDateString : timestamp -> string)
    (stripHtml : string -> string) :
  (forall ns,
     JSON.parse (JSON.stringify (notes_value toISOString ns))
     = Some (notes_value toISOString ns)) /\
  (forall ns ns',
     (forall t t', toISOString t = toISOString t' -> t = t') ->
     JSON.parse (JSON.stringify (notes_value toISOString ns))
     = Some (notes_value toISOString ns') ->
     ns' = ns) /\
  (forall w,
     or_else (default EmptyString (settings_exportFormat w)) "json" = "json" ->
     exists w' filename,
       exportAllNotes toISOString toLocaleDateString stripHtml w
       = (Ok tt, w') /\
       In (Download (JSON.stringify (notes_value toISOString (notes w)))
                    filename) (out w')) /\
  (forall w stored,
     get_fails w = false ->
     local_notes w = Some stored ->
     stored <> [] ->
     exists w' filename,
       Options.exportAllNotes toISOString toLocaleDateString stripHtml
         (Some "json") w = (Ok tt, w') /\
       In (Download (JSON.stringify (notes_value toISOString stored))
                    filename) (out w')).
Proof.
  split; [intros ns; apply JSONFacts.parse_stringify|].
  split; [|split].
  - intros ns ns' Hinj H. rewrite JSONFacts.parse_stringify in H.
    assert (E : notes_value toISOString ns = notes_value toISOString ns')
      by congruence.
    symmetry. exact (notes_value_inj toISOString ns ns' Hinj E).
  - intros w Hf. unfold exportAllNotes. unfold_M. simpl. rewrite Hf. simpl.
    eexists _, _. split; [reflexivity|]. simpl.
    apply in_or_app; left; apply in_or_app; right; left; reflexivity.
  - intros w stored Hg Hl Hne. unfold Options.exportAllNotes. unfold_M.
    rewrite Hg, Hl. simpl. destruct stored as [|n stored]; [congruence|].
    simpl. eexists _, _. split; [reflexivity|]. simpl.
    apply in_or_app; left; apply in_or_app; right; left; reflexivity.
Qed.

(** * Further properties of the scripts *)

(** ** Sorting the list *)

Section SortMore.
Context {A : Type} (cmp : A -> A -> Z) (R : A -> A -> Prop).
Hypothesis R_cmp : forall x y, R x y -> cmp x y <= 0.

(** A list already in order is left as it is. *)
Lemma sort_sorted_same (l : list A) : StronglySorted R l -> sort cmp l = l.
Proof.
  induction 1 as [|x l Hs IH Hx]; [reflexivity|].
  unfold sort in *. simpl. rewrite IH.
  destruct l as [|y l]; [reflexivity|]. simpl.
  apply Forall_cons in Hx as [Hxy _].
  now rewrite (proj2 (Z.leb_le _ _) (R_cmp _ _ Hxy)).
Qed.

End SortMore.

(** X1.  [sortNotes] only renders: the collection in memory and the stored
    one stay as they are, and the world is [rendered], the clock being read
    once for each note shown where the page has the list.  What it hands to
    [renderNotes] is a rearrangement of the collection: latest created first
    for [created], by title for [title] when [localeCompare] orders strings
    consistently, and latest modified first for any other criterion. *)
Theorem sortNotes_spec (localeCompare : string -> string -> Z) (w : World)
    (sortBy : string) :
  exists shown,
    sortNotes localeCompare sortBy w = (Ok tt, rendered shown w) /\
    Permutation shown (notes w) /\
    (sortBy = "created" ->
       StronglySorted (fun a b => created b <= created a) shown) /\
    (sortBy = "title" ->
       (forall s t, ~ localeCompare s t <= 0 -> localeCompare t s <= 0) ->
       (forall s t u, localeCompare s t <= 0 -> localeCompare t u <= 0 ->
                      localeCompare s u <= 0) ->
       StronglySorted
         (fun a b => localeCompare (title a) (title b) <= 0) shown) /\
    (sortBy <> "created" -> sortBy <> "title" ->
       StronglySorted newer_first shown).
Proof.
  unfold sortNotes. unfold mbind, M_bind, bind, gets.
  rewrite renderNotes_run. cbn [default].
  destruct (String.eqb_spec sortBy "created") as [Hc|Hc];
    [|destruct (String.eqb_spec sortBy "title") as [Ht|Ht]];
    (eexists; split; [reflexivity|]); (split; [apply sort_Permutation|]).
  - split; [|split; [subst; discriminate|congruence]].
    intros _. apply sort_sorted; unfold by_created_desc; intros; lia.
  - split; [congruence|]. split; [|congruence].
    intros _ Htotal Htrans. apply sort_sorted; unfold by_title; eauto.
  - split; [congruence|]. split; [congruence|].
    intros _ _. apply sort_by_modified_sorted.
Qed.

(** ** Storing and loading again *)

(** X2.  With a backend that accepts the write and the read, [saveNotes]
    followed by [loadNotes] gives the collection back, rearranged latest
    modified first, and exactly as it was when it was already in that
    order; the backend holds the collection as it was saved. *)
Theorem save_then_load (w : World) :
  set_fails w = false ->
  get_fails w = false ->
  let w' := snd (loadNotes (snd (saveNotes w))) in
  fst (loadNotes (snd (saveNotes w))) = Ok tt /\
  Permutation (notes w') (notes w) /\
  StronglySorted newer_first (notes w') /\
  (StronglySorted newer_first (notes w) -> notes w' = notes w) /\
  local_notes w' = Some (notes w).
Proof.
  intros Hs Hg. rewrite saveNotes_run. cbn [snd].
  unfold loadNotes. unfold_M. simpl. autorewrite with world. rewrite Hg.
  simpl. rewrite !after_write_local_notes, Hs. simpl.
  split; [reflexivity|]. split; [apply sort_Permutation|].
  split; [apply sort_by_modified_sorted|]. split; [|reflexivity].
  intros Hsorted. apply (sort_sorted_same _ newer_first); [|exact Hsorted].
  unfold newer_first, by_modified_desc. intros; lia.
Qed.

Lemma save_then_load_witness :
  set_fails (editing_world "Groceries" "<p>milk</p>") = false /\
  get_fails (editing_world "Groceries" "<p>milk</p>") = false /\
  StronglySorted newer_first
    (notes (snd (loadNotes
                   (snd (saveNotes
                           (editing_world "Groceries" "<p>milk</p>")))))) /\
  local_notes (snd (loadNotes
                      (snd (saveNotes
                              (editing_world "Groceries" "<p>milk</p>")))))
  = Some [groceries; clipping].
Proof.
  split; [reflexivity|]. split; [reflexivity|].
  destruct (save_then_load (editing_world "Groceries" "<p>milk</p>")
              eq_refl eq_refl) as (_ & _ & Hsorted & _ & Hstored).
  split; [exact Hsorted|exact Hstored].
Defined.

(** ** What a save does to the collection *)

(** Whatever holds of the collection and is kept by an upsert holds after
    [saveCurrentNote], however often the modal asks to save again. *)
Lemma saveCurrentNote_fuel_notes (P : list Note -> Prop) :
  (forall s l, P l -> P (upsert s l)) ->
  forall (fuel : nat) (w : World) (showFeedback : bool),
    P (notes w) -> P (notes (snd (saveCurrentNote_fuel fuel showFeedback w))).
Proof.
  intros HP. induction fuel as [|fuel IH]; intros w sf Hw; [exact Hw|].
  simpl.
  destruct (currentNote w) as [note|] eqn:Hc;
    [|unfold saveCurrentNote_body; unfold_M; now rewrite Hc].
  destruct (noteTitle w) as [tv|] eqn:Ht;
    [|unfold saveCurrentNote_body; unfold_M; now rewrite Hc, Ht].
  destruct (noteEditor w) as [ev|] eqn:He;
    [|unfold saveCurrentNote_body; unfold_M; now rewrite Hc, Ht, He].
  destruct (falsy (trim tv) && falsy (trim ev)) eqn:Hb.
  { unfold saveCurrentNote_body. unfold_M. rewrite Hc, Ht, He, Hb.
    now destruct sf. }
  rewrite (saveCurrentNote_body_run _ _ _ _ _ _ Hc Ht He Hb). cbv zeta.
  set (saved := saved_note note tv ev (clock w (ticks w))).
  assert (H1 : P (upsert saved (notes w))) by now apply HP.
  destruct sf; [|simpl; now autorewrite with world].
  rewrite closeNoteModal_with_run.
  match goal with |- context [if ?b then _ else _] => destruct b end;
    [|simpl; now autorewrite with world].
  match goal with |- context [match confirms ?x with _ => _ end] =>
    destruct (confirms x) as [|[] rest] end;
    try (simpl; now autorewrite with world).
  apply IH. simpl. now autorewrite with world.
Qed.

Lemma upsert_ids (s : Note) (l : list Note) :
  NoDup (map id l) -> NoDup (map id (upsert s l)).
Proof.
  intros Hl. unfold upsert.
  destruct (findIndex_id (id s) l) as [i|] eqn:E.
  - apply findIndex_id_Some in E as (n & Hn & Hid & _).
    change (map id (<[i:=s]> l)) with (id <$> <[i:=s]> l).
    rewrite list_fmap_insert.
    rewrite list_insert_id; [exact Hl|].
    rewrite list_lookup_fmap, Hn. simpl. now rewrite Hid.
  - simpl. constructor; [|exact Hl].
    rewrite list_elem_of_In, in_map_iff. intros (n & Hid & Hin).
    apply (proj1 (findIndex_id_None _ _) E n Hin Hid).
Qed.

Lemma filter_ids (f : Note -> bool) (l : list Note) :
  NoDup (map id l) -> NoDup (map id (List.filter f l)).
Proof.
  induction l as [|x l IH]; simpl; intros H; [exact H|].
  apply NoDup_cons in H as [Hx Hl].
  destruct (f x); simpl; [|now apply IH].
  constructor; [|now apply IH].
  rewrite list_elem_of_In, in_map_iff in *. intros (n & Hid & Hin).
  apply Hx. exists n. split; [exact Hid|].
  apply filter_In in Hin. tauto.
Qed.

(** X3.  Distinct ids stay distinct: when no two notes of the collection
    share an id, none do after [saveCurrentNote], in whatever way it ends,
    nor after [deleteNote]. *)
Theorem save_and_delete_keep_ids_distinct (w : World) :
  NoDup (map id (notes w)) ->
  (forall showFeedback,
     NoDup (map id (notes (snd (saveCurrentNote showFeedback w))))) /\
  (forall noteId, NoDup (map id (notes (snd (deleteNote noteId w))))).
Proof.
  intros Hw. split.
  - intros sf. unfold saveCurrentNote.
    apply (saveCurrentNote_fuel_notes (fun l => NoDup (map id l)));
      [apply upsert_ids|exact Hw].
  - intros noteId. rewrite deleteNote_run.
    destruct (confirms w) as [|[] rest]; try exact Hw.
    cbv zeta. cbn [snd notes with_out]. autorewrite with world.
    cbn [notes with_notes]. now apply filter_ids.
Qed.

Lemma save_and_delete_keep_ids_distinct_witness :
  NoDup (map id (notes (drafting_world "Ideas" "<p>more</p>" [true]))) /\
  NoDup (map id (notes (snd (saveCurrentNote true
                               (drafting_world "Ideas" "<p>more</p>"
                                  [true]))))).
Proof.
  assert (H : NoDup (map id (notes (drafting_world "Ideas" "<p>more</p>"
                                      [true])))).
  { simpl. repeat constructor; rewrite list_elem_of_In; simpl;
      intros H; repeat destruct H as [H|H]; try discriminate; exact H. }
  split; [exact H|].
  exact (proj1 (save_and_delete_keep_ids_distinct _ H) true).
Defined.

(** What an auto-save leaves. *)
Lemma autosave_run (w : World) (note : Note)
    (title_value editor_html : string) :
  currentNote w = Some note ->
  noteTitle w = Some title_value ->
  noteEditor w = Some editor_html ->
  falsy (trim title_value) && falsy (trim editor_html) = false ->
  saveCurrentNote false w
  = (Ok tt, saved_world w note title_value editor_html).
Proof.
  intros Hc Ht He Hb. unfold saveCurrentNote. simpl.
  now rewrite (saveCurrentNote_body_run _ _ _ _ _ _ Hc Ht He Hb).
Qed.

Lemma not_both_empty (title_value editor_html : string) :
  ~ (trim title_value = EmptyString /\ trim editor_html = EmptyString) ->
  falsy (trim title_value) && falsy (trim editor_html) = false.
Proof.
  intros Hne. apply andb_false_iff. unfold falsy.
  destruct (trim title_value); [|now left].
  destruct (trim editor_html); [|now right].
  exfalso. apply Hne. now split.
Qed.

Lemma upsert_length_present (s : Note) (l : list Note) :
  (exists n, In n l /\ id n = id s) -> length (upsert s l) = length l.
Proof.
  intros (n & Hin & Hid). unfold upsert.
  destruct (findIndex_id (id s) l) as [i|] eqn:E; [apply length_insert|].
  exfalso. exact (proj1 (findIndex_id_None _ _) E n Hin Hid).
Qed.

(** X4.  Two auto-saves in a row, the fields untouched in between, leave
    what the second alone would have left: the same collection, the same
    current note and the same stored collection as one auto-save made at the
    reading of the clock the second one takes; the second adds no note. *)
Theorem autosave_twice (w : World) (note : Note)
    (title_value editor_html : string) :
  currentNote w = Some note ->
  noteTitle w = Some title_value ->
  noteEditor w = Some editor_html ->
  ~ (trim title_value = EmptyString /\ trim editor_html = EmptyString) ->
  let first := snd (saveCurrentNote false w) in
  let second := snd (saveCurrentNote false first) in
  let later := snd (saveCurrentNote false (with_ticks (ticks first) w)) in
  notes second = notes later /\
  currentNote second = currentNote later /\
  local_notes second = local_notes later /\
  length (notes second) = length (notes first).
Proof.
  intros Hc Ht He Hne. pose proof (not_both_empty _ _ Hne) as Hb.
  cbv zeta. rewrite (autosave_run w note _ _ Hc Ht He Hb). cbn [snd].
  set (first := saved_world w note title_value editor_html).
  set (s1 := saved_note note title_value editor_html (clock w (ticks w))).
  rewrite (autosave_run first s1 title_value editor_html);
    [|subst first; now autorewrite with world..|exact Hb].
  rewrite (autosave_run (with_ticks (ticks first) w) note _ _ Hc Ht He Hb).
  cbn [snd]. autorewrite with world.
  rewrite !saved_world_local_notes.
  cbn [clock ticks notes set_fails local_notes with_ticks].
  subst first. autorewrite with world. rewrite saved_world_local_notes.
  fold s1. unfold s1 at 1 3. rewrite saved_note_again.
  rewrite !(upsert_upsert s1) by reflexivity.
  split; [reflexivity|]. split; [reflexivity|]. split.
  - now destruct (set_fails w).
  - rewrite <- (upsert_upsert s1) by reflexivity.
    apply upsert_length_present. exists s1. split; [apply upsert_has|].
    reflexivity.
Qed.

Lemma autosave_twice_witness :
  ~ (trim "Ideas" = EmptyString /\ trim "<p>more</p>" = EmptyString) /\
  length (notes (snd (saveCurrentNote false
                        (snd (saveCurrentNote false
                                (drafting_world "Ideas" "<p>more</p>" []))))))
  = length (notes (snd (saveCurrentNote false
                          (drafting_world "Ideas" "<p>more</p>" [])))).
Proof.
  assert (H : ~ (trim "Ideas" = EmptyString /\
                 trim "<p>more</p>" = EmptyString))
    by (intros [? _]; discriminate).
  split; [exact H|].
  exact (proj2 (proj2 (proj2
           (autosave_twice (drafting_world "Ideas" "<p>more</p>" []) draft
              "Ideas" "<p>more</p>" eq_refl eq_refl eq_refl H)))).
Defined.

(** A save leaves the backend's mood and the clock as they are. *)
Lemma saveCurrentNote_fuel_environment (fuel : nat) :
  forall (w : World) (showFeedback : bool),
    let w' := snd (saveCurrentNote_fuel fuel showFeedback w) in
    set_fails w' = set_fails w /\ get_fails w' = get_fails w /\
    clock w' = clock w.
Proof.
  induction fuel as [|fuel IH]; intros w sf; [simpl; auto|].
  simpl.
  destruct (currentNote w) as [note|] eqn:Hc;
    [|unfold saveCurrentNote_body; unfold_M; rewrite Hc; simpl; auto].
  destruct (noteTitle w) as [tv|] eqn:Ht;
    [|unfold saveCurrentNote_body; unfold_M; rewrite Hc, Ht; simpl; auto].
  destruct (noteEditor w) as [ev|] eqn:He;
    [|unfold saveCurrentNote_body; unfold_M; rewrite Hc, Ht, He; simpl; auto].
  destruct (falsy (trim tv) && falsy (trim ev)) eqn:Hb.
  { unfold saveCurrentNote_body. unfold_M. rewrite Hc, Ht, He, Hb.
    destruct sf; simpl; auto. }
  rewrite (saveCurrentNote_body_run _ _ _ _ _ _ Hc Ht He Hb). cbv zeta.
  destruct sf; [|simpl; autorewrite with world; simpl; auto].
  rewrite closeNoteModal_with_run.
  match goal with |- context [if ?b then _ else _] => destruct b end;
    [|simpl; autorewrite with world; simpl; auto].
  match goal with |- context [match confirms ?x with _ => _ end] =>
    destruct (confirms x) as [|[] rest] end;
    try (simpl; autorewrite with world; simpl; now auto).
  match goal with |- context [saveCurrentNote_fuel fuel true ?x] =>
    destruct (IH x true) as (H1 & H2 & H3) end.
  rewrite H1, H2, H3. simpl. autorewrite with world. simpl. auto.
Qed.

(** What a confirmed delete leaves, field by field. *)
Lemma deleteNote_confirmed (noteId : string) (w : World) (rest : list bool) :
  confirms w = true :: rest ->
  let w' := snd (deleteNote noteId w) in
  let kept := List.filter (fun n => negb (String.eqb (id n) noteId))
                (notes w) in
  fst (deleteNote noteId w) = Ok tt /\
  notes w' = kept /\
  local_notes w' = (if set_fails w then local_notes w else Some kept) /\
  confirms w' = rest /\ set_fails w' = set_fails w /\
  currentNote w' = currentNote w /\ isEditing w' = isEditing w.
Proof.
  intros Hc. cbv zeta. rewrite deleteNote_run, Hc. cbv zeta. cbn [fst snd].
  world_fields. rewrite after_write_local_notes.
  cbn [notes set_fails local_notes confirms currentNote isEditing
       with_notes with_confirms].
  repeat split; reflexivity.
Qed.

Lemma filter_other_id (noteId : string) (l : list Note) :
  (forall other, In other l -> id other <> noteId) ->
  List.filter (fun n => negb (String.eqb (id n) noteId)) l = l.
Proof.
  intros H. apply filter_all. intros x Hx. now apply id_differs, H.
Qed.

(** X5.  Saving a note whose id is new to the collection and then deleting
    that id gives the collection back as it was before the save, in memory
    and, with a backend that accepts writes, in the store. *)
Theorem save_then_delete_restores (w : World) (showFeedback : bool)
    (note : Note) (title_value editor_html : string) (answers : list bool) :
  currentNote w = Some note ->
  noteTitle w = Some title_value ->
  noteEditor w = Some editor_html ->
  ~ (trim title_value = EmptyString /\ trim editor_html = EmptyString) ->
  (forall other, In other (notes w) -> id other <> id note) ->
  let saved := snd (saveCurrentNote showFeedback w) in
  let deleted :=
    snd (deleteNote (id note) (with_confirms (true :: answers) saved)) in
  length (notes saved) = S (length (notes w)) /\
  notes deleted = notes w /\
  (set_fails w = false -> local_notes deleted = Some (notes w)).
Proof.
  intros Hc Ht He Hne Hnew. pose proof (not_both_empty _ _ Hne) as Hb.
  cbv zeta.
  destruct (saveCurrentNote_fuel_run (S (length (confirms w))) w showFeedback
              note title_value editor_html) as (w' & k & Hrun & _ & Hn & _);
    [lia|assumption..|].
  destruct (saveCurrentNote_fuel_environment (S (length (confirms w))) w
              showFeedback) as (Hs & _).
  unfold saveCurrentNote. rewrite Hrun in *. cbn [snd] in *.
  assert (Hcons : notes w' = saved_note note title_value editor_html
                                 (clock w k) :: notes w).
  { rewrite Hn. unfold upsert. cbn [id saved_note].
    now rewrite (proj2 (findIndex_id_None _ _) Hnew). }
  split; [now rewrite Hcons|].
  destruct (deleteNote_confirmed (id note) (with_confirms (true :: answers) w')
              answers eq_refl) as (_ & Hk & Hl & _).
  rewrite Hk, Hl. cbn [notes set_fails with_confirms]. rewrite Hs, Hcons.
  cbn [List.filter id saved_note]. rewrite String.eqb_refl. cbn [negb].
  rewrite (filter_other_id _ _ Hnew).
  split; [reflexivity|]. now intros ->.
Qed.

Lemma save_then_delete_restores_witness :
  ~ (trim "Ideas" = EmptyString /\ trim "<p>more</p>" = EmptyString) /\
  (forall other,
     In other (notes (drafting_world "Ideas" "<p>more</p>" [])) ->
     id other <> id draft) /\
  notes (snd (deleteNote (id draft)
                (with_confirms [true]
                   (snd (saveCurrentNote true
                           (drafting_world "Ideas" "<p>more</p>" []))))))
  = [groceries; clipping].
Proof.
  assert (H : ~ (trim "Ideas" = EmptyString /\
                 trim "<p>more</p>" = EmptyString))
    by (intros [? _]; discriminate).
  assert (Hnew : forall other,
             In other (notes (drafting_world "Ideas" "<p>more</p>" [])) ->
             id other <> id draft).
  { simpl. intros other [<-|[<-|[]]]; discriminate. }
  split; [exact H|]. split; [exact Hnew|].
  exact (proj1 (proj2
           (save_then_delete_restores
              (drafting_world "Ideas" "<p>more</p>" []) true draft
              "Ideas" "<p>more</p>" [] eq_refl eq_refl eq_refl H Hnew))).
Defined.

Lemma filter_twice {A} (f : A -> bool) (l : list A) :
  List.filter f (List.filter f l) = List.filter f l.
Proof.
  apply filter_all. intros x Hx. apply filter_In in Hx. tauto.
Qed.

(** X6.  Deleting is decided by the dialog and settles at once: unless the
    user answers yes, [deleteNote] changes neither the collection nor the
    store and shows nothing; and a second confirmed delete of the same id
    leaves the collection the first one left. *)
Theorem deleteNote_cancelled_or_repeated (w : World) (noteId : string) :
  ((forall answers, confirms w <> true :: answers) ->
   let w' := snd (deleteNote noteId w) in
   fst (deleteNote noteId w) = Ok tt /\
   notes w' = notes w /\ local_notes w' = local_notes w /\
   out w' = out w /\ confirms w' = tail (confirms w)) /\
  (forall answers answers',
     let once := snd (deleteNote noteId (with_confirms (true :: answers) w)) in
     let twice :=
       snd (deleteNote noteId (with_confirms (true :: answers') once)) in
     notes twice = notes once /\
     (set_fails w = false -> local_notes twice = local_notes once)).
Proof.
  split.
  - intros Hno. rewrite deleteNote_run.
    destruct (confirms w) as [|[] rest] eqn:Hc; simpl; auto.
    now elim (Hno rest).
  - intros answers answers'. cbv zeta.
    destruct (deleteNote_confirmed noteId (with_confirms (true :: answers) w)
                answers eq_refl) as (_ & Hk & Hl & _ & Hs & _).
    set (once := snd (deleteNote noteId (with_confirms (true :: answers) w)))
      in *.
    destruct (deleteNote_confirmed noteId
                (with_confirms (true :: answers') once)
                answers' eq_refl) as (_ & Hk' & Hl' & _).
    rewrite Hk', Hl'. cbn [notes set_fails local_notes with_confirms].
    rewrite Hs, Hk. cbn [notes set_fails with_confirms].
    rewrite filter_twice. split; [reflexivity|]. intros Hw.
    rewrite Hw, Hl. cbn [set_fails with_confirms]. now rewrite Hw.
Qed.

(** ** When a save does nothing *)

(** X7.  [saveCurrentNote] leaves the world exactly as it is, with nothing
    shown and nothing logged, when no note is current, when a field of the
    modal is missing from the document, or when it is the auto-save of a
    note with nothing in it. *)
Theorem saveCurrentNote_without_effect (w : World) (showFeedback : bool) :
  currentNote w = None \/ noteTitle w = None \/ noteEditor w = None \/
  (showFeedback = false /\
   exists title_value editor_html,
     noteTitle w = Some title_value /\ noteEditor w = Some editor_html /\
     trim title_value = EmptyString /\ trim editor_html = EmptyString) ->
  saveCurrentNote showFeedback w = (Ok tt, w).
Proof.
  unfold saveCurrentNote. simpl. unfold saveCurrentNote_body. unfold_M.
  intros [H|[H|[H|(-> & tv & ev & Ht & He & Htv & Hev)]]].
  - now rewrite H.
  - rewrite H. now destruct (currentNote w).
  - rewrite H. now destruct (currentNote w), (noteTitle w).
  - rewrite Ht, He, Htv, Hev. now destruct (currentNote w).
Qed.

Lemma saveCurrentNote_without_effect_witness :
  (false = false /\
   exists title_value editor_html,
     noteTitle (editing_world "  " " ") = Some title_value /\
     noteEditor (editing_world "  " " ") = Some editor_html /\
     trim title_value = EmptyString /\ trim editor_html = EmptyString) /\
  saveCurrentNote false (editing_world "  " " ")
  = (Ok tt, editing_world "  " " ").
Proof.
  assert (H : false = false /\
              exists title_value editor_html,
                noteTitle (editing_world "  " " ") = Some title_value /\
                noteEditor (editing_world "  " " ") = Some editor_html /\
                trim title_value = EmptyString /\
                trim editor_html = EmptyString).
  { split; [reflexivity|]. exists "  ", " ". repeat split. }
  split; [exact H|].
  apply (saveCurrentNote_without_effect (editing_world "  " " ") false).
  right. right. right. exact H.
Defined.

(** ** Closing the modal *)

(** X8.  Unless the user answers yes to its dialog, [closeNoteModal] closes
    the modal and drops the edits: the collection and the store are
    unchanged, nothing is current or being edited any more, and the clock
    was not read. *)
Theorem closeNoteModal_without_yes (w : World) :
  (forall answers, confirms w <> true :: answers) ->
  let w' := snd (closeNoteModal w) in
  fst (closeNoteModal w) = Ok tt /\
  notes w' = notes w /\ local_notes w' = local_notes w /\
  currentNote w' = None /\ isEditing w' = false /\
  ticks w' = ticks w /\ out w' = out w.
Proof.
  intros Hno. unfold closeNoteModal. rewrite closeNoteModal_with_run.
  destruct (isEditing w && unsaved_changes w); [|simpl; auto 10].
  destruct (confirms w) as [|[] rest]; simpl; auto 10.
  now elim (Hno rest).
Qed.

Lemma closeNoteModal_without_yes_witness :
  (forall answers,
     confirms (drafting_world "Ideas" "<p>more</p>" [false]) <>
     true :: answers) /\
  notes (snd (closeNoteModal (drafting_world "Ideas" "<p>more</p>" [false])))
  = [groceries; clipping] /\
  currentNote
    (snd (closeNoteModal (drafting_world "Ideas" "<p>more</p>" [false])))
  = None.
Proof.
  assert (H : forall answers,
             confirms (drafting_world "Ideas" "<p>more</p>" [false]) <>
             true :: answers) by (intros answers; discriminate).
  split; [exact H|].
  destruct (closeNoteModal_without_yes _ H) as (_ & Hn & _ & Hc & _).
  split; [exact Hn|exact Hc].
Defined.

(** What [openNoteModal] leaves, field by field. *)
Lemma openNoteModal_fields (note : Note) (w : World) :
  let w' := snd (openNoteModal note w) in
  fst (openNoteModal note w) = Ok tt /\
  currentNote w' = Some note /\ isEditing w' = true /\
  noteTitle w'
  = (_ ← noteTitle w; Some (value_of w (or_else (title note) EmptyString))) /\
  noteEditor w'
  = (_ ← noteEditor w;
     Some (innerHTML_of w (or_else (content note) EmptyString))) /\
  notes w' = notes w /\ local_notes w' = local_notes w /\
  confirms w' = confirms w /\ ticks w' = ticks w.
Proof.
  unfold openNoteModal. do 3 unfold_M. cbn.
  destruct (has_noteModal w); cbn; repeat split; reflexivity.
Qed.

(** X9.  A note opened in the modal and closed again without an edit leaves
    no trace, provided the fields of the modal give back the title and the
    content they were filled with: no dialog is raised, whatever answers
    the user had ready, and the collection and the store are as before.
    When the editor gives the content back written differently, the same
    close finds unsaved changes and raises the dialog, although nothing was
    edited. *)
Theorem open_then_close (w : World) (note : Note) :
  let opened := snd (openNoteModal note w) in
  let w' := snd (closeNoteModal opened) in
  (value_of w (or_else (title note) EmptyString)
   = or_else (title note) EmptyString ->
   innerHTML_of w (or_else (content note) EmptyString)
   = or_else (content note) EmptyString ->
   notes w' = notes w /\ local_notes w' = local_notes w /\
   confirms w' = confirms w /\ currentNote w' = None /\
   isEditing w' = false) /\
  (noteTitle w <> None -> noteEditor w <> None ->
   innerHTML_of w (or_else (content note) EmptyString)
   <> or_else (content note) EmptyString ->
   unsaved_changes opened = true /\
   forall answers,
     confirms w = false :: answers ->
     confirms w' = answers /\ notes w' = notes w /\ currentNote w' = None).
Proof.
  cbv zeta.
  destruct (openNoteModal_fields note w)
    as (_ & Hc & He & Ht & Hed & Hn & Hl & Hcf & _).
  set (opened := snd (openNoteModal note w)) in *.
  unfold closeNoteModal. rewrite closeNoteModal_with_run, He.
  cbn [andb]. split.
  - intros Hv Hh.
    assert (Hu : unsaved_changes opened = false).
    { unfold unsaved_changes. rewrite Hc, Ht, Hed, Hv, Hh.
      destruct (noteTitle w), (noteEditor w); cbn; try reflexivity.
      now rewrite !String.eqb_refl. }
    rewrite Hu. cbn. auto.
  - intros Hti Hedi Hh.
    assert (Hu : unsaved_changes opened = true).
    { unfold unsaved_changes. rewrite Hc, Ht, Hed.
      destruct (noteTitle w); [|now elim Hti].
      destruct (noteEditor w); [|now elim Hedi]. cbn.
      apply orb_true_iff. right. now apply negb_true_iff, String.eqb_neq. }
    split; [exact Hu|]. intros answers Ha. rewrite Hu, Hcf, Ha. cbn. auto.
Qed.

(** ** Saving with feedback *)

Lemma save_with_feedback_run (w : World) (note : Note)
    (title_value editor_html : string) :
  currentNote w = Some note ->
  noteTitle w = Some title_value ->
  noteEditor w = Some editor_html ->
  falsy (trim title_value) && falsy (trim editor_html) = false ->
  saveCurrentNote true w
  = closeNoteModal (after_save w note title_value editor_html).
Proof.
  intros Hc Ht He Hb. rewrite saveCurrentNote_unfold.
  now rewrite (saveCurrentNote_body_run _ _ _ _ _ _ Hc Ht He Hb).
Qed.

Lemma or_else_empty (s : string) : or_else s EmptyString = s.
Proof. now destruct s. Qed.

Lemma or_else_untitled (s : string) :
  or_else (or_else s "Untitled Note") EmptyString = or_else s "Untitled Note".
Proof. now destruct s. Qed.

Lemma after_save_unsaved (w : World) (note : Note)
    (title_value editor_html : string) :
  noteTitle w = Some title_value ->
  noteEditor w = Some editor_html ->
  unsaved_changes (after_save w note title_value editor_html)
  = fields_differ title_value editor_html.
Proof.
  intros Ht He. unfold unsaved_changes, fields_differ. world_fields.
  rewrite Ht, He. cbn [title content saved_note].
  now rewrite or_else_untitled, or_else_empty.
Qed.

Lemma saves_told_app (a b : list Event) :
  saves_told (a ++ b) = (saves_told a + saves_told b)%nat.
Proof. unfold saves_told. now rewrite List.filter_app, length_app. Qed.

Lemma after_save_told (w : World) (note : Note)
    (title_value editor_html : string) :
  saves_told (out (after_save w note title_value editor_html))
  = S (saves_told (out w)).
Proof.
  unfold after_save, saved_world. cbv zeta. cbn [out with_out].
  rewrite saves_told_app, rendered_out.
  assert (Hw : forall w1, saves_told (out (after_write w1))
                          = saves_told (out w1)).
  { intros w1. unfold after_write.
    destruct (set_fails w1); cbn [out with_out with_local_notes];
      rewrite saves_told_app; unfold saves_told; cbn; lia. }
  match goal with |- context [if ?b then _ else _] => destruct b end;
    rewrite ?saves_told_app, Hw; cbn [out with_notes with_currentNote
      with_ticks]; unfold saves_told; cbn [List.filter is_save_told length];
    change (String.eqb "Note saved successfully!" "Note saved successfully!")
      with true; cbn [List.filter length]; lia.
Qed.

(** X10.  When the title field is not empty and both fields are already
    trimmed, a save with feedback saves once and closes the modal without
    asking anything: the world is the one the save left, with the modal
    closed; the answers the user had ready are untouched, and nothing is
    current or being edited afterwards. *)
Theorem save_with_feedback_closes (w : World) (note : Note)
    (title_value editor_html : string) :
  currentNote w = Some note ->
  noteTitle w = Some title_value ->
  noteEditor w = Some editor_html ->
  title_value <> EmptyString ->
  trim title_value = title_value ->
  trim editor_html = editor_html ->
  let w' := snd (saveCurrentNote true w) in
  saveCurrentNote true w
  = (Ok tt, modal_closed (after_save w note title_value editor_html)) /\
  confirms w' = confirms w /\
  currentNote w' = None /\ isEditing w' = false /\
  notes w' = upsert (saved_note note title_value editor_html
                       (clock w (ticks w))) (notes w) /\
  saves_told (out w') = S (saves_told (out w)).
Proof.
  intros Hc Ht He Hne Htv Hev.
  assert (Hb : falsy (trim title_value) && falsy (trim editor_html) = false).
  { rewrite Htv. now destruct title_value. }
  cbv zeta. rewrite (save_with_feedback_run w note _ _ Hc Ht He Hb).
  unfold closeNoteModal. rewrite closeNoteModal_with_run.
  rewrite (after_save_unsaved w note _ _ Ht He).
  assert (Hd : fields_differ title_value editor_html = false).
  { unfold fields_differ. rewrite Htv, Hev.
    replace (or_else title_value "Untitled Note") with title_value
      by now destruct title_value.
    now rewrite !String.eqb_refl. }
  rewrite Hd, andb_false_r. cbn [snd].
  split; [reflexivity|].
  rewrite <- (after_save_told w note title_value editor_html).
  world_fields. auto 10.
Qed.

Lemma save_with_feedback_closes_witness :
  "Ideas" <> EmptyString /\ trim "Ideas" = "Ideas" /\
  trim "<p>more</p>" = "<p>more</p>" /\
  confirms (snd (saveCurrentNote true
                   (drafting_world "Ideas" "<p>more</p>" [true; true])))
  = [true; true] /\
  isEditing (snd (saveCurrentNote true
                    (drafting_world "Ideas" "<p>more</p>" [true; true])))
  = false.
Proof.
  assert (H : "Ideas" <> EmptyString) by discriminate.
  split; [exact H|]. split; [reflexivity|]. split; [reflexivity|].
  destruct (save_with_feedback_closes
              (drafting_world "Ideas" "<p>more</p>" [true; true]) draft
              "Ideas" "<p>more</p>" eq_refl eq_refl eq_refl H eq_refl eq_refl)
    as (_ & Hcf & _ & He & _).
  split; [exact Hcf|exact He].
Defined.




(** ** A save and the notes already stored *)

Lemma after_write_overwrites (s : option (list Note)) (w : World) :
  set_fails w = false ->
  after_write (with_local_notes s w) = after_write w.
Proof. intros H. unfold after_write. simpl. now rewrite H. Qed.

(** X12.  A save that goes through replaces whatever the backend holds:
    when writes are accepted and the note in the modal is not empty, the
    outcome of [saveCurrentNote] is the same whatever was stored before, so
    notes that reached the store behind the back of the popup (a clip of the
    context menu, say) are gone after the next save. *)
Theorem save_overwrites_store (w : World) (showFeedback : bool)
    (stored : option (list Note)) (note : Note)
    (title_value editor_html : string) :
  set_fails w = false ->
  currentNote w = Some note ->
  noteTitle w = Some title_value ->
  noteEditor w = Some editor_html ->
  ~ (trim title_value = EmptyString /\ trim editor_html = EmptyString) ->
  saveCurrentNote showFeedback (with_local_notes stored w)
  = saveCurrentNote showFeedback w.
Proof.
  intros Hs Hc Ht He Hne. pose proof (not_both_empty _ _ Hne) as Hb.
  assert (Hw : saved_world (with_local_notes stored w) note title_value
                 editor_html
               = saved_world w note title_value editor_html).
  { unfold saved_world. cbv zeta.
    cbn [clock ticks notes with_local_notes].
    change (with_notes ?a (with_currentNote ?b
              (with_ticks ?c (with_local_notes stored w))))
      with (with_local_notes stored
              (with_notes a (with_currentNote b (with_ticks c w)))).
    now rewrite after_write_overwrites. }
  destruct showFeedback.
  - rewrite (save_with_feedback_run w note _ _ Hc Ht He Hb).
    rewrite (save_with_feedback_run (with_local_notes stored w) note _ _
               Hc Ht He Hb).
    unfold after_save. cbv zeta. now rewrite Hw.
  - rewrite (autosave_run w note _ _ Hc Ht He Hb).
    rewrite (autosave_run (with_local_notes stored w) note _ _ Hc Ht He Hb).
    now rewrite Hw.
Qed.

Lemma save_overwrites_store_witness :
  local_notes
    (snd (saveCurrentNote false
            (with_local_notes (Some [clipping; groceries; clipping])
               (drafting_world "Ideas" "<p>more</p>" []))))
  = local_notes
      (snd (saveCurrentNote false (drafting_world "Ideas" "<p>more</p>" []))).
Proof.
  rewrite (save_overwrites_store (drafting_world "Ideas" "<p>more</p>" [])
             false (Some [clipping; groceries; clipping]) draft
             "Ideas" "<p>more</p>" eq_refl eq_refl eq_refl eq_refl
             ltac:(intros [H _]; discriminate H)).
  reflexivity.
Defined.

(** ** The dates the popup shows *)

(** X13.  [formatDate] reads the clock once and answers by the distance
    between that reading and the date, in either direction: up to a day is
    [Today], up to two days [Yesterday], up to a week the count of whole
    days begun less one, and beyond a week the date as the locale writes
    it.  A date that is the very reading of the clock is shown as
    [-1 days ago]. *)
Theorem formatDate_cases (toLocaleDateString : timestamp -> string)
    (w : World) (date : timestamp) :
  let distance := Z.abs (clock w (ticks w) - date) in
  exists shown,
    formatDate toLocaleDateString date w
    = (Ok shown, with_ticks (S (ticks w)) w) /\
    (distance = 0 -> shown = "-1 days ago") /\
    (0 < distance <= day_ms -> shown = "Today") /\
    (day_ms < distance <= 2 * day_ms -> shown = "Yesterday") /\
    (forall k, 2 <= k <= 6 ->
       k * day_ms < distance <= (k + 1) * day_ms ->
       shown = pretty k +:+ " days ago") /\
    (7 * day_ms < distance -> shown = toLocaleDateString date).
Proof.
  intros distance. eexists. split; [reflexivity|].
  fold distance. unfold day_ms.
  set (q := (distance + 86399999) / 86400000).
  assert (Hq : 86400000 * q <= distance + 86399999 < 86400000 * q + 86400000).
  { subst q. pose proof (Z.div_mod (distance + 86399999) 86400000).
    pose proof (Z.mod_pos_bound (distance + 86399999) 86400000). lia. }
  clearbody q distance.
  repeat split.
  - intros ->. assert (q = 0) as -> by lia. reflexivity.
  - intros H. assert (q = 1) as -> by lia. reflexivity.
  - intros H. assert (q = 2) as -> by lia. reflexivity.
  - intros k Hk H. assert (q = k + 1) as -> by lia.
    destruct (Z.eqb_spec (k + 1) 1); [lia|].
    destruct (Z.eqb_spec (k + 1) 2); [lia|].
    destruct (Z.leb_spec (k + 1) 7); [|lia].
    now replace (k + 1 - 1) with k by lia.
  - intros H.
    destruct (Z.eqb_spec q 1); [lia|].
    destruct (Z.eqb_spec q 2); [lia|].
    destruct (Z.leb_spec q 7); [lia|]. reflexivity.
Qed.

(** ** Text without markup *)

Lemma replace_all_untagged (m : Regex.matcher) (s : string) :
  (forall c rest, Ascii.eqb c "<" && has_char ">" rest = false ->
                  m (String c rest) = None) ->
  tagged s = false ->
  Regex.replace_all m s = s.
Proof.
  intros Hm. unfold Regex.replace_all.
  induction s as [|c s IH]; intros H; [reflexivity|].
  simpl in H. apply orb_false_iff in H as [Hc Hs].
  rewrite replace_go_here, (Hm c s Hc). now rewrite IH.
Qed.

Lemma strip_prefix_has_char (x : ascii) (p s : string) :
  has_char x p = true -> has_char x s = false -> strip_prefix p s = None.
Proof.
  intros Hp Hs. destruct (strip_prefix p s) as [r|] eqn:E; [|reflexivity].
  apply JsStringFacts.strip_prefix_Some in E. subst s.
  rewrite has_char_app, Hp in Hs. discriminate.
Qed.

Lemma pair_needs_tag (open close before after : string) (c : ascii)
    (rest : string) :
  has_char ">" open = true ->
  Ascii.eqb c "<" && has_char ">" rest = false ->
  Regex.pair (String "<" open) close before after (String c rest) = None.
Proof.
  intros Ho H. unfold Regex.pair.
  change (strip_prefix (String "<" open) (String c rest))
    with (if Ascii.eqb "<" c then strip_prefix open rest else None).
  rewrite Ascii.eqb_sym.
  destruct (Ascii.eqb c "<"); [|reflexivity]. simpl in H.
  now rewrite (strip_prefix_has_char ">" open rest Ho H).
Qed.

Lemma literal_needs_tag (lit replacement : string) (c : ascii)
    (rest : string) :
  has_char ">" lit = true ->
  Ascii.eqb c "<" && has_char ">" rest = false ->
  Regex.literal (String "<" lit) replacement (String c rest) = None.
Proof.
  intros Ho H. unfold Regex.literal, startsWith.
  change (strip_prefix (String "<" lit) (String c rest))
    with (if Ascii.eqb "<" c then strip_prefix lit rest else None).
  rewrite Ascii.eqb_sym.
  destruct (Ascii.eqb c "<"); [|reflexivity]. simpl in H.
  now rewrite (strip_prefix_has_char ">" lit rest Ho H).
Qed.

Lemma has_char_drop (x : ascii) (n : nat) (s : string) :
  has_char x s = false -> has_char x (Regex.drop n s) = false.
Proof.
  revert s. induction n as [|n IH]; intros [|c s] H; try exact H.
  simpl in *. apply orb_false_iff in H as [_ H]. now apply IH.
Qed.

Lemma line_break_needs_tag (replacement : string) (c : ascii)
    (rest : string) :
  Ascii.eqb c "<" && has_char ">" rest = false ->
  Regex.line_break replacement (String c rest) = None.
Proof.
  intros H. unfold Regex.line_break.
  destruct (strip_prefix "<br" (String c rest)) as [r|] eqn:E; [|reflexivity].
  apply JsStringFacts.strip_prefix_Some in E. injection E as -> ->.
  rewrite has_char_app in H. simpl in H.
  unfold mbind, option_bind. cbv beta iota.
  pose proof (has_char_drop ">" (Regex.white_space_run r) r H) as Hd.
  destruct (Regex.drop (Regex.white_space_run r) r) as [|a [|b t]];
    [reflexivity| |]; simpl in Hd.
  - apply orb_false_iff in Hd as [Ha _].
    destruct a as [[] [] [] [] [] [] [] []];
      first [reflexivity|discriminate Ha].
  - apply orb_false_iff in Hd as [Ha Hd].
    apply orb_false_iff in Hd as [Hb _].
    destruct a as [[] [] [] [] [] [] [] []];
      try reflexivity; try discriminate Ha.
    destruct b as [[] [] [] [] [] [] [] []];
      first [reflexivity|discriminate Hb].
Qed.

Lemma any_tag_needs_tag (c : ascii) (rest : string) :
  Ascii.eqb c "<" && has_char ">" rest = false ->
  Regex.any_tag EmptyString (String c rest) = None.
Proof.
  intros H. rewrite any_tag_cases.
  destruct (Ascii.eqb c "<"); [|reflexivity]. simpl in H.
  now rewrite (proj2 (until_gt_None rest) H).
Qed.

Ltac untagged_rule :=
  let c := fresh "c" in
  let rest := fresh "rest" in
  let Hc := fresh "Hc" in
  intros c rest Hc;
  first [ apply pair_needs_tag | apply literal_needs_tag
        | apply line_break_needs_tag | apply any_tag_needs_tag ];
  first [ exact Hc | reflexivity ].

Lemma htmlToMarkdown_untagged (s : string) :
  tagged s = false -> htmlToMarkdown s = s.
Proof.
  intros H. unfold htmlToMarkdown. cbv zeta.
  do 13 (rewrite (replace_all_untagged _ s); [|untagged_rule|exact H]).
  reflexivity.
Qed.

Lemma no_lt_untagged (s : string) : has_char "<" s = false -> tagged s = false.
Proof.
  induction s as [|c s IH]; [reflexivity|]. simpl. intros H.
  apply orb_false_iff in H as [-> H]. now rewrite IH.
Qed.

Lemma escapeHtml_no_angle (text : string) :
  has_char "<" (escapeHtml text) = false /\
  has_char ">" (escapeHtml text) = false.
Proof.
  induction text as [|c text [IHl IHg]]; [now split|].
  simpl. rewrite !has_char_app, IHl, IHg, !orb_false_r.
  destruct (Ascii.eqb_spec c "&"); [now split|].
  destruct (Ascii.eqb_spec c "160"); [now split|].
  destruct (Ascii.eqb c "<") eqn:Hl; [now split|].
  destruct (Ascii.eqb c ">") eqn:Hg; [now split|].
  simpl. now rewrite Hl, Hg.
Qed.

(** X14.  [htmlToMarkdown] changes a text only where an opening angle
    bracket has a closing one somewhere behind it: a text without such a
    pair comes back as it is.  Its own results are such texts, so converting
    a second time changes nothing. *)
Theorem htmlToMarkdown_idempotent (html : string) :
  (tagged html = false -> htmlToMarkdown html = html) /\
  htmlToMarkdown (htmlToMarkdown html) = htmlToMarkdown html.
Proof.
  split; [apply htmlToMarkdown_untagged|].
  apply htmlToMarkdown_untagged, strip_tags_untagged.
Qed.

(** X15.  What [escapeHtml] returns holds neither angle bracket, whatever
    the text; it is the text itself when the text holds no ampersand, no
    no-break space and no angle bracket; and [htmlToMarkdown] leaves an
    escaped text as it is, so that a title or a selection that went through
    [escapeHtml] is never read as markup. *)
Theorem escapeHtml_spec (text : string) :
  has_char "<" (escapeHtml text) = false /\
  has_char ">" (escapeHtml text) = false /\
  htmlToMarkdown (escapeHtml text) = escapeHtml text /\
  (has_char "&" text = false -> has_char "160" text = false ->
   has_char "<" text = false -> has_char ">" text = false ->
   escapeHtml text = text).
Proof.
  destruct (escapeHtml_no_angle text) as [Hl Hg].
  split; [exact Hl|]. split; [exact Hg|]. split.
  - now apply htmlToMarkdown_untagged, no_lt_untagged.
  - clear Hl Hg. induction text as [|c text IH]; [reflexivity|].
    simpl. intros Ha Hn Hl Hg.
    apply orb_false_iff in Ha as [-> Ha].
    apply orb_false_iff in Hn as [-> Hn].
    apply orb_false_iff in Hl as [-> Hl].
    apply orb_false_iff in Hg as [-> Hg].
    now rewrite app_cons, app_nil, IH.
Qed.

Example htmlToMarkdown_keeps_comparison :
  htmlToMarkdown "1 < 2 & **bold**" = "1 < 2 & **bold**".
Proof. reflexivity. Qed.

Example escapeHtml_markup :
  escapeHtml "<b>R&D</b>" = "&lt;b&gt;R&amp;D&lt;/b&gt;".
Proof. reflexivity. Qed.

(** ** The export of the popup *)

(** A map over calls that, whatever they return, only read the clock reads
    it once per element. *)
Lemma mapM_reads_clock {A B} (f : A -> M B) (l : list A) :
  (forall x w, exists y, f x w = (Ok y, with_ticks (S (ticks w)) w)) ->
  forall w, exists ys,
    mapM f l w = (Ok ys, with_ticks (ticks w + length l) w).
Proof.
  intros Hf. induction l as [|x l IH]; intros w.
  - exists []. simpl. unfold_M. now rewrite Nat.add_0_r, with_ticks_same.
  - destruct (Hf x w) as [y Hy].
    destruct (IH (with_ticks (S (ticks w)) w)) as [ys Hys].
    exists (y :: ys). simpl. unfold_M. rewrite Hy, Hys. simpl.
    now replace (S (ticks w + length l)) with (ticks w + S (length l))%nat
      by lia.
Qed.

Ltac export_fields :=
  cbn [out notes local_notes currentNote isEditing ticks with_out with_ticks];
  split; [rewrite <- List.app_assoc; reflexivity|];
  repeat match goal with |- _ /\ _ => split end;
  try reflexivity; intros; try congruence;
  repeat match goal with |- _ /\ _ => split end; try reflexivity.

(** X16.  Whatever the format set, [exportAllNotes] of the popup returns,
    downloads exactly one file and reports success, and leaves the notes of
    the popup, the store and the modal as they were.  The file is named
    after the first reading of the clock, with the extension of the format;
    a format that is none of the four gives an empty file whose name has no
    extension.  The clock is read once for the name, once more for the date
    of an HTML export, and once per note for the dates the Markdown and
    HTML exports show. *)
Theorem exportAllNotes_spec
    (toISOString toLocaleDateString : timestamp -> string)
    (stripHtml : string -> string) (w : World) :
  let format := or_else (default EmptyString (settings_exportFormat w)) "json" in
  let stem := "notes_" +:+ split_head "T" (toISOString (clock w (ticks w))) in
  exists content filename w',
    exportAllNotes toISOString toLocaleDateString stripHtml w = (Ok tt, w') /\
    out w' = out w ++ [Download content filename;
                       SaveStatus "All notes exported!" "success"] /\
    notes w' = notes w /\ local_notes w' = local_notes w /\
    currentNote w' = currentNote w /\ isEditing w' = isEditing w /\
    (format = "json" ->
     filename = stem +:+ ".json" /\ ticks w' = S (ticks w)) /\
    (format = "txt" ->
     filename = stem +:+ ".txt" /\ ticks w' = S (ticks w)) /\
    (format = "md" ->
     filename = stem +:+ ".md" /\
     ticks w' = (S (ticks w) + length (notes w))%nat) /\
    (format = "html" ->
     filename = stem +:+ ".html" /\
     ticks w' = (S (S (ticks w)) + length (notes w))%nat) /\
    (format <> "json" -> format <> "txt" -> format <> "md" ->
     format <> "html" ->
     filename = stem /\ content = EmptyString /\ ticks w' = S (ticks w)).
Proof.
  intros format stem. unfold exportAllNotes.
  unfold mbind at 1, M_bind at 1, bind at 1, gets at 1.
  fold format.
  unfold mbind at 1, M_bind at 1, bind at 1, new_Date at 1.
  fold stem.
  unfold mbind at 1, M_bind at 1, bind at 1, gets at 1.
  cbn [notes with_ticks].
  destruct (String.eqb_spec format "json") as [Ej|Ej];
    [|destruct (String.eqb_spec format "txt") as [Et|Et];
      [|destruct (String.eqb_spec format "md") as [Em|Em];
        [|destruct (String.eqb_spec format "html") as [Eh|Eh]]]].
  - unfold_M. cbn [fst snd]. do 3 eexists. split; [reflexivity|].
    export_fields.
  - unfold_M. cbn [fst snd]. do 3 eexists. split; [reflexivity|].
    export_fields.
  - unfold_M.
    match goal with |- context [mapM ?f (notes w) ?w0] =>
      destruct (mapM_reads_clock f (notes w)
                  ltac:(intros x w1; eexists; reflexivity) w0) as [parts Hp]
    end.
    rewrite Hp. cbn [fst snd]. do 3 eexists. split; [reflexivity|].
    export_fields.
  - unfold_M.
    match goal with |- context [mapM ?f (notes w) ?w0] =>
      destruct (mapM_reads_clock f (notes w)
                  ltac:(intros x w1; eexists; reflexivity) w0) as [parts Hp]
    end.
    rewrite Hp. cbn [fst snd]. do 3 eexists. split; [reflexivity|].
    export_fields.
  - unfold_M. cbn [fst snd]. do 3 eexists. split; [reflexivity|].
    export_fields.
Qed.


(** ** The options page *)

(** X17.  [exportAllNotes] of the options page never throws and changes
    neither the store nor the notes a popup holds.  When the store cannot be
    read it logs the error and says so, and when it holds no note it says
    that there is nothing to export; neither time is a file downloaded or
    the clock read.  Otherwise one file is downloaded and the number of
    notes reported; the JSON file reads back as the stored notes, and a
    format that is none of the four (none being set among them: the page
    has no default) gives an empty file whose name has no extension. *)
Theorem options_exportAllNotes_spec
    (toISOString toLocaleDateString : timestamp -> string)
    (stripHtml : string -> string) (w : World) (format : option string) :
  let r := Options.exportAllNotes toISOString toLocaleDateString stripHtml
             format w in
  let stored := default [] (local_notes w) in
  let stem := "notemaster_export_"
              +:+ split_head "T" (toISOString (clock w (ticks w))) in
  fst r = Ok tt /\ notes (snd r) = notes w /\
  local_notes (snd r) = local_notes w /\
  (get_fails w = true ->
   out (snd r) = out w ++ [ConsoleError "Export error:";
                           SaveStatus "Error exporting notes" "error"] /\
   ticks (snd r) = ticks w) /\
  (get_fails w = false -> stored = [] ->
   out (snd r) = out w ++ [SaveStatus "No notes to export" "error"] /\
   ticks (snd r) = ticks w) /\
  (get_fails w = false -> stored <> [] ->
   exists content filename,
     out (snd r)
     = out w ++ [Download content filename;
                 SaveStatus ("Exported " +:+ pretty (length stored)
                             +:+ " notes successfully!") "success"] /\
     (format = Some "json" ->
      filename = stem +:+ ".json" /\
      JSON.parse content = Some (notes_value toISOString stored)) /\
     (format <> Some "json" -> format <> Some "txt" ->
      format <> Some "md" -> format <> Some "html" ->
      filename = stem /\ content = EmptyString)).
Proof.
  intros r stored stem.
  assert (Hr : r = Options.exportAllNotes toISOString toLocaleDateString
                     stripHtml format w) by reflexivity.
  clearbody r. unfold Options.exportAllNotes in Hr.
  unfold try_catch, mbind at 1, M_bind at 1, bind at 1, storage_local_get in Hr.
  destruct (get_fails w) eqn:Hg.
  - subst r. do 3 unfold_M.
    cbn [fst snd out notes local_notes ticks with_out].
    rewrite <- List.app_assoc.
    repeat split; try reflexivity; intros; congruence.
  - fold stored in Hr. destruct stored as [|n ns] eqn:Hst.
    + subst r. do 3 unfold_M.
      cbn [fst snd out notes local_notes ticks with_out length Nat.eqb].
      repeat split; try reflexivity; intros; congruence.
    + change ((length (n :: ns) =? 0)%nat) with false in Hr.
      cbv iota in Hr.
      assert (Hf : forall x, default EmptyString format = x ->
                             x <> EmptyString -> format = Some x).
      { intros x <- Hx. destruct format; [reflexivity|now elim Hx]. }
      destruct (String.eqb_spec (default EmptyString format) "json") as [Ej|Ej];
        [|destruct (String.eqb_spec (default EmptyString format) "txt")
            as [Et|Et];
          [|destruct (String.eqb_spec (default EmptyString format) "md")
              as [Em|Em];
            [|destruct (String.eqb_spec (default EmptyString format) "html")
                as [Eh|Eh]]]];
        subst r; unfold Options.generateHtmlExport; do 3 unfold_M;
        cbn [fst snd out notes local_notes ticks with_out with_ticks];
        (split; [reflexivity|]); (split; [reflexivity|]);
        (split; [reflexivity|]); (split; [intros; congruence|]);
        (split; [intros; congruence|]); intros _ _; do 2 eexists;
        (split; [repeat rewrite <- List.app_assoc; reflexivity|]);
        try (apply Hf in Ej; [|discriminate]);
        try (apply Hf in Et; [|discriminate]);
        try (apply Hf in Em; [|discriminate]);
        try (apply Hf in Eh; [|discriminate]);
        (split; [intros Hj|intros; try congruence]);
        try congruence.
      * split; [reflexivity|apply JSONFacts.parse_stringify].
      * subst format. now elim Ej.
      * now split.
Qed.


Lemma clearAllNotes_other (typed : option string) :
  typed <> Some "DELETE" -> Options.clearAllNotes typed = mret tt.
Proof.
  intros H. unfold Options.clearAllNotes.
  destruct typed as [s|]; [|reflexivity].
  do 6 (destruct s as [|c s]; [reflexivity|];
        destruct c as [[] [] [] [] [] [] [] []]; try reflexivity).
  destruct s; [now elim H|reflexivity].
Qed.

(** X18.  [clearAllNotes] empties the store only when the answer to the
    prompt is exactly [DELETE]: any other answer, and a cancelled prompt,
    leave everything as it is.  With that answer the store holds the empty
    collection afterwards if the backend takes the write; if it rejects it
    the store is unchanged and the error is logged and shown.  It never
    throws, and never touches the notes an open popup holds. *)
Theorem clearAllNotes_spec (w : World) (typed : option string) :
  let r := Options.clearAllNotes typed w in
  fst r = Ok tt /\ notes (snd r) = notes w /\
  currentNote (snd r) = currentNote w /\
  (typed <> Some "DELETE" -> snd r = w) /\
  (typed = Some "DELETE" -> set_fails w = false ->
   local_notes (snd r) = Some [] /\
   out (snd r)
   = out w ++ [SaveStatus "All notes have been deleted" "success"]) /\
  (typed = Some "DELETE" -> set_fails w = true ->
   local_notes (snd r) = local_notes w /\
   out (snd r)
   = out w ++ [ConsoleError "Error clearing notes:";
               SaveStatus "Error clearing notes" "error"]).
Proof.
  intros r. subst r.
  destruct (decide (typed = Some "DELETE")) as [->|Hn].
  - change (Options.clearAllNotes (Some "DELETE"))
      with (try_catch
              (storage_local_set [] ;;
               showSaveStatus "All notes have been deleted" "success")
              (fun error : string =>
                 console_error "Error clearing notes:" ;;
                 showSaveStatus "Error clearing notes" "error")).
    do 3 unfold_M. destruct (set_fails w) eqn:Hs;
      cbn [fst snd out notes currentNote local_notes with_out
           with_local_notes];
      repeat rewrite <- List.app_assoc;
      repeat split; try reflexivity; intros; congruence.
  - rewrite (clearAllNotes_other typed Hn). unfold_M. cbn [fst snd].
    repeat split; try reflexivity; intros; congruence.
Qed.

(** ** The background script *)

(** X19.  [saveNote] of the background script puts the note in front of the
    stored ones, an absent store counting as empty; when the store cannot be
    read or the write is rejected it logs the error and stores nothing.
    Either way it returns normally, and it reads no clock and touches
    nothing a popup holds. *)
Theorem background_saveNote_spec (note : Note) (w : World) :
  let r := Background.saveNote note w in
  fst r = Ok tt /\ notes (snd r) = notes w /\
  currentNote (snd r) = currentNote w /\ ticks (snd r) = ticks w /\
  (get_fails w = false -> set_fails w = false ->
   local_notes (snd r) = Some (note :: default [] (local_notes w)) /\
   out (snd r) = out w) /\
  (get_fails w = true \/ set_fails w = true ->
   local_notes (snd r) = local_notes w /\
   out (snd r) = out w ++ [ConsoleError "Error saving note:"]).
Proof.
  cbv zeta. rewrite background_saveNote_run. cbn [fst snd].
  destruct (get_fails w), (set_fails w); cbn;
    repeat split; try reflexivity; intros; try congruence;
    match goal with H : _ \/ _ |- _ => destruct H; congruence end.
Qed.

Ltac clip_facts :=
  cbn [fst snd notes currentNote isEditing noteTitle noteEditor confirms
       local_notes out ticks draws with_out with_local_notes with_draws
       with_ticks default];
  repeat match goal with
         | |- _ /\ _ => split
         | |- exists added : list Note, _ =>
             first [ exists []; split; [reflexivity|simpl; lia]
                   | eexists [_]; split; [reflexivity|simpl; lia] ]
         end;
  try reflexivity; intros; try congruence.

Lemma handleContextMenuClick_facts (toLocaleString : timestamp -> string)
    (w : World) (menuItemId : string) (selectionText : option string)
    (tab : Background.Tab) :
  let r := Background.handleContextMenuClick toLocaleString menuItemId
             selectionText tab w in
  fst r = Ok tt /\
  notes (snd r) = notes w /\ currentNote (snd r) = currentNote w /\
  isEditing (snd r) = isEditing w /\ noteTitle (snd r) = noteTitle w /\
  noteEditor (snd r) = noteEditor w /\ confirms (snd r) = confirms w /\
  (exists added,
     default [] (local_notes (snd r)) = added ++ default [] (local_notes w) /\
     (length added <= 1)%nat) /\
  (menuItemId <> "saveSelectedText" -> menuItemId <> "savePageInfo" ->
   snd r = w) /\
  (menuItemId = "saveSelectedText" ->
   default EmptyString selectionText = EmptyString -> snd r = w).
Proof.
  intros r. subst r. unfold Background.handleContextMenuClick, try_catch.
  destruct (String.eqb_spec menuItemId "saveSelectedText") as [E1|E1];
    [|destruct (String.eqb_spec menuItemId "savePageInfo") as [E2|E2]].
  - destruct (default EmptyString selectionText) as [|a s] eqn:Hsel.
    + unfold Background.saveSelectedText. rewrite Hsel. unfold_M.
      cbn [falsy is_empty]. clip_facts.
    + destruct selectionText as [selected|]; [|discriminate Hsel].
      cbn [default] in Hsel. unfold Datatypes.id in Hsel. subst selected.
      rewrite saveSelectedText_run by discriminate. cbv zeta.
      destruct (has_document w).
      * rewrite background_saveNote_run.
        cbn [get_fails set_fails with_draws with_ticks].
        destruct (get_fails w), (set_fails w); cbn [orb]; clip_facts.
      * do 3 unfold_M. clip_facts.
  - rewrite savePageInfo_run. cbv zeta. rewrite background_saveNote_run.
    cbn [get_fails set_fails with_draws with_ticks].
    destruct (get_fails w), (set_fails w); cbn [orb]; clip_facts.
  - unfold_M. clip_facts.
Qed.

(** X20.  A click on a context menu entry never throws into the browser
    and never touches what a popup holds or shows: its notes, the note in
    the modal, the fields, the answers waiting.  It never removes or
    reorders a stored note: the store afterwards is the store before with at
    most one note put in front.  An entry that is neither of the two, and
    the selection entry with an empty or absent selection, change
    nothing at all. *)
Theorem context_menu_spares_popup (toLocaleString : timestamp -> string)
    (w : World) (menuItemId : string) (selectionText : option string)
    (tab : Background.Tab) :
  let r := Background.handleContextMenuClick toLocaleString menuItemId
             selectionText tab w in
  fst r = Ok tt /\
  notes (snd r) = notes w /\ currentNote (snd r) = currentNote w /\
  isEditing (snd r) = isEditing w /\ noteTitle (snd r) = noteTitle w /\
  noteEditor (snd r) = noteEditor w /\ confirms (snd r) = confirms w /\
  (exists added,
     default [] (local_notes (snd r)) = added ++ default [] (local_notes w) /\
     (length added <= 1)%nat) /\
  (menuItemId <> "saveSelectedText" -> menuItemId <> "savePageInfo" ->
   snd r = w) /\
  (menuItemId = "saveSelectedText" ->
   default EmptyString selectionText = EmptyString -> snd r = w).
Proof. apply handleContextMenuClick_facts. Qed.


Lemma loadNotes_run (w : World) :
  get_fails w = false ->
  fst (loadNotes w) = Ok tt /\
  notes (snd (loadNotes w))
  = sort by_modified_desc (default [] (local_notes w)) /\
  local_notes (snd (loadNotes w)) = local_notes w.
Proof.
  intros Hg. unfold loadNotes. do 3 unfold_M.
  cbn [get_fails with_out]. rewrite Hg. now cbn.
Qed.

Lemma page_clicked (toLocaleString : timestamp -> string)
    (selectionText : option string) (tab : Background.Tab) (w : World) :
  Background.handleContextMenuClick toLocaleString "savePageInfo"
    selectionText tab w
  = Background.savePageInfo toLocaleString tab w.
Proof.
  unfold Background.handleContextMenuClick, try_catch.
  change (String.eqb "savePageInfo" "saveSelectedText") with false.
  change (String.eqb "savePageInfo" "savePageInfo") with true.
  cbv iota. now rewrite savePageInfo_run.
Qed.

(** X21.  Over a working backend, a page saved from the context menu is
    in the collection of the popup that opens next: [loadNotes] then holds
    the stored notes and one more, latest modified first.  The new note
    bears the title of the tab; its identifier comes from the first reading
    of the clock, its creation and modification times from the third and the
    fourth. *)
Theorem page_clip_then_popup (toLocaleString : timestamp -> string)
    (w : World) (tab : Background.Tab) :
  get_fails w = false -> set_fails w = false ->
  let clipped := snd (Background.handleContextMenuClick toLocaleString
                        "savePageInfo" None tab w) in
  let opened := snd (loadNotes clipped) in
  exists note,
    Permutation (notes opened) (note :: default [] (local_notes w)) /\
    StronglySorted newer_first (notes opened) /\
    title note = Background.tab_title tab /\
    id note = toString36 (clock w (ticks w)) +:+ random36 w (draws w) /\
    created note = clock w (2 + ticks w) /\
    modified note = clock w (3 + ticks w) /\
    out clipped = out w ++ [Notification "Page saved to NoteMaster!"].
Proof.
  intros Hg Hs clipped opened. subst opened clipped.
  rewrite page_clicked, savePageInfo_run. cbv zeta.
  rewrite background_saveNote_run.
  cbn [get_fails set_fails with_draws with_ticks]. rewrite Hg, Hs.
  cbn [orb snd].
  match goal with |- context [loadNotes ?x] =>
    destruct (loadNotes_run x Hg) as (_ & Hn & _) end.
  rewrite Hn. cbn [local_notes with_out with_local_notes default].
  eexists. split; [apply sort_Permutation|].
  split; [apply sort_by_modified_sorted|]. now cbn.
Qed.

Lemma page_clip_then_popup_witness :
  exists note,
    Permutation
      (notes (snd (loadNotes
                     (snd (Background.handleContextMenuClick
                             (fun _ => "02/11/2026, 09:02:00") "savePageInfo"
                             None (Background.mkTab "Wiki" "https://w.org")
                             (editing_world "Groceries" "<p>milk</p>"))))))
      (note :: [groceries; clipping]) /\
    title note = "Wiki".
Proof.
  destruct (page_clip_then_popup (fun _ => "02/11/2026, 09:02:00")
              (editing_world "Groceries" "<p>milk</p>")
              (Background.mkTab "Wiki" "https://w.org") eq_refl eq_refl)
    as (note & Hp & _ & Ht & _).
  exists note. split; [exact Hp|exact Ht].
Defined.

Lemma selection_clicked (toLocaleString : timestamp -> string)
    (selected : string) (tab : Background.Tab) (w : World) :
  selected <> EmptyString ->
  Background.handleContextMenuClick toLocaleString "saveSelectedText"
    (Some selected) tab w
  = if has_document w
    then Background.saveSelectedText (Some selected) tab w
    else (Ok tt,
          with_out (out w ++ [ConsoleError "Context menu error:"])
            (with_draws (S (draws w)) (with_ticks (S (ticks w)) w))).
Proof.
  intros Hne. unfold Background.handleContextMenuClick, try_catch.
  change (String.eqb "saveSelectedText" "saveSelectedText") with true.
  cbv iota. rewrite (saveSelectedText_run selected tab w Hne). cbv zeta.
  now destruct (has_document w).
Qed.



(** X23.  Saving a selection needs a document to escape the text with.
    Where there is none, as in a service worker, the click stores nothing
    and shows no notification: the failure is logged by the click handler,
    after an identifier has been drawn.  Where there is one and the backend
    works, the note put in front of the stored ones is titled after the tab
    and holds the selection escaped, its times being the second and third
    readings of the clock. *)
Theorem selection_needs_document (toLocaleString : timestamp -> string)
    (w : World) (tab : Background.Tab) (selected : string) :
  selected <> EmptyString ->
  let r := Background.handleContextMenuClick toLocaleString
             "saveSelectedText" (Some selected) tab w in
  (has_document w = false ->
   fst r = Ok tt /\ local_notes (snd r) = local_notes w /\
   out (snd r) = out w ++ [ConsoleError "Context menu error:"] /\
   ticks (snd r) = S (ticks w) /\ draws (snd r) = S (draws w)) /\
  (has_document w = true -> get_fails w = false -> set_fails w = false ->
   exists note,
     local_notes (snd r) = Some (note :: default [] (local_notes w)) /\
     title note = "Selection from " +:+ Background.tab_title tab /\
     content note
     = "<p>" +:+ escapeHtml selected
       +:+ "</p><br><p><em>Source: <a href=" +:+ DQ
       +:+ Background.tab_url tab +:+ DQ +:+ ">"
       +:+ Background.tab_title tab +:+ "</a></em></p>" /\
     tags note = Some ["web-clip"] /\ category note = Some "web" /\
     created note = clock w (1 + ticks w) /\
     modified note = clock w (2 + ticks w) /\
     out (snd r) = out w ++ [Notification "Text saved to NoteMaster!"] /\
     ticks (snd r) = (3 + ticks w)%nat).
Proof.
  intros Hne r. subst r. rewrite (selection_clicked _ _ _ _ Hne).
  split.
  - intros ->. now cbn.
  - intros Hd Hg Hs. rewrite Hd.
    rewrite (saveSelectedText_run selected tab w Hne), Hd. cbv zeta.
    rewrite background_saveNote_run.
    cbn [get_fails set_fails with_draws with_ticks]. rewrite Hg, Hs.
    cbn [orb snd local_notes out ticks with_out with_local_notes].
    eexists. split; [reflexivity|]. now cbn.
Qed.

Lemma selection_needs_document_witness :
  out (snd (Background.handleContextMenuClick
              (fun _ => "02/11/2026, 09:02:00") "saveSelectedText"
              (Some "1 < 2") (Background.mkTab "Wiki" "https://w.org")
              (with_document false (editing_world "Groceries" "<p>milk</p>"))))
  = [ConsoleError "Context menu error:"].
Proof.
  assert (H : "1 < 2" <> EmptyString) by discriminate.
  destruct (selection_needs_document
              (fun _ => "02/11/2026, 09:02:00")
              (with_document false (editing_world "Groceries" "<p>milk</p>"))
              (Background.mkTab "Wiki" "https://w.org") "1 < 2" H)
    as [Hno _].
  destruct (Hno eq_refl) as (_ & _ & Hout & _). exact Hout.
Defined.

(** ** Searching for a note by what it holds *)

Lemma trimStart_suffix (s : string) : exists pre, s = pre +:+ trimStart s.
Proof.
  induction s as [|c s [pre IH]]; [now exists EmptyString|].
  simpl. destruct (is_white_space c).
  - exists (String c pre). now rewrite app_cons, <- IH.
  - now exists EmptyString.
Qed.

Lemma trimEnd_prefix (s : string) : exists post, s = trimEnd s +:+ post.
Proof.
  induction s as [|c s [post IH]]; [now exists EmptyString|].
  simpl. destruct (is_white_space c && is_empty (trimEnd s)).
  - now exists (String c s).
  - exists post. now rewrite app_cons, <- IH.
Qed.

Lemma trim_substring (s : string) : substring_of (trim s) s.
Proof.
  unfold trim, substring_of.
  destruct (trimStart_suffix s) as [pre Hpre].
  destruct (trimEnd_prefix (trimStart s)) as [post Hpost].
  exists pre, post. now rewrite <- Hpost.
Qed.

(** X24.  A note of the collection is among the notes shown when its own
    title, or its own content, is typed into the search field. *)
Theorem search_finds_own_text (w : World) (note : Note) (query : string) :
  In note (notes w) ->
  query = title note \/ query = content note ->
  exists shown,
    searchNotes query w = (Ok tt, rendered shown w) /\
    In note shown.
Proof.
  intros Hin Hq. unfold searchNotes.
  destruct (falsy (trim (toLowerCase query))) eqn:E.
  - exists (notes w). split; [apply renderNotes_run|exact Hin].
  - eexists. split; [unfold_M; apply renderNotes_run|]. cbn [default].
    apply filter_In. split; [exact Hin|].
    apply search_match_true.
    destruct Hq as [-> | ->]; [left|right]; apply trim_substring.
Qed.

Lemma search_finds_own_text_witness :
  exists shown,
    searchNotes "Selection from Wiki"
      (editing_world "Groceries" "<p>milk</p>")
    = (Ok tt, rendered shown (editing_world "Groceries" "<p>milk</p>")) /\
    In clipping shown.
Proof.
  apply (search_finds_own_text (editing_world "Groceries" "<p>milk</p>")
           clipping "Selection from Wiki").
  - right. left. reflexivity.
  - left. reflexivity.
Defined.

(** ** Downloading one note *)

Lemma find_id_none (noteId : string) (l : list Note) :
  (forall n, In n l -> id n <> noteId) ->
  List.find (fun n => String.eqb (id n) noteId) l = None.
Proof.
  induction l as [|x l IH]; intros H; [reflexivity|]. simpl.
  destruct (String.eqb_spec (id x) noteId) as [E|_].
  - now elim (H x (or_introl eq_refl)).
  - apply IH. intros n Hn. apply H. now right.
Qed.

Lemma find_id_unique (note : Note) (l : list Note) :
  NoDup (map id l) -> In note l ->
  List.find (fun n => String.eqb (id n) (id note)) l = Some note.
Proof.
  induction l as [|x l IH]; intros Hnd Hin; [destruct Hin|].
  simpl in *. apply NoDup_cons in Hnd as [Hx Hnd].
  destruct Hin as [->|Hin]; [now rewrite String.eqb_refl|].
  destruct (String.eqb_spec (id x) (id note)) as [E|_]; [|now apply IH].
  elim Hx. rewrite E. apply list_elem_of_In, in_map, Hin.
Qed.

(** X25.  [downloadNote] does nothing at all for an identifier no note of
    the collection bears.  For a note of a collection with distinct
    identifiers it downloads one file, named after the title of the note,
    or [Untitled Note] when the title is empty, with the extension [.txt],
    and says so; the file begins with the title and ends with the text of
    the content.  The clock is read twice, for the two dates shown, and
    neither the collection nor the store changes. *)
Theorem downloadNote_spec (toLocaleDateString : timestamp -> string)
    (stripHtml : string -> string) (w : World) (noteId : string) :
  let r := downloadNote toLocaleDateString stripHtml noteId w in
  ((forall n, In n (notes w) -> id n <> noteId) -> r = (Ok tt, w)) /\
  (forall note,
     NoDup (map id (notes w)) -> In note (notes w) -> id note = noteId ->
     exists middle,
       fst r = Ok tt /\
       out (snd r)
       = out w ++ [Download (title note +:+ middle
                             +:+ stripHtml (content note))
                     (or_else (title note) "Untitled Note" +:+ ".txt");
                   SaveStatus "Note downloaded!" "success"] /\
       ticks (snd r) = (2 + ticks w)%nat /\
       notes (snd r) = notes w /\ local_notes (snd r) = local_notes w).
Proof.
  intros r. subst r. unfold downloadNote, formatDate. do 3 unfold_M. split.
  - intros H. now rewrite (find_id_none noteId (notes w) H).
  - intros note Hnd Hin <-.
    rewrite (find_id_unique note (notes w) Hnd Hin).
    cbn [fst snd out ticks notes local_notes with_out with_ticks].
    match goal with
    | |- context [Download (_ +:+ ?x1 +:+ ?x2 +:+ ?x3 +:+ ?x4 +:+ ?x5
                            +:+ ?x6 +:+ ?x7 +:+ ?x8 +:+ ?x9 +:+ _) _] =>
        exists (x1 +:+ x2 +:+ x3 +:+ x4 +:+ x5 +:+ x6 +:+ x7 +:+ x8 +:+ x9)
    end.
    split; [reflexivity|]. split; [|now repeat split].
    rewrite <- List.app_assoc, !append_assoc. reflexivity.
Qed.

(** ** The modal and the current note *)

Lemma modal_consistent_same (w w' : World) :
  isEditing w' = isEditing w -> currentNote w' = currentNote w ->
  modal_consistent w -> modal_consistent w'.
Proof. unfold modal_consistent. now intros -> ->. Qed.

Lemma modal_consistent_open (w : World) (note : Note) :
  isEditing w = true -> currentNote w = Some note -> modal_consistent w.
Proof. unfold modal_consistent. intros -> ->. split; eauto. Qed.

Lemma modal_consistent_closed (w : World) :
  isEditing w = false -> currentNote w = None -> modal_consistent w.
Proof.
  unfold modal_consistent. intros -> ->.
  split; [discriminate|]. intros [x Hx]. discriminate.
Qed.

Lemma saveCurrentNote_fuel_consistent (fuel : nat) :
  forall (w : World) (showFeedback : bool),
    modal_consistent w ->
    modal_consistent (snd (saveCurrentNote_fuel fuel showFeedback w)).
Proof.
  induction fuel as [|fuel IH]; intros w sf Hw; [exact Hw|].
  simpl.
  destruct (currentNote w) as [note|] eqn:Hc;
    [|unfold saveCurrentNote_body; unfold_M; now rewrite Hc].
  destruct (noteTitle w) as [tv|] eqn:Ht;
    [|unfold saveCurrentNote_body; unfold_M; now rewrite Hc, Ht].
  destruct (noteEditor w) as [ev|] eqn:He;
    [|unfold saveCurrentNote_body; unfold_M; now rewrite Hc, Ht, He].
  destruct (falsy (trim tv) && falsy (trim ev)) eqn:Hb.
  { unfold saveCurrentNote_body. unfold_M. rewrite Hc, Ht, He, Hb.
    now destruct sf. }
  assert (He' : isEditing w = true) by (apply Hw; rewrite Hc; eauto).
  rewrite (saveCurrentNote_body_run _ _ _ _ _ _ Hc Ht He Hb).
  assert (Hs : modal_consistent (saved_world w note tv ev)).
  { eapply modal_consistent_open;
      [now rewrite saved_world_isEditing|apply saved_world_currentNote]. }
  destruct sf; [|exact Hs].
  rewrite closeNoteModal_with_run.
  match goal with |- context [if ?b then _ else _] => destruct b end;
    [|now apply modal_consistent_closed].
  match goal with |- context [match confirms ?x with _ => _ end] =>
    destruct (confirms x) as [|[] rest] end;
    try (now apply modal_consistent_closed).
  apply IH. now apply (modal_consistent_same (saved_world w note tv ev)).
Qed.

Lemma closeNoteModal_consistent (w : World) :
  modal_consistent w -> modal_consistent (snd (closeNoteModal w)).
Proof.
  intros Hw. unfold closeNoteModal. rewrite closeNoteModal_with_run.
  destruct (isEditing w && unsaved_changes w);
    [|now apply modal_consistent_closed].
  destruct (confirms w) as [|[] rest];
    try (now apply modal_consistent_closed).
  apply saveCurrentNote_fuel_consistent.
  now apply (modal_consistent_same w).
Qed.

(** *** Computations that leave the modal alone *)

Lemma spares_ret {A} (a : A) : spares_modal (mret a).
Proof. now intros w. Qed.

Lemma spares_gets {A} (f : World -> A) : spares_modal (gets f).
Proof. now intros w. Qed.

Lemma spares_throw {A} (e : string) : spares_modal (@throw A e).
Proof. now intros w. Qed.

Lemma spares_bind {A B} (m : M A) (k : A -> M B) :
  spares_modal m -> (forall a, spares_modal (k a)) -> spares_modal (m ≫= k).
Proof.
  intros Hm Hk w. specialize (Hm w).
  unfold mbind, M_bind, bind. destruct (m w) as [[a|e] w']; simpl in *.
  - destruct (Hk a w') as [H1 H2]. destruct Hm as [H3 H4]. split; congruence.
  - exact Hm.
Qed.

Lemma spares_try_catch {A} (m : M A) (h : string -> M A) :
  spares_modal m -> (forall e, spares_modal (h e)) ->
  spares_modal (try_catch m h).
Proof.
  intros Hm Hh w. specialize (Hm w).
  unfold try_catch. destruct (m w) as [[a|e] w']; simpl in *.
  - exact Hm.
  - destruct (Hh e w') as [H1 H2]. destruct Hm as [H3 H4]. split; congruence.
Qed.

Lemma spares_modify (f : World -> World) :
  (forall w, isEditing (f w) = isEditing w /\
             currentNote (f w) = currentNote w) ->
  spares_modal (modify f).
Proof. intros Hf w. apply Hf. Qed.

Lemma spares_emit (e : Event) : spares_modal (emit e).
Proof. now intros w. Qed.

Lemma spares_new_Date : spares_modal new_Date.
Proof. now intros w. Qed.

Lemma spares_generateId : spares_modal generateId.
Proof. now intros w. Qed.

Lemma spares_confirm (msg : string) : spares_modal (confirm msg).
Proof. intros w. unfold confirm. now destruct (confirms w). Qed.

Lemma spares_storage_local_get : spares_modal storage_local_get.
Proof. intros w. unfold storage_local_get. now destruct (get_fails w). Qed.

Lemma spares_storage_local_set (v : list Note) :
  spares_modal (storage_local_set v).
Proof. intros w. unfold storage_local_set. now destruct (set_fails w). Qed.

Lemma spares_storage_sync_get : spares_modal storage_sync_get.
Proof.
  intros w. unfold storage_sync_get. now destruct (sync_get_fails w).
Qed.

Lemma spares_storage_sync_set (v : Settings) :
  spares_modal (storage_sync_set v).
Proof.
  intros w. unfold storage_sync_set. now destruct (sync_set_fails w).
Qed.

Lemma spares_mapM {A B} (f : A -> M B) (l : list A) :
  (forall x, spares_modal (f x)) -> spares_modal (mapM f l).
Proof.
  intros Hf. induction l as [|x l IH]; simpl; [apply spares_ret|].
  apply spares_bind; [apply Hf|]. intros y.
  apply spares_bind; [exact IH|]. intros ys. apply spares_ret.
Qed.

Lemma spares_escapeHtml (text : string) :
  spares_modal (Background.escapeHtml text).
Proof.
  intros w. unfold Background.escapeHtml. now destruct (has_document w).
Qed.

(** One step of a proof that a computation leaves the modal alone, by the
    shape of the computation. *)
Ltac spares_step :=
  lazymatch goal with
  | |- spares_modal (mbind _ _) => apply spares_bind; [|intros ?]
  | |- spares_modal (try_catch _ _) => apply spares_try_catch; [|intros ?]
  | |- spares_modal (mret _) => apply spares_ret
  | |- spares_modal (gets _) => apply spares_gets
  | |- spares_modal (throw _) => apply spares_throw
  | |- spares_modal (emit _) => apply spares_emit
  | |- spares_modal new_Date => apply spares_new_Date
  | |- spares_modal generateId => apply spares_generateId
  | |- spares_modal (confirm _) => apply spares_confirm
  | |- spares_modal storage_local_get => apply spares_storage_local_get
  | |- spares_modal (storage_local_set _) => apply spares_storage_local_set
  | |- spares_modal storage_sync_get => apply spares_storage_sync_get
  | |- spares_modal (storage_sync_set _) => apply spares_storage_sync_set
  | |- spares_modal (Background.escapeHtml _) => apply spares_escapeHtml
  | |- spares_modal (modify _) => apply spares_modify; now intros ?
  | |- spares_modal (mapM _ _) => apply spares_mapM; intros ?
  | |- spares_modal (if ?b then _ else _) => destruct b
  | |- spares_modal (match ?x with _ => _ end) => destruct x
  | |- spares_modal (let _ := _ in _) => cbv zeta
  | |- spares_modal (console_log _) => unfold console_log
  | |- spares_modal (console_error _) => unfold console_error
  | |- spares_modal (alert _) => unfold alert
  | |- spares_modal (showSaveStatus _ _) => unfold showSaveStatus
  | |- spares_modal (downloadFile _ _) => unfold downloadFile
  | |- spares_modal (Background.showNotification _) =>
      unfold Background.showNotification
  | |- spares_modal (Background.saveNote _) => unfold Background.saveNote
  | |- spares_modal (createNoteElement _) => unfold createNoteElement
  | |- spares_modal (formatDate _ _) => unfold formatDate
  | |- spares_modal (renderNotes _) => unfold renderNotes
  | |- spares_modal saveNotes => unfold saveNotes
  | |- spares_modal loadNotes => unfold loadNotes
  | |- spares_modal loadSettings => unfold loadSettings
  | |- spares_modal setupEventListeners => unfold setupEventListeners
  end.

Ltac spares_auto := repeat spares_step.

Lemma spares_consistent {A} (m : M A) (w : World) :
  spares_modal m -> modal_consistent w -> modal_consistent (snd (m w)).
Proof. intros Hm. destruct (Hm w). now apply modal_consistent_same. Qed.

Section ModalHandlers.

Context (toISOString toLocaleDateString toLocaleString : timestamp -> string)
        (stripHtml : string -> string)
        (localeCompare : string -> string -> Z).

Lemma spares_init : spares_modal init.
Proof. unfold init. spares_auto. Qed.

Lemma spares_deleteNote (noteId : string) : spares_modal (deleteNote noteId).
Proof. unfold deleteNote. spares_auto. Qed.

Lemma spares_searchNotes (query : string) : spares_modal (searchNotes query).
Proof. unfold searchNotes. spares_auto. Qed.

Lemma spares_sortNotes (sortBy : string) :
  spares_modal (sortNotes localeCompare sortBy).
Proof. unfold sortNotes. spares_auto. Qed.

Lemma spares_downloadNote (noteId : string) :
  spares_modal (downloadNote toLocaleDateString stripHtml noteId).
Proof. unfold downloadNote. spares_auto. Qed.

Lemma spares_exportAllNotes :
  spares_modal (exportAllNotes toISOString toLocaleDateString stripHtml).
Proof. unfold exportAllNotes. spares_auto. Qed.

Lemma spares_handleContextMenuClick (menuItemId : string)
    (selectionText : option string) (tab : Background.Tab) :
  spares_modal (Background.handleContextMenuClick toLocaleString menuItemId
                  selectionText tab).
Proof.
  unfold Background.handleContextMenuClick, Background.saveSelectedText,
    Background.savePageInfo.
  spares_auto.
Qed.

Lemma spares_onInstalled (reason previousVersion : string) :
  spares_modal (Background.onInstalled reason previousVersion).
Proof.
  unfold Background.onInstalled, Background.handleFirstInstall,
    Background.handleUpdate.
  spares_auto.
Qed.

Lemma new_NoteMaster_consistent (w : World) :
  modal_consistent (snd (new_NoteMaster w)).
Proof.
  unfold new_NoteMaster.
  unfold mbind at 1, M_bind at 1, bind at 1, modify at 1.
  unfold mbind at 1, M_bind at 1, bind at 1, modify at 1.
  unfold mbind at 1, M_bind at 1, bind at 1, modify at 1.
  unfold mbind at 1, M_bind at 1, bind at 1, modify at 1.
  match goal with |- modal_consistent (snd (init ?x)) =>
    destruct (spares_init x) as [He Hc] end.
  apply modal_consistent_closed; [now rewrite He|now rewrite Hc].
Qed.

Lemma openNoteModal_consistent (note : Note) (w : World) :
  modal_consistent (snd (openNoteModal note w)).
Proof.
  destruct (openNoteModal_fields note w) as (_ & Hc & He & _).
  now apply (modal_consistent_open _ note).
Qed.

Lemma perform_consistent (w : World) (a : Action) :
  modal_consistent w ->
  modal_consistent
    (perform toISOString toLocaleDateString toLocaleString stripHtml
       localeCompare w a).
Proof.
  intros Hw. unfold perform. destruct a; unfold handler.
  - now apply spares_consistent; [apply spares_onInstalled|].
  - apply new_NoteMaster_consistent.
  - unfold mbind at 1, M_bind at 1, bind at 1, console_log, emit,
      modify at 1.
    rewrite createNewNote_run. apply openNoteModal_consistent.
  - unfold mbind, M_bind, bind, gets.
    destruct (List.find _ (notes w)) as [note|]; [|exact Hw].
    apply openNoteModal_consistent.
  - now apply (modal_consistent_same w).
  - unfold mbind, M_bind, bind, modify.
    apply saveCurrentNote_fuel_consistent.
    now apply (modal_consistent_same w).
  - unfold mbind at 1, M_bind at 1, bind at 1, gets at 1.
    destruct (default false (autoSave <$> settings w)); [|exact Hw].
    unfold autoSave_fires, mbind, M_bind, bind, modify, gets.
    match goal with |- context [if ?b then _ else _] => destruct b end;
      [apply saveCurrentNote_fuel_consistent|];
      now apply (modal_consistent_same w).
  - unfold mbind, M_bind, bind, modify.
    apply closeNoteModal_consistent. now apply (modal_consistent_same w).
  - unfold mbind at 1, M_bind at 1, bind at 1, modify at 1.
    apply spares_consistent; [apply spares_deleteNote|].
    now apply (modal_consistent_same w).
  - now apply spares_consistent; [apply spares_downloadNote|].
  - now apply spares_consistent; [apply spares_searchNotes|].
  - now apply spares_consistent; [apply spares_sortNotes|].
  - now apply spares_consistent; [apply spares_exportAllNotes|].
  - now apply spares_consistent; [apply spares_handleContextMenuClick|].
  - now apply (modal_consistent_same w).
  - now apply (modal_consistent_same w).
  - now apply (modal_consistent_same w).
Qed.

End ModalHandlers.

(** X26.  The popup is editing exactly when it holds a current note, and
    stays so: from a world in which the two go together, whatever events
    happen, in whatever order and over whatever backends and page, they
    still go together afterwards. *)
Theorem modal_and_note_go_together
    (toISOString toLocaleDateString toLocaleString : timestamp -> string)
    (stripHtml : string -> string) (localeCompare : string -> string -> Z)
    (w0 : World) (actions : list Action) :
  modal_consistent w0 ->
  modal_consistent
    (run toISOString toLocaleDateString toLocaleString stripHtml
       localeCompare actions w0).
Proof.
  revert w0. induction actions as [|a actions IH]; intros w Hw; [exact Hw|].
  simpl. apply IH. now apply perform_consistent.
Qed.

Lemma modal_and_note_go_together_witness :
  modal_consistent
    (run (fun t => pretty t) (fun t => pretty t) (fun t => pretty t)
       (fun html => html) (fun a b => 0)
       [Installed "install" EmptyString; PopupOpens; NewNoteClicked;
        UserEdits "Groceries" "<p>milk</p>"; CloseClicked [false]]
       (before_install sample_clock sample_random)).
Proof.
  apply modal_and_note_go_together.
  unfold modal_consistent. simpl. split; [discriminate|].
  intros [x Hx]. discriminate.
Defined.

(** ** The popup opens *)

(** X27.  [loadSettings] never throws and always leaves the popup with
    settings: those the sync store holds, the defaults of the popup when it
    holds none, and the same defaults, with the error logged, when the store
    cannot be read.  It touches neither the notes nor either store and does
    not read the clock. *)
Theorem loadSettings_spec (w : World) :
  let w' := snd (loadSettings w) in
  fst (loadSettings w) = Ok tt /\
  settings w'
  = Some (if sync_get_fails w then default_settings
          else default default_settings (sync_settings w)) /\
  out w'
  = out w ++ [ConsoleLog "Loading settings...";
              if sync_get_fails w
              then ConsoleError "Error loading settings:"
              else ConsoleLog "Settings loaded:"] /\
  notes w' = notes w /\ currentNote w' = currentNote w /\
  isEditing w' = isEditing w /\ local_notes w' = local_notes w /\
  sync_settings w' = sync_settings w /\ ticks w' = ticks w.
Proof.
  unfold loadSettings. do 3 unfold_M.
  cbn [sync_get_fails with_out].
  destruct (sync_get_fails w); cbn; rewrite <- ?List.app_assoc;
    repeat split; reflexivity.
Qed.

Lemma loadSettings_run (w : World) :
  loadSettings w
  = (Ok tt,
     if sync_get_fails w
     then with_settings (Some default_settings)
            (with_out (out w ++ [ConsoleLog "Loading settings...";
                                 ConsoleError "Error loading settings:"]) w)
     else with_out (out w ++ [ConsoleLog "Loading settings...";
                              ConsoleLog "Settings loaded:"])
            (with_settings
               (Some (default default_settings (sync_settings w))) w)).
Proof.
  unfold loadSettings. do 3 unfold_M.
  cbn [sync_get_fails with_out].
  destruct (sync_get_fails w); cbn; rewrite <- ?List.app_assoc; reflexivity.
Qed.

Lemma loadNotes_full_run (w : World) :
  loadNotes w
  = (Ok tt,
     if get_fails w
     then with_notes []
            (with_out (out w ++ [ConsoleLog "Loading notes...";
                                 ConsoleError "Error loading notes:"]) w)
     else with_notes (sort by_modified_desc (default [] (local_notes w)))
            (with_out (out w ++ [ConsoleLog "Loading notes...";
                                 ConsoleLog "Notes loaded:"]) w)).
Proof.
  unfold loadNotes. do 3 unfold_M.
  cbn [get_fails with_out].
  destruct (get_fails w); cbn; rewrite <- ?List.app_assoc; reflexivity.
Qed.

Lemma init_run (w : World) :
  exists w1,
    init w
    = (Ok tt,
       with_out (out (rendered (notes w1) w1)
                 ++ [ConsoleLog "NoteMaster initialized successfully"])
         (rendered (notes w1) w1)) /\
    notes w1
    = (if get_fails w then []
       else sort by_modified_desc (default [] (local_notes w))) /\
    settings w1
    = Some (if sync_get_fails w then default_settings
            else default default_settings (sync_settings w)) /\
    currentNote w1 = currentNote w /\ isEditing w1 = isEditing w /\
    local_notes w1 = local_notes w /\ sync_settings w1 = sync_settings w /\
    ticks w1 = ticks w /\ has_notesList w1 = has_notesList w /\
    has_emptyState w1 = has_emptyState w.
Proof.
  unfold init, try_catch.
  unfold mbind at 1, M_bind at 1, bind at 1, console_log at 1, emit,
    modify at 1.
  unfold mbind at 1, M_bind at 1, bind at 1. rewrite loadSettings_run.
  unfold mbind at 1, M_bind at 1, bind at 1. rewrite loadNotes_full_run.
  unfold setupEventListeners.
  unfold mbind, M_bind, bind, console_log, emit, modify.
  rewrite renderNotes_run. cbn [default].
  match goal with
  | |- exists w1, (_, with_out _ (rendered _ ?x)) = _ /\ _ => exists x
  end.
  split; [reflexivity|].
  cbn [sync_get_fails with_out].
  destruct (sync_get_fails w); cbn [get_fails with_out with_settings];
    destruct (get_fails w); cbn; repeat split; reflexivity.
Qed.

Lemma new_NoteMaster_run (w : World) :
  new_NoteMaster w
  = init (with_settings None
            (with_isEditing false (with_currentNote None (with_notes [] w)))).
Proof. reflexivity. Qed.

Lemma new_NoteMaster_fields (w : World) :
  let w' := snd (new_NoteMaster w) in
  fst (new_NoteMaster w) = Ok tt /\
  notes w'
  = (if get_fails w then []
     else sort by_modified_desc (default [] (local_notes w))) /\
  settings w'
  = Some (if sync_get_fails w then default_settings
          else default default_settings (sync_settings w)) /\
  currentNote w' = None /\ isEditing w' = false /\
  local_notes w' = local_notes w /\ sync_settings w' = sync_settings w /\
  ticks w'
  = (if has_notesList w && has_emptyState w
     then ticks w + length (notes w') else ticks w)%nat.
Proof.
  rewrite new_NoteMaster_run.
  destruct (init_run (with_settings None
                        (with_isEditing false
                           (with_currentNote None (with_notes [] w)))))
    as (w1 & -> & Hn & Hs & Hc & He & Hl & Hy & Ht & Hnl & Hes).
  cbn [fst snd].
  cbn [get_fails sync_get_fails local_notes sync_settings currentNote
       isEditing ticks has_notesList has_emptyState
       with_settings with_isEditing with_currentNote with_notes]
    in Hn, Hs, Hc, He, Hl, Hy, Ht, Hnl, Hes.
  split; [reflexivity|].
  assert (Hr : forall l, notes (rendered l w1) = notes w1).
  { intros l. now autorewrite with world. }
  cbn [notes settings currentNote isEditing local_notes sync_settings ticks
       with_out].
  rewrite Hr.
  repeat split; try (autorewrite with world; assumption).
  - unfold rendered. destruct (has_notesList w1 && has_emptyState w1);
      assumption.
  - unfold rendered. destruct (has_notesList w1 && has_emptyState w1);
      assumption.
  - rewrite <- Hnl, <- Hes, <- Ht. unfold rendered.
    destruct (has_notesList w1 && has_emptyState w1); reflexivity.
Qed.

(** X28.  Opening the popup never throws, whatever the two stores do.  The
    popup starts with no note in the modal; it holds the stored notes,
    latest modified first, or none where the store cannot be read; it has
    settings, those of the sync store or its own defaults; the stores are as
    they were; and where the page has the list, the clock has been read
    once for each note shown. *)
Theorem new_NoteMaster_spec (w : World) :
  let w' := snd (new_NoteMaster w) in
  fst (new_NoteMaster w) = Ok tt /\
  notes w'
  = (if get_fails w then []
     else sort by_modified_desc (default [] (local_notes w))) /\
  settings w'
  = Some (if sync_get_fails w then default_settings
          else default default_settings (sync_settings w)) /\
  currentNote w' = None /\ isEditing w' = false /\
  local_notes w' = local_notes w /\ sync_settings w' = sync_settings w /\
  ticks w'
  = (if has_notesList w && has_emptyState w
     then ticks w + length (notes w') else ticks w)%nat.
Proof. apply new_NoteMaster_fields. Qed.


(** X29.  The first thing a user sees.  When the browser installs the
    extension over working stores that hold no note, the installation stores
    the settings of the background script and the welcome note, stamped with
    two successive readings of the clock; the popup that opens next holds
    exactly that note, runs with exactly those settings, auto-save included,
    and has nothing open in the modal. *)
Theorem first_install_then_popup (w : World) (previousVersion : string) :
  get_fails w = false -> set_fails w = false ->
  sync_get_fails w = false -> sync_set_fails w = false ->
  local_notes w = None ->
  let installed := snd (Background.onInstalled "install" previousVersion w) in
  let opened := snd (new_NoteMaster installed) in
  let welcome :=
    mkNote (toString36 (clock w (ticks w)) +:+ random36 w (draws w))
      "Welcome to NoteMaster!" Template.welcome
      (Some ["welcome"; "guide"]) (Some "system")
      (clock w (1 + ticks w)) (clock w (2 + ticks w)) in
  fst (Background.onInstalled "install" previousVersion w) = Ok tt /\
  local_notes installed = Some [welcome] /\
  sync_settings installed = Some Background.defaultSettings /\
  out installed
  = out w ++ [Notification
                "Welcome to NoteMaster! Check out your first note to get started."] /\
  fst (new_NoteMaster installed) = Ok tt /\
  notes opened = [welcome] /\
  settings opened = Some Background.defaultSettings /\
  default false (autoSave <$> settings opened) = true /\
  currentNote opened = None /\ isEditing opened = false /\
  local_notes opened = Some [welcome].
Proof.
  intros Hg Hs Hyg Hys Hl.
  assert (Hi : Background.onInstalled "install" previousVersion w
               = Background.handleFirstInstall w) by reflexivity.
  rewrite Hi, handleFirstInstall_run, Hys. cbv zeta.
  rewrite background_saveNote_run.
  cbn [fst snd get_fails set_fails local_notes with_draws with_ticks
       with_sync_settings].
  rewrite Hg, Hs, Hl. cbn [orb default].
  set (welcome := mkNote _ _ _ _ _ _ _).
  set (installed := with_out _ _).
  destruct (new_NoteMaster_fields installed)
    as (Hr & Hn & Hst & Hc & He & Hln & _).
  assert (Hig : get_fails installed = false) by exact Hg.
  assert (Hiy : sync_get_fails installed = false) by exact Hyg.
  rewrite Hig in Hn. rewrite Hiy in Hst.
  repeat split; try assumption; try reflexivity.
  rewrite Hst. reflexivity.
Qed.

Lemma first_install_then_popup_witness :
  exists welcome,
    notes (snd (new_NoteMaster
                  (snd (Background.onInstalled "install" EmptyString
                          (before_install sample_clock sample_random)))))
    = [welcome] /\
    created welcome = sample_clock 1 /\ modified welcome = sample_clock 2.
Proof.
  eexists.
  split; [apply (first_install_then_popup
                   (before_install sample_clock sample_random) EmptyString);
          reflexivity|].
  split; reflexivity.
Defined.
